(** * AutoUnpack: the detection-and-orchestration pipeline of [autounpack.py]

    A shallow embedding of the archive grouping ([Unpacker.unpack_archives]),
    the extraction orchestration ([Unpacker.extract_archive]), the history
    file ([Unpacker._log_extraction_event], [MainApp._load_extraction_history])
    and the polling loop ([UnpackMonitorThread.run]).

    Conventions of the model.
    - A Python [str] is a [string]; every character is a code point below 256.
    - A [pathlib.Path] is an absolute, already parsed path of the POSIX
      flavour: the list of its components below the root.  [suffix] and
      [stem] are those of Python up to 3.13.
    - The file system is a finite map from paths to nodes.  The extraction
      tool, the torrent service and the operating system's refusals are
      oracles of the environment.
    - A text file is written in an encoding that has every character of
      the model (UTF-8, Latin-1): writing a text to an open file does not
      fail on a character of it. *)

From Stdlib Require Import Ascii DecimalString DecimalNat Decimal.
From Stdlib Require Qcanon.
From stdpp Require Import base decidable option numbers list gmap strings.

Local Open Scope stdpp_scope.

(** ** Characters and strings, as Python sees them *)

Module Py.

Definition code (c : ascii) : nat := nat_of_ascii c.

(** [str.isdigit] on one character; below 256 the decimal digits are 0-9. *)
Definition is_digit (c : ascii) : bool :=
  (48 <=? code c) && (code c <=? 57).

(** [str.lower] on one character of the Latin-1 range. *)
Definition lower_char (c : ascii) : ascii :=
  let n := code c in
  if ((65 <=? n) && (n <=? 90))
     || ((192 <=? n) && (n <=? 222) && negb (n =? 215))
  then ascii_of_nat (n + 32) else c.

Fixpoint lower (s : string) : string :=
  match s with
  | EmptyString => EmptyString
  | String c r => String (lower_char c) (lower r)
  end.

(** [str.isspace] on one character of the Latin-1 range. *)
Definition is_space (c : ascii) : bool :=
  let n := code c in
  ((9 <=? n) && (n <=? 13)) || ((28 <=? n) && (n <=? 32))
  || (n =? 133) || (n =? 160).

Definition LF : ascii := "010"%char.
Definition CR : ascii := "013"%char.

Definition eqb_char (a b : ascii) : bool := bool_decide (a = b).

(** [s.lstrip()], [s.rstrip()] and [s.strip()]. *)
Fixpoint lstrip (s : string) : string :=
  match s with
  | EmptyString => EmptyString
  | String c r => if is_space c then lstrip r else s
  end.

Fixpoint rstrip (s : string) : string :=
  match s with
  | EmptyString => EmptyString
  | String c r =>
      match rstrip r with
      | EmptyString => if is_space c then EmptyString else String c EmptyString
      | r' => String c r'
      end
  end.

Definition strip (s : string) : string := rstrip (lstrip s).

(** [s.split(sep, 1)]: [(head, Some tail)] when [sep] occurs, the tail being
    what follows its first occurrence. *)
Fixpoint partition_char (sep : ascii) (s : string) : string * option string :=
  match s with
  | EmptyString => (EmptyString, None)
  | String c r =>
      if eqb_char c sep then (EmptyString, Some r)
      else let '(h, t) := partition_char sep r in (String c h, t)
  end.

(** [s.split(sep, maxsplit)] for a one-character separator. *)
Fixpoint split (sep : ascii) (maxsplit : nat) (s : string) : list string :=
  match maxsplit with
  | 0 => [s]
  | S k =>
      match partition_char sep s with
      | (h, None) => [h]
      | (h, Some t) => h :: split sep k t
      end
  end.

(** [c not in s] *)
Fixpoint lacks (c : ascii) (s : string) : bool :=
  match s with
  | EmptyString => true
  | String x r => negb (eqb_char x c) && lacks c r
  end.

(** [all(p(x) for x in s)] *)
Fixpoint all_chars (p : ascii -> bool) (s : string) : bool :=
  match s with
  | EmptyString => true
  | String x r => p x && all_chars p r
  end.

(** [s.count(c)] *)
Fixpoint count (c : ascii) (s : string) : nat :=
  match s with
  | EmptyString => 0
  | String x r => (if eqb_char x c then 1 else 0) + count c r
  end.

(** [str(n)] for a natural number. *)
Definition str_nat (n : nat) : string := NilEmpty.string_of_uint (Nat.to_uint n).

End Py.

(** ** [pathlib]: pure paths *)

(** A path is the list of its components below the root; [[]] is the
    root itself. *)
Abbreviation Path := (list string).

Module Pathlib.

(** [p.name], the last component ([''] for the root). *)
Definition name (p : Path) : string := List.last p "".

(** [p.parent]; the root is its own parent. *)
Definition parent (p : Path) : Path := List.removelast p.

(** [p / child] for a one-component [child]. *)
Definition joinpath (p : Path) (child : string) : Path := p ++ [child].

(** [str(p)] in the POSIX flavour. *)
Definition str (p : Path) : string :=
  match p with
  | [] => "/"
  | _ => String.concat "" (List.map (fun c => "/" +:+ c) p)
  end.

(** Cut a name at its last dot: [name = pre + "." + post], [post] free of
    dots.  This is [name.rfind('.')]. *)
Fixpoint rsplit_dot (s : string) : option (string * string) :=
  match s with
  | EmptyString => None
  | String c r =>
      match rsplit_dot r with
      | Some (pre, post) => Some (String c pre, post)
      | None => if Py.eqb_char c "."%char then Some (EmptyString, r) else None
      end
  end.

Definition nonempty (s : string) : bool :=
  match s with EmptyString => false | _ => true end.

(** [PurePath.suffix] on a name: [name[i:]] when [0 < i < len(name) - 1]
    for [i = name.rfind('.')], else ['']. *)
Definition suffix_of_name (n : string) : string :=
  match rsplit_dot n with
  | Some (pre, post) =>
      if nonempty pre && nonempty post then String "."%char post else ""
  | None => ""
  end.

(** [PurePath.stem] on a name: [name[:i]] under the same condition, else
    the whole name. *)
Definition stem_of_name (n : string) : string :=
  match rsplit_dot n with
  | Some (pre, post) => if nonempty pre && nonempty post then pre else n
  | None => n
  end.

Definition suffix (p : Path) : string := suffix_of_name (name p).
Definition stem (p : Path) : string := stem_of_name (name p).

(** Ordering of pure paths: component by component, each component by
    code points ([PurePosixPath.__lt__]). *)
Fixpoint compare (p q : Path) : comparison :=
  match p, q with
  | [], [] => Eq
  | [], _ :: _ => Lt
  | _ :: _, [] => Gt
  | a :: p', b :: q' =>
      match String.compare a b with
      | Eq => compare p' q'
      | c => c
      end
  end.

Definition ltb (p q : Path) : bool :=
  match compare p q with Lt => true | _ => false end.

(** [p <= q] in that order. *)
Definition le (p q : Path) : Prop := ltb q p = false.

End Pathlib.

(** ** The split-volume pattern

    [PART_REGEX = re.compile(r"(.+?)\.(part\d{1,3}|[rs]\d{2}|z\d{2}|\d{3})$",
    re.IGNORECASE)], used through [PART_REGEX.match]. *)

Module Regex.

(** A pattern letter under [re.IGNORECASE]: [l] is the lower-case letter. *)
Definition ci (l c : ascii) : bool :=
  Py.eqb_char c l || Py.eqb_char c (ascii_of_nat (Py.code l - 32)).

(** [\d{1,3}] up to the end of the text. *)
Definition digits_1_3 (s : string) : bool :=
  match s with
  | String a EmptyString => Py.is_digit a
  | String a (String b EmptyString) => Py.is_digit a && Py.is_digit b
  | String a (String b (String c EmptyString)) =>
      Py.is_digit a && Py.is_digit b && Py.is_digit c
  | _ => false
  end.

(** [part\d{1,3}] *)
Definition alt_part (t : string) : bool :=
  match t with
  | String p (String a (String r (String t' ds))) =>
      ci "p" p && ci "a" a && ci "r" r && ci "t" t' && digits_1_3 ds
  | _ => false
  end.

(** [[rs]\d{2}] *)
Definition alt_rs (t : string) : bool :=
  match t with
  | String x (String a (String b EmptyString)) =>
      (ci "r" x || ci "s" x) && Py.is_digit a && Py.is_digit b
  | _ => false
  end.

(** [z\d{2}] *)
Definition alt_z (t : string) : bool :=
  match t with
  | String x (String a (String b EmptyString)) =>
      ci "z" x && Py.is_digit a && Py.is_digit b
  | _ => false
  end.

(** [\d{3}] *)
Definition alt_digits (t : string) : bool :=
  match t with
  | String a (String b (String c EmptyString)) =>
      Py.is_digit a && Py.is_digit b && Py.is_digit c
  | _ => false
  end.

(** The characters a part token is made of. *)
Definition token_char (c : ascii) : bool :=
  Py.is_digit c || ci "p" c || ci "a" c || ci "r" c || ci "t" c
  || ci "s" c || ci "z" c.

(** The group [(part\d{1,3}|[rs]\d{2}|z\d{2}|\d{3})] matching all of [t]. *)
Definition token (t : string) : bool :=
  alt_part t || alt_rs t || alt_z t || alt_digits t.

(** [t] without one final line feed, when it ends in one. *)
Fixpoint chomp (t : string) : option string :=
  match t with
  | EmptyString => None
  | String c EmptyString => if Py.eqb_char c Py.LF then Some EmptyString else None
  | String c r => String c <$> chomp r
  end.

(** The group followed by [$]: the end of the text, or just before a line
    feed that ends the text. *)
Definition token_end (t : string) : bool :=
  token t || match chomp t with Some t' => token t' | None => false end.

(** [\.(...)$] against the rest of the text. *)
Definition tail_ok (rest : string) : bool :=
  match rest with
  | String c t => Py.eqb_char c "."%char && token_end t
  | EmptyString => false
  end.

(** The lazy group [(.+?)]: [pre] is what it has consumed so far, it grows
    by one character (never a line feed) while the rest does not match. *)
Fixpoint lazy_prefix (pre rest : string) : option string :=
  if tail_ok rest then Some pre
  else match rest with
       | EmptyString => None
       | String c r =>
           if Py.eqb_char c Py.LF then None
           else lazy_prefix (pre +:+ String c EmptyString) r
       end.

(** [PART_REGEX.match(s)]: [Some g] is a match whose [group(1)] is [g]. *)
Definition PART_REGEX_match (s : string) : option string :=
  match s with
  | EmptyString => None
  | String c r =>
      if Py.eqb_char c Py.LF then None else lazy_prefix (String c EmptyString) r
  end.

End Regex.

(** ** Grouping archives into sets ([Unpacker.unpack_archives], first half) *)

Module Grouper.

Definition SUPPORTED_ARCHIVE_EXTENSIONS : list string :=
  [".zip"; ".rar"; ".7z"; ".tar"; ".gz"; ".bz2"].

(** [f.suffix.lower() == '.rar'] *)
Definition is_rar (f : Path) : bool :=
  bool_decide (Py.lower (Pathlib.suffix f) = ".rar").

(** The test a file must pass to enter [all_archives]. *)
Definition is_candidate (f : Path) : bool :=
  bool_decide (Py.lower (Pathlib.suffix f) ∈ SUPPORTED_ARCHIVE_EXTENSIONS)
  || bool_decide (is_Some (Regex.PART_REGEX_match (Pathlib.name f))).

(** The key under which [archive] is filed. *)
Definition base_name (archive : Path) : string :=
  let name_to_check := Pathlib.stem archive in
  let match1 := Regex.PART_REGEX_match name_to_check in
  let match2 :=
    match match1 with
    | None =>
        if is_rar archive
        then Regex.PART_REGEX_match (Pathlib.name archive)
        else None
    | Some _ => match1
    end in
  match match2 with
  | Some group1 => group1
  | None => Pathlib.stem archive
  end.

(** The derivation in the specification's words: the pattern on the name
    without its final suffix; failing that, for a file whose extension is
    exactly [.rar], the pattern on the full name; failing that, the stem. *)
Definition base_name_spec (archive : Path) : string :=
  match Regex.PART_REGEX_match (Pathlib.stem archive) with
  | Some captured => captured
  | None =>
      if bool_decide (Pathlib.suffix archive = ".rar") then
        match Regex.PART_REGEX_match (Pathlib.name archive) with
        | Some captured => captured
        | None => Pathlib.stem archive
        end
      else Pathlib.stem archive
  end.

(** The candidates whose base name is [b], in encounter order. *)
Definition files_of (b : string) (all_archives : list Path) : list Path :=
  List.filter (fun a => bool_decide (base_name a = b)) all_archives.

(** A [defaultdict(list)]: keys in order of first insertion. *)
Abbreviation ArchiveSets := (list (string * list Path)).

(** [d[k].append(v)] *)
Fixpoint dict_append (k : string) (v : Path) (d : ArchiveSets) : ArchiveSets :=
  match d with
  | [] => [(k, [v])]
  | (k', vs) :: d' =>
      if decide (k' = k) then (k', vs ++ [v]) :: d'
      else (k', vs) :: dict_append k v d'
  end.

(** [d[k]] read without inserting. *)
Fixpoint dict_get (k : string) (d : ArchiveSets) : option (list Path) :=
  match d with
  | [] => None
  | (k', vs) :: d' => if decide (k' = k) then Some vs else dict_get k d'
  end.

Definition archive_sets (all_archives : list Path) : ArchiveSets :=
  foldl (fun d archive => dict_append (base_name archive) archive d) [] all_archives.

(** [sorted(file_list)]: the stable sort by [<]. *)
Fixpoint insert_sorted (x : Path) (l : list Path) : list Path :=
  match l with
  | [] => [x]
  | y :: l' => if Pathlib.ltb y x then y :: insert_sorted x l' else x :: l
  end.

Definition sorted (l : list Path) : list Path := foldr insert_sorted [] l.

(** The primary file of a set; [None] stands for the [IndexError] of
    [sorted(file_list)[0]] on an empty list. *)
Definition primary_file (file_list : list Path) : option Path :=
  let rar_files := List.filter is_rar file_list in
  match rar_files with
  | f :: _ => Some f
  | [] => head (sorted file_list)
  end.

End Grouper.

(** ** The world the program runs in *)

(** A file-system entry. *)
Inductive node :=
  | File (content : string)
  | Dir.

Global Instance node_eq_dec : EqDecision node.
Proof. solve_decision. Defined.

(** [errno] of an [OSError]. *)
Inductive errno :=
  ENOENT | EEXIST | EACCES | EISDIR | ENOTDIR | ENOTEMPTY | EINVAL | EBUSY.

(** The exceptions that occur; each is a subclass of [Exception]. *)
Inductive exn :=
  | CalledProcessError (stderr : string)
  | OSError (e : errno)
  | IndexError
  | RequestError (what : string)
  | KeyError (key : string)
  | TypeError (what : string)
  | ValueError (what : string).

Definition exn_str (e : exn) : string :=
  match e with
  | CalledProcessError _ => "Command returned non-zero exit status."
  | OSError ENOENT => "No such file or directory"
  | OSError EEXIST => "File exists"
  | OSError EACCES => "Permission denied"
  | OSError EISDIR => "Is a directory"
  | OSError ENOTDIR => "Not a directory"
  | OSError ENOTEMPTY => "Directory not empty"
  | OSError EINVAL => "Invalid argument"
  | OSError EBUSY => "Device or resource busy"
  | IndexError => "list index out of range"
  | RequestError what => what
  | KeyError key => "'" +:+ key +:+ "'"
  | TypeError what => what
  | ValueError what => what
  end.

(** What is put on [gui_queue]: the pairs [(tag, payload)]. *)
Inductive gui_msg :=
  | MsgStatus (text : string)
  | MsgProgress (what : string)
  | MsgExtractionSuccess (name path : string)
  | MsgExtractionFailure (name path : string).

Inductive level := INFO | ERROR.

(** What the program does to its surroundings, in order. *)
Inductive action :=
  | ActMkdir (p : Path)
  | ActExec (command : list string)
  | ActRemove (p : Path)
  | ActAppend (file : Path) (text : string)
  | ActMark (hash : string)
  | ActPause (hash : string)
  | ActUnpack (hash : string) (content_path : Path)
  | ActWait (seconds : nat).

Global Instance action_eq_dec : EqDecision action.
Proof. solve_decision. Defined.

(** The hashes marked as processed, in order. *)
Definition marks (tr : list action) : list string :=
  omap (fun a => match a with ActMark h => Some h | _ => None end) tr.

(** The hashes whose content was handed to the unpacker, in order. *)
Definition dispatched (tr : list action) : list string :=
  omap (fun a => match a with ActUnpack h _ => Some h | _ => None end) tr.

(** What [Unpacker] itself does. *)
Definition unpacker_action (a : action) : Prop :=
  match a with
  | ActMkdir _ | ActExec _ | ActRemove _ | ActAppend _ _ => True
  | _ => False
  end.

(** The shape of what the monitor does: waits, and for each hash in turn
    a mark, a pause request and the hand-over to the unpacker, followed by
    what the unpacker does. *)
Inductive poller_trace : list string -> list action -> Prop :=
  | poller_trace_nil : poller_trace [] []
  | poller_trace_wait seconds hashes ext :
      poller_trace hashes ext ->
      poller_trace hashes (ActWait seconds :: ext)
  | poller_trace_dispatch hash content_path inner hashes ext :
      Forall unpacker_action inner ->
      poller_trace hashes ext ->
      poller_trace (hash :: hashes)
        (ActMark hash :: ActPause hash :: ActUnpack hash content_path
         :: inner ++ ext).

(** No wait among the actions. *)
Definition waitless (ext : list action) : Prop :=
  ∀ seconds, ActWait seconds ∉ ext.

(** How often [h] occurs in a list of hashes. *)
Definition occurrences (h : string) (hashes : list string) : nat :=
  length (filter (fun x => x = h) hashes).

Record World := {
  fs : gmap Path node;
  processed_torrents : gset string;
  gui_queue : list gui_msg;
  log : list (level * string);
  trace : list action
}.

(** How one run of the extraction tool ends. *)
Inductive tool_exit :=
  | Exit0
  | ExitNonZero (stderr : string)
  | LaunchError (e : exn).

(** The tool's outcome and the entries it wrote, relative to the directory
    given by [-o]. *)
Record tool_result := {
  tool_exit_of : tool_exit;
  tool_written : list (Path * node)
}.

(** The environment: the working directory, the tool, the entries the
    operating system refuses to create, remove or write, and
    [Path.resolve]. *)
Record Env := {
  cwd : Path;
  seven_zip : list string -> gmap Path node -> tool_result;
  refused : Path -> bool;
  resolve : Path -> Path
}.

(** *** File-system primitives *)

Module Os.

(** The node at a path; the root is a directory that always exists. *)
Definition node_at (m : gmap Path node) (p : Path) : option node :=
  match p with
  | [] => Some Dir
  | _ => m !! p
  end.

(** [p.exists()] *)
Definition exists_ (m : gmap Path node) (p : Path) : bool :=
  bool_decide (is_Some (node_at m p)).

(** [p.is_dir()] *)
Definition is_dir (m : gmap Path node) (p : Path) : bool :=
  bool_decide (node_at m p = Some Dir).

(** [p.is_file()] *)
Definition is_file (m : gmap Path node) (p : Path) : bool :=
  match node_at m p with
  | Some (File _) => true
  | _ => false
  end.

(** The names in directory [d], in the order [os.scandir] yields them
    (unspecified by the system; the model takes the map's order). *)
Definition scandir (m : gmap Path node) (d : Path) : list (string * node) :=
  omap (fun '(p, n) =>
          match List.rev p with
          | c :: _ => if decide (p = d ++ [c]) then Some (c, n) else None
          | [] => None
          end) (map_to_list m).

Definition is_dir_node (e : string * node) : bool :=
  match e.2 with Dir => true | File _ => false end.

(** [for root, _, files in os.walk(top): for file in files: Path(root) / file],
    top-down: the files of a directory, then its sub-directories in turn. *)
Fixpoint walk_files (depth : nat) (m : gmap Path node) (top : Path) : list Path :=
  match depth with
  | 0 => []
  | S depth' =>
      let entries := scandir m top in
      let dirs := List.filter is_dir_node entries in
      let nondirs := List.filter (fun e => negb (is_dir_node e)) entries in
      List.map (fun e => top ++ [e.1]) nondirs
      ++ List.flat_map (fun e => walk_files depth' m (top ++ [e.1])) dirs
  end.

(** The entries strictly below [p]. *)
Definition descendants (m : gmap Path node) (p : Path) : gset Path :=
  filter (fun k => p ≠ k ∧ p `prefix_of` k) (dom m).

(** The entries the tool wrote, placed below [output_dir]. *)
Definition write_below (output_dir : Path) (m : gmap Path node)
    (written : list (Path * node)) : gmap Path node :=
  foldl (fun m' '(rel, n) =>
           match rel with
           | [] => m'
           | _ => <[output_dir ++ rel := n]> m'
           end) m written.

(** The text of a regular file, [""] for anything else. *)
Definition content_of (m : gmap Path node) (p : Path) : string :=
  match node_at m p with
  | Some (File content) => content
  | _ => ""
  end.

End Os.

(** *** Computations: state, exceptions, and loops that may not end *)

Inductive result (A : Type) :=
  | Ok (a : A)
  | Raise (e : exn)
  | Diverge.
Arguments Ok {A} a.
Arguments Raise {A} e.
Arguments Diverge {A}.

Definition M (A : Type) : Type := World -> result A * World.

Global Instance M_ret : MRet M := fun A a w => (Ok a, w).

Global Instance M_bind : MBind M := fun A B k m w =>
  match m w with
  | (Ok a, w') => k a w'
  | (Raise e, w') => (Raise e, w')
  | (Diverge, w') => (Diverge, w')
  end.

Definition raise {A} (e : exn) : M A := fun w => (Raise e, w).

(** [try: body  except Exception as e: handler(e)] *)
Definition try_except {A} (body : M A) (handler : exn -> M A) : M A := fun w =>
  match body w with
  | (Raise e, w') => handler e w'
  | r => r
  end.

(** [try: body  finally: cleanup] *)
Definition try_finally {A} (body : M A) (cleanup : M unit) : M A := fun w =>
  match body w with
  | (Diverge, w') => (Diverge, w')
  | (r, w') =>
      match cleanup w' with
      | (Ok _, w'') => (r, w'')
      | (Raise e, w'') => (Raise e, w'')
      | (Diverge, w'') => (Diverge, w'')
      end
  end.

(** [for x in l: body(x)] *)
Fixpoint for_each {A} (l : list A) (body : A -> M unit) : M unit :=
  match l with
  | [] => mret tt
  | x :: l' => body x ;; for_each l' body
  end.

(** Every run of [m] relates the world before to the world after. *)
Definition respects (R : relation World) {A} (m : M A) : Prop :=
  ∀ w, R w (m w).2.

(** The processed set is untouched and the trace grows by actions that
    satisfy [Q] only. *)
Definition emits (Q : action -> Prop) (w w' : World) : Prop :=
  processed_torrents w' = processed_torrents w
  ∧ ∃ ext, trace w' = trace w ++ ext ∧ Forall Q ext.

(** From [w] to [w'] the monitor did [ext], marking and handing over
    [hashes] in this order. *)
Definition poller_step (hashes : list string) (ext : list action)
    (w w' : World) : Prop :=
  trace w' = trace w ++ ext
  ∧ poller_trace hashes ext
  ∧ processed_torrents w' = list_to_set hashes ∪ processed_torrents w.

Definition get_fs : M (gmap Path node) := fun w => (Ok (fs w), w).

Definition set_fs (m : gmap Path node) : World -> World := fun w =>
  {| fs := m; processed_torrents := processed_torrents w;
     gui_queue := gui_queue w; log := log w; trace := trace w |}.

Definition record_action (a : action) : World -> World := fun w =>
  {| fs := fs w; processed_torrents := processed_torrents w;
     gui_queue := gui_queue w; log := log w; trace := trace w ++ [a] |}.

(** [gui_queue.put(msg)] *)
Definition gui_put (msg : gui_msg) : M unit := fun w =>
  (Ok tt, {| fs := fs w; processed_torrents := processed_torrents w;
             gui_queue := gui_queue w ++ [msg]; log := log w; trace := trace w |}).

(** [self.logger.log(l, text)].  The one handler of the program,
    [QueueHandler], forwards each record, stamped with the time of day, to
    [gui_queue]; the model keeps the records in a list of their own. *)
Definition logger (l : level) (text : string) : M unit := fun w =>
  (Ok tt, {| fs := fs w; processed_torrents := processed_torrents w;
             gui_queue := gui_queue w; log := log w ++ [(l, text)]; trace := trace w |}).

Definition logger_info := logger INFO.
Definition logger_error := logger ERROR.

Section WithEnv.

Context (env : Env).

(** [p.mkdir()] *)
Definition mkdir (p : Path) : M unit := fun w =>
  let w := record_action (ActMkdir p) w in
  if Os.exists_ (fs w) p then (Raise (OSError EEXIST), w)
  else match Os.node_at (fs w) (Pathlib.parent p) with
       | None => (Raise (OSError ENOENT), w)
       | Some (File _) => (Raise (OSError ENOTDIR), w)
       | Some Dir =>
           if refused env p then (Raise (OSError EACCES), w)
           else (Ok tt, set_fs (<[p := Dir]> (fs w)) w)
       end.

(** [os.remove(p)] *)
Definition os_remove (p : Path) : M unit := fun w =>
  let w := record_action (ActRemove p) w in
  match Os.node_at (fs w) p with
  | None => (Raise (OSError ENOENT), w)
  | Some Dir => (Raise (OSError EISDIR), w)
  | Some (File _) =>
      if refused env p then (Raise (OSError EACCES), w)
      else (Ok tt, set_fs (delete p (fs w)) w)
  end.

(** [with open(file, 'a') as f: f.write(text)]; what can fail is [open]
    (the text can be encoded, see the conventions). *)
Definition append_text (file : Path) (text : string) : M unit := fun w =>
  let w := record_action (ActAppend file text) w in
  match Os.node_at (fs w) file with
  | Some Dir => (Raise (OSError EISDIR), w)
  | Some (File content) =>
      if refused env file then (Raise (OSError EACCES), w)
      else (Ok tt, set_fs (<[file := File (content +:+ text)]> (fs w)) w)
  | None =>
      match Os.node_at (fs w) (Pathlib.parent file) with
      | None => (Raise (OSError ENOENT), w)
      | Some (File _) => (Raise (OSError ENOTDIR), w)
      | Some Dir =>
          if refused env file then (Raise (OSError EACCES), w)
          else (Ok tt, set_fs (<[file := File text]> (fs w)) w)
      end
  end.

(** [subprocess.run(command, check=True, ...)]: the tool writes below
    [output_dir] only; a run that could not be launched writes nothing. *)
Definition subprocess_run (command : list string) (output_dir : Path) : M unit := fun w =>
  let w := record_action (ActExec command) w in
  let r := seven_zip env command (fs w) in
  match tool_exit_of r with
  | LaunchError e => (Raise e, w)
  | ExitNonZero stderr =>
      (Raise (CalledProcessError stderr),
       set_fs (Os.write_below output_dir (fs w) (tool_written r)) w)
  | Exit0 => (Ok tt, set_fs (Os.write_below output_dir (fs w) (tool_written r)) w)
  end.

(** [open(file, 'a')] would succeed. *)
Definition appendable (m : gmap Path node) (file : Path) : bool :=
  match Os.node_at m file with
  | Some Dir => false
  | Some (File _) => negb (refused env file)
  | None => Os.is_dir m (Pathlib.parent file) && negb (refused env file)
  end.

(** [p.mkdir()] would succeed on a path that does not exist yet. *)
Definition mkdir_ok (m : gmap Path node) (p : Path) : bool :=
  Os.is_dir m (Pathlib.parent p) && negb (refused env p).

(** The file system once the tool has run. *)
Definition fs_after_tool (command : list string) (output_dir : Path)
    (m : gmap Path node) : gmap Path node :=
  match tool_exit_of (seven_zip env command m) with
  | LaunchError _ => m
  | _ => Os.write_below output_dir m (tool_written (seven_zip env command m))
  end.

(** ** [class Unpacker] *)

Definition EXTRACTION_LOG_FILE : Path := cwd env ++ ["extractions.log"].

Record Unpacker := {
  seven_zip_path : string;
  delete_on_success : bool;
  create_subfolder : bool
}.

(** [Unpacker._log_extraction_event] *)
Definition _log_extraction_event (status name path : string) : M unit :=
  append_text EXTRACTION_LOG_FILE
    (status +:+ ":" +:+ name +:+ ":" +:+ path +:+ String Py.LF "") ;;
  if decide (status = "SUCCESS") then gui_put (MsgExtractionSuccess name path)
  else if decide (status = "FAILURE") then gui_put (MsgExtractionFailure name path)
  else mret tt.

(** [f"{base_name} ({counter})"] *)
Definition numbered (base_name : string) (counter : nat) : string :=
  base_name +:+ " (" +:+ Py.str_nat counter +:+ ")".

(** [while output_dir.exists(): output_dir = parent / f"{base_name} ({counter})";
    counter += 1], run for at most [fuel] rounds. *)
Fixpoint find_free_dir (fuel : nat) (m : gmap Path node) (parent : Path)
    (base_name : string) (output_dir : Path) (counter : nat) : option Path :=
  if Os.exists_ m output_dir then
    match fuel with
    | 0 => None
    | S fuel' =>
        find_free_dir fuel' m parent base_name
          (Pathlib.joinpath parent (numbered base_name counter)) (counter + 1)
    end
  else Some output_dir.

(** The [j]-th name the loop tries: the plain name, then the name with
    [" (1)"], [" (2)"], ... *)
Definition candidate (parent : Path) (base_name : string) (j : nat) : Path :=
  Pathlib.joinpath parent
    match j with
    | 0 => base_name
    | S _ => numbered base_name j
    end.

(** The loop on the current file system; it ends within [size fs] rounds
    (see [find_free_dir_total]). *)
Definition unique_output_dir (parent : Path) (base_name : string) : M Path := fun w =>
  match find_free_dir (size (fs w)) (fs w) parent base_name
          (Pathlib.joinpath parent base_name) 1 with
  | Some output_dir => (Ok output_dir, w)
  | None => (Diverge, w)
  end.

(** The destination and the name to record (lines 92-107). *)
Definition choose_destination (self : Unpacker) (archive_path : Path)
    (base_name : string) : M (Path * string) :=
  if create_subfolder self then
    output_dir ← unique_output_dir (Pathlib.parent archive_path) base_name;
    let extraction_name := Pathlib.name output_dir in
    mkdir output_dir ;;
    logger_info ("Created extraction directory: '" +:+ Pathlib.str output_dir +:+ "'") ;;
    mret (output_dir, extraction_name)
  else
    let output_dir := Pathlib.parent archive_path in
    let extraction_name := base_name in
    logger_info ("Extracting archive to root folder: '" +:+ Pathlib.str output_dir +:+ "'") ;;
    mret (output_dir, extraction_name).

(** [for part in all_parts: try: os.remove(part) ... except OSError ...] *)
Definition delete_parts (all_parts : list Path) : M unit :=
  for_each all_parts (fun part =>
    try_except
      (os_remove part ;;
       logger_info ("Deleted '" +:+ Pathlib.name part +:+ "'"))
      (fun e =>
         match e with
         | OSError _ =>
             logger_error ("Failed to delete '" +:+ Pathlib.name part +:+ "': " +:+ exn_str e)
         | _ => raise e
         end)).

(** The body of the [try] (lines 111-132). *)
Definition extraction_body (self : Unpacker) (archive_path : Path)
    (all_parts : list Path) (command : list string) (output_dir : Path)
    (extraction_name : string) : M unit :=
  gui_put (MsgStatus ("Extracting: " +:+ Pathlib.name archive_path)) ;;
  gui_put (MsgProgress "start") ;;
  logger_info ("Extracting '" +:+ Pathlib.name archive_path +:+ "'...") ;;
  subprocess_run command output_dir ;;
  logger_info ("Successfully extracted '" +:+ Pathlib.name archive_path
               +:+ "' to '" +:+ Pathlib.str output_dir +:+ "'") ;;
  _log_extraction_event "SUCCESS" extraction_name (Pathlib.str output_dir) ;;
  if delete_on_success self then
    logger_info ("Deleting " +:+ Py.str_nat (length all_parts) +:+ " archive part(s)...") ;;
    delete_parts all_parts
  else mret tt.

(** The two [except] clauses (lines 133-140). *)
Definition extraction_handler (archive_path output_dir : Path)
    (extraction_name : string) (e : exn) : M unit :=
  match e with
  | CalledProcessError stderr =>
      logger_error ("Failed to extract '" +:+ Pathlib.name archive_path +:+ "'.") ;;
      (if Pathlib.nonempty stderr
       then logger_error ("7-Zip Output:" +:+ String Py.LF stderr)
       else mret tt) ;;
      _log_extraction_event "FAILURE" extraction_name (Pathlib.str output_dir)
  | _ =>
      logger_error ("An unexpected error occurred during extraction: " +:+ exn_str e) ;;
      _log_extraction_event "FAILURE" extraction_name (Pathlib.str output_dir)
  end.

(** [command] (line 109). *)
Definition command_line (self : Unpacker) (archive_path output_dir : Path)
    : list string :=
  [seven_zip_path self; "x"; Pathlib.str archive_path;
   "-o" +:+ Pathlib.str output_dir; "-y"].

(** The [try ... except ... finally] (lines 109-143). *)
Definition attempt_extraction (self : Unpacker) (archive_path : Path)
    (all_parts : list Path) (output_dir : Path) (extraction_name : string)
    : M unit :=
  let command := command_line self archive_path output_dir in
  try_finally
    (try_except
       (extraction_body self archive_path all_parts command output_dir extraction_name)
       (extraction_handler archive_path output_dir extraction_name))
    (gui_put (MsgProgress "stop") ;;
     gui_put (MsgStatus "Monitoring...")).

(** The world in which the tool is started. *)
Definition at_launch (archive_path : Path) (w : World) : World :=
  (logger_info ("Extracting '" +:+ Pathlib.name archive_path +:+ "'...")
     (gui_put (MsgProgress "start")
        (gui_put (MsgStatus ("Extracting: " +:+ Pathlib.name archive_path)) w).2).2).2.

(** [Unpacker.extract_archive] *)
Definition extract_archive (self : Unpacker) (archive_path : Path)
    (all_parts : list Path) (torrent_name : string) : M unit :=
  let base_name := torrent_name in
  '(output_dir, extraction_name) ← choose_destination self archive_path base_name;
  attempt_extraction self archive_path all_parts output_dir extraction_name.

(** The files that enter [all_archives] (lines 49-58). *)
Definition find_archives (path : Path) : M (list Path) :=
  m ← get_fs;
  if Os.is_file m path then
    mret (if Grouper.is_candidate path then [path] else [])
  else if Os.is_dir m path then
    mret (List.filter Grouper.is_candidate (Os.walk_files (S (size m)) m path))
  else mret [].

(** [Unpacker.unpack_archives] *)
Definition unpack_archives (self : Unpacker) (path : Path) : M unit :=
  all_archives ← find_archives path;
  match all_archives with
  | [] => logger_info ("No supported archives found in '" +:+ Pathlib.str path +:+ "'.")
  | _ =>
      for_each (Grouper.archive_sets all_archives) (fun '(base_name, file_list) =>
        match Grouper.primary_file file_list with
        | None => raise IndexError
        | Some primary_file =>
            logger_info ("Found archive set '" +:+ base_name +:+ "' with "
                         +:+ Py.str_nat (length file_list) +:+ " parts. Starting with '"
                         +:+ Pathlib.name primary_file +:+ "'.") ;;
            extract_archive self primary_file file_list (Pathlib.name path)
        end)
  end.

End WithEnv.

(** ** The history file, read back ([MainApp._load_extraction_history]) *)

Module History.

(** Reading in text mode: [\r\n] and [\r] arrive as [\n]. *)
Fixpoint universal_newlines (s : string) : string :=
  match s with
  | EmptyString => EmptyString
  | String c r =>
      if Py.eqb_char c Py.CR then
        String Py.LF
          match r with
          | String c' r' =>
              if Py.eqb_char c' Py.LF then universal_newlines r'
              else universal_newlines r
          | EmptyString => EmptyString
          end
      else String c (universal_newlines r)
  end.

(** [for line in f], each line without its terminator (which [strip]
    removes anyway). *)
Fixpoint readlines (s : string) : list string :=
  match s with
  | EmptyString => []
  | String c r =>
      if Py.eqb_char c Py.LF then EmptyString :: readlines r
      else match readlines r with
           | [] => [String c EmptyString]
           | l :: ls => String c l :: ls
           end
  end.

Abbreviation record := (string * string * string)%type.

(** The loop body: [None] is a line passed over by [continue]. *)
Definition parse_line (line : string) : option record :=
  let line := Py.strip line in
  if Pathlib.nonempty line then
    match Py.split ":"%char 2 line with
    | [status; name; path] => Some (status, name, path)
    | _ => None
    end
  else None.

Definition load (content : string) : list record :=
  omap parse_line (readlines (universal_newlines content)).

(** The line [_log_extraction_event] writes for a record. *)
Definition line_of (r : record) : string :=
  let '(status, name, path) := r in
  status +:+ ":" +:+ name +:+ ":" +:+ path +:+ String Py.LF "".

(** A record the file format carries faithfully: a status the program
    writes, no colon in the name, no line break in the name or the path,
    no white space at the end of the path. *)
Definition storable (r : record) : bool :=
  let '(status, name, path) := r in
  (bool_decide (status = "SUCCESS") || bool_decide (status = "FAILURE"))
  && Py.lacks ":" name && Py.lacks Py.LF name && Py.lacks Py.CR name
  && Py.lacks Py.LF path && Py.lacks Py.CR path
  && bool_decide (Py.rstrip path = path).

End History.

Section Monitor.

Context (env : Env).

(** [self.extraction_history] after [_load_extraction_history]. *)
Definition _load_extraction_history : M (list History.record) := fun w =>
  if Os.exists_ (fs w) (EXTRACTION_LOG_FILE env) then
    match Os.node_at (fs w) (EXTRACTION_LOG_FILE env) with
    | Some (File content) => (Ok (History.load content), w)
    | _ => (Raise (OSError EISDIR), w)
    end
  else (Ok [], w).

(** ** [class UnpackMonitorThread] *)

(** One entry of [qbt_client.torrents()]. *)
Record Torrent := {
  torrent_hash : string;
  torrent_name : string;
  torrent_content_path : Path;
  torrent_progress : Qcanon.Qc
}.

(** What the monitor reads from [config]. *)
Record Config := {
  monitor_path : Path;
  config_seven_zip_path : string;
  config_delete_on_success : bool;
  config_create_subfolder : bool
}.

(** What the surroundings answer during one turn of the loop. *)
Record Tick := {
  stop_is_set : bool;
  torrents_reply : exn + list Torrent;
  pause_reply : string -> option exn
}.

Inductive loop_state := Polling | Stopped.

Definition qbt_torrents (tick : Tick) : M (list Torrent) :=
  match torrents_reply tick with
  | inl e => raise e
  | inr l => mret l
  end.

Definition qbt_torrents_pause (tick : Tick) (hash : string) : M unit := fun w =>
  let w := record_action (ActPause hash) w in
  match pause_reply tick hash with
  | Some e => (Raise e, w)
  | None => (Ok tt, w)
  end.

(** [self.processed_torrents.add(hash)] *)
Definition mark_processed (hash : string) : M unit := fun w =>
  (Ok tt, {| fs := fs w; processed_torrents := {[hash]} ∪ processed_torrents w;
             gui_queue := gui_queue w; log := log w;
             trace := trace w ++ [ActMark hash] |}).

Definition get_processed : M (gset string) := fun w => (Ok (processed_torrents w), w).

(** [_stop_event.wait(seconds)] *)
Definition stop_event_wait (seconds : nat) : M unit := fun w =>
  (Ok tt, record_action (ActWait seconds) w).

(** [str(content_path.resolve()).startswith(str(monitor_path.resolve()))] *)
Definition in_monitored_path (cfg : Config) (content_path : Path) : bool :=
  String.prefix (Pathlib.str (resolve env (monitor_path cfg)))
                (Pathlib.str (resolve env content_path)).

(** Containment of paths, as the comment in the loop asks for it:
    [root] is [p] or one of its ancestors. *)
Definition is_within (root p : Path) : bool :=
  bool_decide (root `prefix_of` p).

(** The test a torrent must pass to enter [torrents_to_process]. *)
Definition selected (cfg : Config) (processed : gset string) (torrent : Torrent) : bool :=
  if bool_decide (torrent_progress torrent = 1%Qc)
     && bool_decide (torrent_hash torrent ∉ processed)
  then in_monitored_path cfg (torrent_content_path torrent)
  else false.

(** In every turn whose list arrives, the list has a completed torrent
    with hash [h] inside the monitored path, and no second entry with that
    hash. *)
Definition listed_every_tick (cfg : Config) (h : string) (ticks : list Tick) : Prop :=
  ∀ tick all, tick ∈ ticks → torrents_reply tick = inr all →
    occurrences h (torrent_hash <$> all) ≤ 1
    ∧ ∃ t, t ∈ all ∧ torrent_hash t = h ∧ torrent_progress t = 1%Qc
           ∧ in_monitored_path cfg (torrent_content_path t) = true.

(** The call [unpacker.unpack_archives(content_path)] made while the loop
    variable is [torrent]. *)
Definition dispatch (self : Unpacker) (torrent : Torrent) : M unit := fun w =>
  unpack_archives env self (torrent_content_path torrent)
    (record_action
       (ActUnpack (torrent_hash torrent) (torrent_content_path torrent)) w).

(** The body of [for i, torrent in enumerate(torrents_to_process)]. *)
Definition process_torrent (self : Unpacker) (tick : Tick) (total : nat)
    (it : nat * Torrent) : M unit :=
  let '(i, torrent) := it in
  gui_put (MsgStatus ("Processing (" +:+ Py.str_nat (i + 1) +:+ "/"
                      +:+ Py.str_nat total +:+ "): " +:+ torrent_name torrent)) ;;
  mark_processed (torrent_hash torrent) ;;
  try_except
    (qbt_torrents_pause tick (torrent_hash torrent) ;;
     logger_info ("Paused torrent: " +:+ torrent_name torrent))
    (fun e => logger_error ("Failed to pause torrent '" +:+ torrent_name torrent
                            +:+ "': " +:+ exn_str e +:+ ". Proceeding anyway.")) ;;
  dispatch self torrent.

(** The body of the [try] in the loop (lines 205-230). *)
Definition poll_tick (self : Unpacker) (cfg : Config) (tick : Tick) : M unit :=
  all ← qbt_torrents tick;
  processed ← get_processed;
  let torrents_to_process := List.filter (selected cfg processed) all in
  match torrents_to_process with
  | [] => mret tt
  | _ =>
      let total := length torrents_to_process in
      logger_info ("Found " +:+ Py.str_nat total +:+ " new completed torrent(s).") ;;
      for_each (List.combine (seq 0 total) torrents_to_process)
               (process_torrent self tick total) ;;
      gui_put (MsgStatus "Monitoring...")
  end.

(** The world after the [except] clause of the loop has run (lines
    233-236). *)
Definition after_backoff (e : exn) (w : World) : World :=
  (stop_event_wait 60
     (gui_put (MsgStatus "Error during polling. Retrying...")
        (logger_error ("An error occurred during polling: " +:+ exn_str e) w).2).2).2.

(** The world after the wait that ends a turn without exception (line
    241). *)
Definition after_normal_wait (w : World) : World := (stop_event_wait 15 w).2.

(** [while not self._stop_event.is_set(): ...] over the turns observed;
    [Polling] when the observation ends with the loop still running. *)
Fixpoint monitor_loop (self : Unpacker) (cfg : Config) (ticks : list Tick) : M loop_state :=
  match ticks with
  | [] => mret Polling
  | tick :: later =>
      if stop_is_set tick then mret Stopped
      else
        raised ← try_except (poll_tick self cfg tick ;; mret None)
                            (fun e => mret (Some e));
        match raised with
        | Some e =>
            logger_error ("An error occurred during polling: " +:+ exn_str e) ;;
            gui_put (MsgStatus "Error during polling. Retrying...") ;;
            stop_event_wait 60 ;;
            monitor_loop self cfg later
        | None =>
            stop_event_wait 15 ;;
            monitor_loop self cfg later
        end
  end.

(** What ends [run] before its loop, if anything does: an exception of
    [self.config["qBittorrent"]] or of [Client(qbt_url)] (lines 178-180,
    outside every [try]), an exception of [login] (line 183, inside the
    first [try]), or an exception while the settings are read from
    [config] and [Path(monitor_path_str)] is built (lines 191-196, outside
    every [try] again). *)
Inductive startup_failure :=
  | ClientFailed (e : exn)
  | LoginFailed (e : exn)
  | SettingsFailed (e : exn).

(** [UnpackMonitorThread.run]; [cfg] is what lines 191-196 read when they
    raise nothing. *)
Definition run (cfg : Config) (startup : option startup_failure)
    (ticks : list Tick) : M loop_state :=
  match startup with
  | Some (ClientFailed e) => raise e
  | Some (LoginFailed e) =>
      logger_error ("Could not connect to qBittorrent: " +:+ exn_str e) ;;
      gui_put (MsgStatus "Error: Connection Failed") ;;
      mret Stopped
  | Some (SettingsFailed e) =>
      logger_info "Successfully connected to qBittorrent." ;;
      gui_put (MsgStatus "Monitoring...") ;;
      raise e
  | None =>
      logger_info "Successfully connected to qBittorrent." ;;
      gui_put (MsgStatus "Monitoring...") ;;
      let unpacker := {| seven_zip_path := config_seven_zip_path cfg;
                         delete_on_success := config_delete_on_success cfg;
                         create_subfolder := config_create_subfolder cfg |} in
      logger_info ("Starting real-time monitoring of: " +:+ Pathlib.str (monitor_path cfg)) ;;
      logger_info "Polling qBittorrent for completed torrents every 15 seconds..." ;;
      st ← monitor_loop unpacker cfg ticks;
      match st with
      | Stopped => logger_info "Monitoring stopped." ;; mret Stopped
      | Polling => mret Polling
      end
  end.

End Monitor.

(** ** Concrete scenarios *)

Module Demo.

(** An environment whose tool always ends the same way and writes
    nothing; nothing is refused, paths resolve to themselves, and the
    program runs in [/app]. *)
Definition env_with (exit : tool_exit) (refusing : Path -> bool) : Env :=
  {| cwd := ["app"];
     seven_zip := fun _ _ => {| tool_exit_of := exit; tool_written := [] |};
     refused := refusing;
     resolve := fun p => p |}.

Definition env_ok : Env := env_with Exit0 (fun _ => false).
Definition env_failing : Env := env_with (ExitNonZero "") (fun _ => false).

Definition world_of (m : gmap Path node) : World :=
  {| fs := m; processed_torrents := ∅; gui_queue := []; log := []; trace := [] |}.

(** [/downloads/T/a.rar], a download that is a folder. *)
Definition fs_folder : gmap Path node :=
  list_to_map [(["app"], Dir); (["downloads"], Dir); (["downloads"; "T"], Dir);
               (["downloads"; "T"; "a.rar"], File "")].

(** The same with [/downloads/T/T] already there. *)
Definition fs_folder_taken : gmap Path node :=
  <[["downloads"; "T"; "T"] := Dir]> fs_folder.

(** [/downloads/x.rar], a download that is a single file. *)
Definition fs_single : gmap Path node :=
  list_to_map [(["app"], Dir); (["downloads"], Dir);
               (["downloads"; "x.rar"], File "")].

(** [/downloads/Series: S01/a.rar], a folder whose name has a colon. *)
Definition fs_colon : gmap Path node :=
  list_to_map [(["app"], Dir); (["downloads"], Dir);
               (["downloads"; "Series: S01"], Dir);
               (["downloads"; "Series: S01"; "a.rar"], File "")].

(** [/downloads/A/a.rar], [/downloads/B/b.rar] and [/downloads/X/x.rar]. *)
Definition fs_three : gmap Path node :=
  list_to_map [(["app"], Dir); (["downloads"], Dir);
               (["downloads"; "A"], Dir); (["downloads"; "A"; "a.rar"], File "");
               (["downloads"; "B"], Dir); (["downloads"; "B"; "b.rar"], File "");
               (["downloads"; "X"], Dir); (["downloads"; "X"; "x.rar"], File "")].

(** The system refuses to create [/downloads/A/A] and [/downloads/B/B]. *)
Definition env_refusing : Env :=
  env_with Exit0
    (fun p => bool_decide (p = ["downloads"; "A"; "A"])
              || bool_decide (p = ["downloads"; "B"; "B"])).

Definition unpacker_subfolder : Unpacker :=
  {| seven_zip_path := "7z"; delete_on_success := true; create_subfolder := true |}.

Definition unpacker_flat : Unpacker :=
  {| seven_zip_path := "7z"; delete_on_success := true; create_subfolder := false |}.

End Demo.

Module DemoMonitor.

Definition config : Config :=
  {| monitor_path := ["downloads"]; config_seven_zip_path := "7z";
     config_delete_on_success := false; config_create_subfolder := true |}.

Definition unpacker : Unpacker :=
  {| seven_zip_path := "7z"; delete_on_success := false; create_subfolder := true |}.

(** A completed torrent stored in [/<root>/<name>]. *)
Definition completed (root name : string) : Torrent :=
  {| torrent_hash := name; torrent_name := name;
     torrent_content_path := [root; name]; torrent_progress := 1%Qc |}.

(** A turn in which the service lists the given torrents and pauses
    whatever it is asked to. *)
Definition tick_listing (l : list Torrent) : Tick :=
  {| stop_is_set := false; torrents_reply := inr l; pause_reply := fun _ => None |}.

End DemoMonitor.

(** ** More of the program

    What [os.walk] reaches, [shutil.rmtree], and the history kept by
    [class MainApp]. *)

(** The entries between [top] and [top ++ rel], both excluded, are
    directories: this is when [os.walk(top)] reaches [top ++ rel]. *)
Definition dirs_between (m : gmap Path node) (top rel : Path) : Prop :=
  ∀ k, 0 < k < length rel → m !! (top ++ take k rel) = Some Dir.

(** [os.remove(p)] would succeed. *)
Definition removable (env : Env) (m : gmap Path node) (p : Path) : bool :=
  Os.is_file m p && negb (refused env p).

(** The commands run, in order. *)
Definition execs (tr : list action) : list (list string) :=
  omap (fun a => match a with ActExec command => Some command | _ => None end) tr.

(** No entry of the file system has disappeared. *)
Definition keeps (w w' : World) : Prop :=
  ∀ p, is_Some (fs w !! p) → is_Some (fs w' !! p).

(** *** Paths given as text

    [Path(s)] in the POSIX flavour: [pathlib] drops the empty components
    and the components [.], and keeps [..] as it finds it.  What the
    system makes of such a path when it is used is [reach], below. *)

Module PathText.

(** [s.split('/')] *)
Fixpoint split_slash (s : string) : list string :=
  match s with
  | EmptyString => [EmptyString]
  | String c r =>
      if Py.eqb_char c "/"%char then EmptyString :: split_slash r
      else match split_slash r with
           | [] => [String c EmptyString]
           | h :: t => String c h :: t
           end
  end.

(** The components [pathlib] keeps: not the empty ones, not [.]. *)
Definition kept (c : string) : bool :=
  negb (bool_decide (c = "")) && negb (bool_decide (c = ".")).

(** [PurePosixPath(s).parts], without the root. *)
Definition parts (s : string) : list string := List.filter kept (split_slash s).

(** [PurePosixPath(s).root]: [//] when [s] starts with exactly two
    slashes, [/] when it starts with one or more than two, else ['']. *)
Definition root (s : string) : string :=
  match s with
  | String "/" (String "/" (String "/" _)) => "/"
  | String "/" (String "/" _) => "//"
  | String "/" _ => "/"
  | _ => ""
  end.

(** [str(Path(s))] *)
Definition text (s : string) : string :=
  match root s, parts s with
  | EmptyString, [] => "."
  | r, ps => r +:+ String.concat "/" ps
  end.

(** Where the system starts with [Path(s)]: at the root, or at the
    working directory when the path is relative. *)
Definition start (cwd : Path) (s : string) : Path :=
  match root s with
  | EmptyString => cwd
  | _ => []
  end.

(** The entry [Path(s)] names when it has no component [..]: its
    components, after those of the working directory when the path is
    relative. *)
Definition entry (cwd : Path) (s : string) : Path :=
  match root s with
  | EmptyString => cwd ++ parts s
  | _ => parts s
  end.

(** A component that a path text carries as it is. *)
Definition plain (c : string) : bool := kept c && Py.lacks "/" c.

Definition NUL : ascii := "000"%char.

(** A name that an entry of a directory can have: not empty, not [.] or
    [..], without slash and without null character. *)
Definition proper_name (c : string) : bool :=
  plain c && negb (bool_decide (c = "..")) && Py.lacks NUL c.

(** A path text that names an entry below where it starts, by names alone:
    no null character, at least one component, no component [..]. *)
Definition ordinary (s : string) : bool :=
  Py.lacks NUL s && negb (bool_decide (parts s = []))
  && negb (bool_decide (".." ∈ parts s)).

End PathText.

(** *** The window: what [class MainApp] keeps of the history *)

Inductive row_colour := success_color | error_color.

(** The data behind the widgets the history goes to: the list
    [extraction_history], the rows of [history_listbox] (a name and its
    background), the text of [status_label], and whether [progress_bar]
    is running. *)
Record Gui := {
  extraction_history : list History.record;
  history_listbox : list (string * row_colour);
  status_label : string;
  progress_bar : bool
}.

(** One turn of the loop of [_poll_gui_queue] (lines 688-710).  The
    records of the logger do not travel in [gui_queue] here, see
    [logger]. *)
Definition handle_message (app : Gui) (msg : gui_msg) : Gui :=
  match msg with
  | MsgStatus data =>
      {| extraction_history := extraction_history app;
         history_listbox := history_listbox app;
         status_label := data; progress_bar := progress_bar app |}
  | MsgProgress data =>
      {| extraction_history := extraction_history app;
         history_listbox := history_listbox app;
         status_label := status_label app;
         progress_bar := if decide (data = "start") then true
                         else if decide (data = "stop") then false
                         else progress_bar app |}
  | MsgExtractionSuccess name path =>
      {| extraction_history := extraction_history app ++ [("SUCCESS", name, path)];
         history_listbox := history_listbox app ++ [(name, success_color)];
         status_label := status_label app; progress_bar := progress_bar app |}
  | MsgExtractionFailure name path =>
      {| extraction_history := extraction_history app ++ [("FAILURE", name, path)];
         history_listbox := history_listbox app ++ [(name, error_color)];
         status_label := status_label app; progress_bar := progress_bar app |}
  end.

(** [MainApp._poll_gui_queue]: the queue is emptied, message by message. *)
Definition _poll_gui_queue (app : Gui) (w : World) : Gui * World :=
  (foldl handle_message app (gui_queue w),
   {| fs := fs w; processed_torrents := processed_torrents w;
      gui_queue := []; log := log w; trace := trace w |}).

(** [history_listbox.delete(0, tk.END); extraction_history = []] *)
Definition cleared (app : Gui) : Gui :=
  {| extraction_history := []; history_listbox := [];
     status_label := status_label app; progress_bar := progress_bar app |}.

(** Row [i] of the list box shows the name of record [i]. *)
Definition mirrors (app : Gui) : Prop :=
  (history_listbox app).*1 = (fun r : History.record => r.1.2) <$> extraction_history app.

(** The entries at or below [p] may have gone; nothing else has changed. *)
Definition shrinks_below (p : Path) (w w' : World) : Prop :=
  fs w' ⊆ fs w ∧ ∀ k, ¬ p `prefix_of` k → fs w' !! k = fs w !! k.

(** A file system as the operating system keeps it: every entry below the
    root lies in a directory, and has a name that an entry can have. *)
Definition well_formed (m : gmap Path node) : Prop :=
  map_Forall (fun k _ => Os.node_at m (Pathlib.parent k) = Some Dir
                         ∧ Forall (fun c => PathText.proper_name c = true) k) m.

Global Instance well_formed_dec (m : gmap Path node) : Decision (well_formed m).
Proof. unfold well_formed. apply _. Defined.

(** From [w] to [w'] the file system has stayed well formed. *)
Definition stays_well_formed (w w' : World) : Prop :=
  well_formed (fs w) → well_formed (fs w').

(** *** Paths as the system walks them

    The system takes the components of a path one after the other, from
    the root or from the working directory: [..] leads to the parent (the
    root is its own parent), a name leads to the entry of that name, and
    every step starts from a directory.  There are no links.  What the
    walk arrives at need not exist. *)
Fixpoint locate (m : gmap Path node) (from : Path) (components : list string)
    : errno + Path :=
  match components with
  | [] => inr from
  | c :: rest =>
      match Os.node_at m from with
      | None => inl ENOENT
      | Some (File _) => inl ENOTDIR
      | Some Dir =>
          locate m (if bool_decide (c = "..") then Pathlib.parent from
                    else from ++ [c]) rest
      end
  end.

(** Where the system arrives with the path [s], or what it raises: a
    path with a null character is turned down with a [ValueError] before
    the system sees it. *)
Definition reach (cwd : Path) (m : gmap Path node) (s : string) : exn + Path :=
  if Py.lacks PathText.NUL s then
    match locate m (PathText.start cwd s) (PathText.parts s) with
    | inl e => inl (OSError e)
    | inr p => inr p
    end
  else inl (ValueError "embedded null byte").

(** [Path(s).is_dir()] and [Path(s).exists()]: [False] when the walk fails
    with [ENOENT] or [ENOTDIR], the errors a walk can meet here, and when
    the path has a null character. *)
Definition path_is_dir (cwd : Path) (m : gmap Path node) (s : string) : bool :=
  match reach cwd m s with
  | inr p => Os.is_dir m p
  | inl _ => false
  end.

Definition path_exists (cwd : Path) (m : gmap Path node) (s : string) : bool :=
  match reach cwd m s with
  | inr p => Os.exists_ m p
  | inl _ => false
  end.

Section MainApp.

Context (env : Env).

(** [os.rmdir] of the entry [p]; the root cannot be removed. *)
Definition os_rmdir (p : Path) : M unit := fun w =>
  match p with
  | [] => (Raise (OSError EBUSY), w)
  | _ =>
      match fs w !! p with
      | None => (Raise (OSError ENOENT), w)
      | Some (File _) => (Raise (OSError ENOTDIR), w)
      | Some Dir =>
          match Os.scandir (fs w) p with
          | _ :: _ => (Raise (OSError ENOTEMPTY), w)
          | [] =>
              if refused env p then (Raise (OSError EACCES), w)
              else (Ok tt, set_fs (delete p (fs w)) w)
          end
      end
  end.

(** What [shutil.rmtree] does with a sub-directory [p] of the tree it
    removes, to a given depth: the entries of [p] as [os.scandir] lists
    them on arrival, sub-directories by recursion and the rest by
    [os.unlink], then [os.rmdir] for [p] itself; the first error ends it. *)
Fixpoint rmtree_from (depth : nat) (p : Path) : M unit :=
  match depth with
  | 0 => fun w => (Diverge, w)
  | S depth' =>
      m ← get_fs;
      match Os.node_at m p with
      | None => raise (OSError ENOENT)
      | Some (File _) => raise (OSError ENOTDIR)
      | Some Dir =>
          for_each (Os.scandir m p) (fun entry =>
            if Os.is_dir_node entry then rmtree_from depth' (p ++ [entry.1])
            else os_remove env (p ++ [entry.1])) ;;
          os_rmdir p
      end
  end.

(** What [shutil.rmtree] does inside a directory [p] that it has opened
    (its [_rmtree_safe_fd]): the entries go, sub-directories by
    [rmtree_from] and the rest by [os.unlink], each taken from the open
    directory and not from a path. *)
Definition empty_from (depth : nat) (p : Path) : M unit :=
  m ← get_fs;
  match Os.node_at m p with
  | None => raise (OSError ENOENT)
  | Some (File _) => raise (OSError ENOTDIR)
  | Some Dir =>
      for_each (Os.scandir m p) (fun entry =>
        if Os.is_dir_node entry then rmtree_from depth (p ++ [entry.1])
        else os_remove env (p ++ [entry.1]))
  end.

(** The depth covers the whole tree (see [empty_directory_ends]). *)
Definition empty_directory (p : Path) : M unit := fun w =>
  empty_from (S (size (fs w))) p w.

(** [os.rmdir(s)] for a path given as text: the system walks the path,
    and turns down the root ([EBUSY]), the path [.] ([EINVAL]) and a path
    that ends in [..] ([ENOTEMPTY]). *)
Definition rmdir_path (s : string) : M unit := fun w =>
  match reach (cwd env) (fs w) s with
  | inl e => (Raise e, w)
  | inr p =>
      if bool_decide (PathText.parts s = []) then
        (Raise (OSError (if Pathlib.nonempty (PathText.root s) then EBUSY
                         else EINVAL)), w)
      else if bool_decide (List.last (PathText.parts s) "" = "..") then
        (Raise (OSError ENOTEMPTY), w)
      else os_rmdir p w
  end.

(** [os.remove(s)] for a path given as text. *)
Definition remove_path (s : string) : M unit := fun w =>
  match reach (cwd env) (fs w) s with
  | inl e => (Raise e, w)
  | inr p => os_remove env p w
  end.

(** [shutil.rmtree(s)] for a path given as text, on a system with
    directory handles: the directory the path leads to is opened and
    emptied through its handle, then [os.rmdir(s)] takes the path once
    more. *)
Definition rmtree_path (s : string) : M unit := fun w =>
  match reach (cwd env) (fs w) s with
  | inl e => (Raise e, w)
  | inr p => (empty_directory p ;; rmdir_path s) w
  end.

(** [MainApp._clear_extraction_history], given the answer to the
    question it asks. *)
Definition _clear_extraction_history (confirmed : bool) (app : Gui) (w : World)
    : result unit * Gui * World :=
  if confirmed then
    let '(r, w') :=
      (m ← get_fs;
       (if Os.exists_ m (EXTRACTION_LOG_FILE env)
        then os_remove env (EXTRACTION_LOG_FILE env) else mret tt) ;;
       logger_info "Extraction history log cleared.") w in
    (r, cleared app, w')
  else (Ok tt, app, w).

(** The body of the loop of [_delete_all_data] (lines 585-599);
    [Path(path_str)] is kept as the text it was made from. *)
Definition delete_recorded (path_str : string) (counts : nat * nat)
    : M (nat * nat) :=
  let '(deleted_count, failed_count) := counts in
  try_except
    (let path := path_str in
     m ← get_fs;
     if path_is_dir (cwd env) m path then
       rmtree_path path ;;
       logger_info ("Deleted folder: " +:+ PathText.text path) ;;
       mret (deleted_count + 1, failed_count)
     else if path_exists (cwd env) m path then
       remove_path path ;;
       logger_info ("Deleted file: " +:+ PathText.text path) ;;
       mret (deleted_count + 1, failed_count)
     else mret (deleted_count, failed_count))
    (fun e =>
       logger_error ("Failed to delete '" +:+ path_str +:+ "': " +:+ exn_str e) ;;
       mret (deleted_count, failed_count + 1)).

(** [for _, _, path_str in history_to_delete: ...] *)
Fixpoint delete_history (history_to_delete : list History.record)
    (counts : nat * nat) : M (nat * nat) :=
  match history_to_delete with
  | [] => mret counts
  | (_, _, path_str) :: rest =>
      counts' ← delete_recorded path_str counts;
      delete_history rest counts'
  end.

Definition summary_msg (deleted_count failed_count : nat) : string :=
  "Deletion complete." +:+ String Py.LF (String Py.LF "Successfully deleted: ")
  +:+ Py.str_nat deleted_count +:+ " items." +:+ String Py.LF "Failed to delete: "
  +:+ Py.str_nat failed_count +:+ " items."
  +:+ (if bool_decide (0 < failed_count)
       then String Py.LF (String Py.LF "Check the logs for more details on failures.")
       else "").

(** [MainApp._delete_all_data], given what was typed into the dialog
    ([None] when it was closed); the result is the text of the message box
    shown at the end. *)
Definition _delete_all_data (response : option string) (app : Gui) (w : World)
    : result string * Gui * World :=
  if bool_decide (response = Some "DELETE!") then
    match (logger_info "Starting deletion of all extracted data..." ;;
           delete_history (extraction_history app) (0, 0)) w with
    | (Ok (deleted_count, failed_count), w1) =>
        let '(r, w2) :=
          (m ← get_fs;
           (if Os.exists_ m (EXTRACTION_LOG_FILE env)
            then os_remove env (EXTRACTION_LOG_FILE env) else mret tt) ;;
           logger_info "All data deletion process complete." ;;
           mret (summary_msg deleted_count failed_count)) w1 in
        (r, cleared app, w2)
    | (Raise e, w1) => (Raise e, app, w1)
    | (Diverge, w1) => (Diverge, app, w1)
    end
  else (Ok "Deletion cancelled. No files were changed.", app, w).

End MainApp.

Module DemoApp.

Definition app_of (history : list History.record) : Gui :=
  {| extraction_history := history;
     history_listbox := (fun r : History.record => (r.1.2, success_color)) <$> history;
     status_label := "Idle"; progress_bar := false |}.

(** [/downloads/T] with the archive [a.rar], the directory [/downloads/T/T]
    made by an extraction with the two files it wrote, and the history
    file with the line of that extraction. *)
Definition fs_extracted : gmap Path node :=
  list_to_map [(["app"], Dir); (["downloads"], Dir); (["downloads"; "T"], Dir);
               (["downloads"; "T"; "a.rar"], File "");
               (["downloads"; "T"; "T"], Dir);
               (["downloads"; "T"; "T"; "sub"], Dir);
               (["downloads"; "T"; "T"; "sub"; "b.txt"], File "b");
               (["downloads"; "T"; "T"; "a.txt"], File "a");
               (["app"; "extractions.log"],
                File ("SUCCESS:T:/downloads/T/T" +:+ String Py.LF ""))].

Definition history : list History.record := [("SUCCESS", "T", "/downloads/T/T")].

End DemoApp.
(** * Properties *)

#[global] Arguments Py.is_digit : simpl never.
#[global] Arguments Py.is_space : simpl never.
#[global] Arguments Py.lower_char : simpl never.
#[global] Arguments Py.eqb_char : simpl never.
#[global] Arguments Regex.ci : simpl never.
#[global] Arguments Regex.token_char : simpl never.

Ltac andb_hyps :=
  repeat match goal with
         | H : (_ && _) = true |- _ => apply andb_true_iff in H as [? ?]
         end.

Example lower_RAR : Py.lower ".RaR" = ".rar".
Proof. reflexivity. Qed.

Example split_two : Py.split ":"%char 2 "SUCCESS:n:C:\x" = ["SUCCESS"; "n"; "C:\x"].
Proof. reflexivity. Qed.

Example split_short : Py.split ":"%char 2 "a:b" = ["a"; "b"].
Proof. reflexivity. Qed.

Example strip_ex : Py.strip "  a b  " = "a b".
Proof. reflexivity. Qed.

Example str_nat_12 : Py.str_nat 12 = "12" ∧ Py.str_nat 0 = "0".
Proof. split; reflexivity. Qed.

Example suffix_ex :
  Pathlib.suffix ["d"; "movie.part1.rar"] = ".rar"
  ∧ Pathlib.stem ["d"; "movie.part1.rar"] = "movie.part1"
  ∧ Pathlib.suffix ["d"; ".hidden"] = ""
  ∧ Pathlib.suffix ["d"; "x."] = ""
  ∧ Pathlib.stem ["d"; "x."] = "x.".
Proof. repeat split; reflexivity. Qed.

Example regex_ex :
  Regex.PART_REGEX_match "movie.part1" = Some "movie"
  ∧ Regex.PART_REGEX_match "x.r00" = Some "x"
  ∧ Regex.PART_REGEX_match "a.b.001" = Some "a.b"
  ∧ Regex.PART_REGEX_match "x.rar" = None
  ∧ Regex.PART_REGEX_match ".r00" = None
  ∧ Regex.PART_REGEX_match "x.PART12" = Some "x"
  ∧ Regex.PART_REGEX_match "x.part1234" = None
  ∧ Regex.PART_REGEX_match "x.Z01" = Some "x".
Proof. repeat split; reflexivity. Qed.

Example str_ex : Pathlib.str ["downloads"; "a"] = "/downloads/a" ∧ Pathlib.str [] = "/".
Proof. split; reflexivity. Qed.

Example base_name_ex :
  Grouper.base_name ["d"; "movie.part1.rar"] = "movie"
  ∧ Grouper.base_name ["d"; "x.rar"] = "x"
  ∧ Grouper.base_name ["d"; "x.r00"] = "x"
  ∧ Grouper.base_name ["d"; "a.7z.001"] = "a.7z"
  ∧ Grouper.base_name ["d"; "a.tar.gz"] = "a.tar".
Proof. repeat split; reflexivity. Qed.

Example archive_sets_ex :
  Grouper.archive_sets [["d"; "x.r01"]; ["d"; "y.zip"]; ["d"; "x.rar"]; ["d"; "x.r00"]]
  = [("x", [["d"; "x.r01"]; ["d"; "x.rar"]; ["d"; "x.r00"]]); ("y", [["d"; "y.zip"]])].
Proof. reflexivity. Qed.

Example primary_ex :
  Grouper.primary_file [["d"; "x.r01"]; ["d"; "x.rar"]; ["d"; "x.r00"]] = Some ["d"; "x.rar"]
  ∧ Grouper.primary_file [["d"; "a.7z.002"]; ["d"; "a.7z.001"]] = Some ["d"; "a.7z.001"].
Proof. split; reflexivity. Qed.

(** ** Strings *)

Section string_facts.

Lemma str_app_cons (c : ascii) (a b : string) :
  String c a +:+ b = String c (a +:+ b).
Proof. done. Qed.

Lemma str_app_nil_l (s : string) : "" +:+ s = s.
Proof. done. Qed.

Lemma str_app_nil_r (s : string) : s +:+ "" = s.
Proof. induction s as [|c s IH]; [done|]. by rewrite str_app_cons, IH. Qed.

Lemma str_app_assoc (a b c : string) : (a +:+ b) +:+ c = a +:+ (b +:+ c).
Proof. induction a as [|x a IH]; [done|]. by rewrite !str_app_cons, IH. Qed.

Lemma str_app_snoc (a b : string) (c : ascii) :
  (a +:+ String c "") +:+ b = a +:+ String c b.
Proof. by rewrite str_app_assoc. Qed.

Lemma str_length_app (a b : string) :
  String.length (a +:+ b) = String.length a + String.length b.
Proof. induction a as [|x a IH]; [done|]. rewrite str_app_cons. cbn. by rewrite IH. Qed.

Lemma str_app_inj_r (a b c : string) : a +:+ c = b +:+ c → a = b.
Proof.
  revert b. induction a as [|x a IH]; intros [|y b] H.
  - done.
  - apply (f_equal String.length) in H.
    rewrite str_app_nil_l, str_app_cons in H. cbn in H.
    rewrite str_length_app in H. lia.
  - apply (f_equal String.length) in H.
    rewrite str_app_nil_l, str_app_cons in H. cbn in H.
    rewrite str_length_app in H. lia.
  - rewrite !str_app_cons in H. injection H as -> H. f_equal. by apply IH.
Qed.

Lemma eqb_char_true (a b : ascii) : Py.eqb_char a b = true ↔ a = b.
Proof. unfold Py.eqb_char. by rewrite bool_decide_eq_true. Qed.

Lemma eqb_char_false (a b : ascii) : Py.eqb_char a b = false ↔ a ≠ b.
Proof. unfold Py.eqb_char. by rewrite bool_decide_eq_false. Qed.

Lemma lacks_app c a b : Py.lacks c (a +:+ b) = Py.lacks c a && Py.lacks c b.
Proof.
  induction a as [|x a IH]; [done|]. rewrite str_app_cons. cbn.
  rewrite IH. by rewrite andb_assoc.
Qed.

End string_facts.

(** ** The split-volume pattern *)

Section regex_facts.

Lemma token_char_props (c : ascii) :
  Regex.token_char c = true →
  c ≠ "."%char ∧ c ≠ Py.LF
  ∧ (Py.is_digit c = true → Py.lower_char c = c)
  ∧ (Py.lower_char c = "a"%char → Py.is_digit c = false).
Proof.
  destruct c as [[] [] [] [] [] [] [] []]; vm_compute; intros H;
    try discriminate H; repeat split; try discriminate; try done.
Qed.

Lemma is_digit_token_char c : Py.is_digit c = true → Regex.token_char c = true.
Proof. unfold Regex.token_char. by intros ->. Qed.

Lemma ci_token_char l c :
  l ∈ ["p"; "a"; "r"; "t"; "s"; "z"]%char → Regex.ci l c = true →
  Regex.token_char c = true.
Proof.
  intros Hl H. unfold Regex.token_char.
  repeat (apply elem_of_cons in Hl as [->|Hl]; [rewrite H; by rewrite ?orb_true_r|]).
  by apply elem_of_nil in Hl.
Qed.

Lemma digits_1_3_chars (ds : string) :
  Regex.digits_1_3 ds = true → Py.all_chars Regex.token_char ds = true.
Proof.
  unfold Regex.digits_1_3.
  destruct ds as [|a [|b [|c [|? ?]]]]; try done; cbn; intros H;
    andb_hyps;
    repeat match goal with
           | H : Py.is_digit _ = true |- _ =>
               apply is_digit_token_char in H; rewrite H; clear H
           end; done.
Qed.

Lemma token_chars (t : string) :
  Regex.token t = true → Py.all_chars Regex.token_char t = true.
Proof.
  unfold Regex.token. intros H.
  repeat apply orb_true_iff in H as [H|H].
  - unfold Regex.alt_part in H.
    destruct t as [|p [|a [|r [|t' ds]]]]; try done.
    andb_hyps.
    cbn. rewrite (digits_1_3_chars ds) by done.
    repeat match goal with
           | H : Regex.ci _ _ = true |- _ =>
               apply ci_token_char in H; [rewrite H; clear H|set_solver]
           end; done.
  - unfold Regex.alt_rs in H.
    destruct t as [|x [|a [|b [|? ?]]]]; try done.
    andb_hyps. cbn.
    assert (Regex.token_char x = true) as ->.
    { match goal with
      | H : (_ || _) = true |- _ => apply orb_true_iff in H as [H|H];
          (eapply ci_token_char; [|exact H]; set_solver)
      end. }
    by rewrite !is_digit_token_char.
  - unfold Regex.alt_z in H.
    destruct t as [|x [|a [|b [|? ?]]]]; try done.
    andb_hyps.
    cbn. rewrite (ci_token_char "z" x) by (done || set_solver).
    by rewrite !is_digit_token_char.
  - unfold Regex.alt_digits in H.
    destruct t as [|a [|b [|c [|? ?]]]]; try done.
    andb_hyps.
    cbn. by rewrite !is_digit_token_char.
Qed.

Lemma token_length (t : string) :
  Regex.token t = true → 3 ≤ String.length t.
Proof.
  unfold Regex.token, Regex.alt_part, Regex.alt_rs, Regex.alt_z,
    Regex.alt_digits.
  intros H.
  destruct t as [|? [|? [|? ?]]]; try (cbn in H; discriminate H).
  cbn. lia.
Qed.

Lemma all_token_char_lacks (c : ascii) (t : string) :
  c = "."%char ∨ c = Py.LF →
  Py.all_chars Regex.token_char t = true → Py.lacks c t = true.
Proof.
  intros Hc. induction t as [|x t IH]; [done|]. cbn.
  intros [Hx Ht]%andb_true_iff. rewrite (IH Ht), andb_true_r.
  apply negb_true_iff, eqb_char_false.
  destruct (token_char_props x Hx) as (? & ? & _). by destruct Hc as [-> | ->].
Qed.

Lemma chomp_Some (t t' : string) :
  Regex.chomp t = Some t' → t = t' +:+ String Py.LF "".
Proof.
  revert t'. induction t as [|c t IH]; intros t' H; [done|].
  cbn in H. destruct t as [|c' t].
  - destruct (Py.eqb_char c Py.LF) eqn:E; [|done].
    apply eqb_char_true in E as ->. by injection H as <-.
  - destruct (Regex.chomp (String c' t)) as [u|] eqn:E; [|done].
    injection H as <-. by rewrite (IH u eq_refl).
Qed.

Lemma token_end_lacks_dot (t : string) :
  Regex.token_end t = true → Py.lacks "." t = true ∧ Pathlib.nonempty t = true.
Proof.
  unfold Regex.token_end. intros [H|H]%orb_true_iff.
  - split.
    + apply all_token_char_lacks; [by left|]. by apply token_chars.
    + apply token_length in H. destruct t; [cbn in H; lia|done].
  - destruct (Regex.chomp t) as [t'|] eqn:E; [|done].
    apply chomp_Some in E as ->. split.
    + rewrite lacks_app. apply andb_true_iff. split; [|done].
      apply all_token_char_lacks; [by left|]. by apply token_chars.
    + apply token_length in H. destruct t'; [cbn in H; lia|done].
Qed.

Lemma lower_length (s : string) : String.length (Py.lower s) = String.length s.
Proof. induction s as [|c s IH]; [done|]. cbn. by rewrite IH. Qed.

(** A part token never reads [rar], whatever the case. *)
Lemma token_end_not_rar (t : string) :
  Regex.token_end t = true → Py.lower t ≠ "rar".
Proof.
  intros H Hl.
  assert (String.length t = 3) as Hlen by (by rewrite <-lower_length, Hl).
  unfold Regex.token_end in H. apply orb_true_iff in H as [H|H].
  - destruct t as [|a [|b [|c [|? ?]]]]; try discriminate Hlen.
    cbn in Hl. injection Hl as Ha Hb Hc.
    pose proof (token_chars _ H) as Hall. cbn in Hall.
    apply andb_true_iff in Hall as [_ [Hb' _]%andb_true_iff].
    destruct (token_char_props b Hb') as (_ & _ & _ & Hnd). specialize (Hnd Hb).
    unfold Regex.token, Regex.alt_part, Regex.alt_rs, Regex.alt_z,
      Regex.alt_digits in H. cbn in H. rewrite Hnd in H.
    rewrite !andb_false_r in H. cbn in H. done.
  - destruct (Regex.chomp t) as [t'|] eqn:E; [|done].
    apply chomp_Some in E as ->. apply token_length in H.
    rewrite str_length_app in Hlen. cbn in Hlen. lia.
Qed.

Lemma lazy_prefix_sound (pre rest g : string) :
  Regex.lazy_prefix pre rest = Some g →
  ∃ mid t, rest = mid +:+ String "." t ∧ Regex.token_end t = true
           ∧ g = pre +:+ mid.
Proof.
  revert pre. induction rest as [|c r IH]; intros pre H.
  - cbn in H. done.
  - cbn [Regex.lazy_prefix] in H.
    destruct (Regex.tail_ok (String c r)) eqn:Et.
    + injection H as <-. cbn in Et. apply andb_true_iff in Et as [Ec Ht].
      apply eqb_char_true in Ec as ->.
      exists "", r. by rewrite str_app_nil_r.
    + destruct (Py.eqb_char c Py.LF); [done|].
      apply IH in H as (mid & t & -> & Ht & ->).
      exists (String c mid), t. by rewrite str_app_snoc.
Qed.

Lemma PART_REGEX_match_sound (s g : string) :
  Regex.PART_REGEX_match s = Some g →
  ∃ t, s = g +:+ String "." t ∧ Regex.token_end t = true
       ∧ Pathlib.nonempty g = true.
Proof.
  destruct s as [|c r]; [done|]. cbn.
  destruct (Py.eqb_char c Py.LF); [done|]. intros H.
  apply lazy_prefix_sound in H as (mid & t & -> & Ht & ->).
  exists t. done.
Qed.

Lemma rsplit_dot_lacks (s : string) :
  Py.lacks "." s = true → Pathlib.rsplit_dot s = None.
Proof.
  induction s as [|c s IH]; [done|]. cbn.
  intros [Hc Hs]%andb_true_iff. rewrite (IH Hs).
  apply negb_true_iff in Hc. by rewrite Hc.
Qed.

Lemma rsplit_dot_app (pre post : string) :
  Py.lacks "." post = true →
  Pathlib.rsplit_dot (pre +:+ String "." post) = Some (pre, post).
Proof.
  intros Hp. induction pre as [|c pre IH].
  - rewrite str_app_nil_l. cbn. by rewrite (rsplit_dot_lacks _ Hp).
  - rewrite str_app_cons. cbn. by rewrite IH.
Qed.

(** The second match of [base_name] never succeeds: a name whose suffix is
    [.rar] has no part token after its last dot. *)
Lemma rar_name_no_match (n : string) :
  Py.lower (Pathlib.suffix_of_name n) = ".rar" → Regex.PART_REGEX_match n = None.
Proof.
  intros Hs. destruct (Regex.PART_REGEX_match n) as [g|] eqn:E; [|done].
  apply PART_REGEX_match_sound in E as (t & -> & Ht & Hg).
  destruct (token_end_lacks_dot t Ht) as [Hdot Hne].
  unfold Pathlib.suffix_of_name in Hs. rewrite (rsplit_dot_app _ _ Hdot) in Hs.
  rewrite Hg, Hne in Hs. cbn in Hs. injection Hs as Hs.
  by apply token_end_not_rar in Ht.
Qed.

End regex_facts.

(** ** Grouping *)

Section grouping_facts.

Implicit Types (d : Grouper.ArchiveSets) (k b : string) (v : Path).

Lemma dict_get_append k v d b :
  Grouper.dict_get b (Grouper.dict_append k v d)
  = if decide (k = b) then Some (default [] (Grouper.dict_get b d) ++ [v])
    else Grouper.dict_get b d.
Proof.
  induction d as [|[k' vs] d IH]; cbn.
  - destruct (decide (k = b)); done.
  - destruct (decide (k' = k)) as [->|Hk]; cbn.
    + destruct (decide (k = b)); done.
    + destruct (decide (k' = b)) as [->|Hb].
      * by rewrite decide_False by done.
      * exact IH.
Qed.

Lemma dict_keys_append k v d :
  (Grouper.dict_append k v d).*1
  = if decide (k ∈ d.*1) then d.*1 else d.*1 ++ [k].
Proof.
  induction d as [|[k' vs] d IH]; cbn.
  - rewrite decide_False; [done|]. apply not_elem_of_nil.
  - destruct (decide (k' = k)) as [->|Hk]; cbn.
    + rewrite decide_True; [done|]. apply elem_of_cons. by left.
    + rewrite IH. destruct (decide (k ∈ d.*1)) as [Hin|Hin].
      * rewrite decide_True; [done|]. apply elem_of_cons. by right.
      * rewrite decide_False; [done|].
        intros [?|?]%elem_of_cons; congruence.
Qed.

Lemma dict_keys_append_NoDup k v d :
  NoDup d.*1 → NoDup (Grouper.dict_append k v d).*1.
Proof.
  intros Hd. rewrite dict_keys_append. destruct (decide (k ∈ d.*1)); [done|].
  apply NoDup_app. split_and!; [done| |apply NoDup_singleton].
  intros x Hx ->%list_elem_of_singleton. done.
Qed.

Lemma dict_get_elem k (l : list Path) d :
  NoDup d.*1 → (k, l) ∈ d ↔ Grouper.dict_get k d = Some l.
Proof.
  induction d as [|[k' vs] d IH]; cbn; intros Hd.
  - split; [by intros ?%elem_of_nil|done].
  - apply NoDup_cons in Hd as [Hk' Hd].
    destruct (decide (k' = k)) as [->|Hk].
    + split.
      * intros [[= ->]|Hin]%elem_of_cons; [done|].
        destruct Hk'. apply list_elem_of_fmap. by exists (k, l).
      * intros [= ->]. apply elem_of_cons. by left.
    + rewrite <-(IH Hd). split.
      * intros [[= ? ?]|Hin]%elem_of_cons; [congruence|done].
      * intros Hin. apply elem_of_cons. by right.
Qed.

Lemma archive_sets_foldl b (l : list Path) d :
  Grouper.dict_get b
    (foldl (fun d archive =>
              Grouper.dict_append (Grouper.base_name archive) archive d) d l)
  = match Grouper.dict_get b d with
    | Some x => Some (x ++ Grouper.files_of b l)
    | None => match Grouper.files_of b l with [] => None | fl => Some fl end
    end.
Proof.
  revert d. induction l as [|a l IH]; intros d; cbn.
  - destruct (Grouper.dict_get b d); [|done]. by rewrite app_nil_r.
  - rewrite IH, dict_get_append. unfold Grouper.files_of. cbn.
    destruct (decide (Grouper.base_name a = b)) as [Hb|Hb].
    + rewrite bool_decide_eq_true_2 by done.
      destruct (Grouper.dict_get b d); cbn; [|done].
      by rewrite <-app_assoc.
    + rewrite bool_decide_eq_false_2 by done. done.
Qed.

Lemma archive_sets_NoDup (l : list Path) : NoDup (Grouper.archive_sets l).*1.
Proof.
  unfold Grouper.archive_sets.
  assert (∀ d, NoDup d.*1 →
    NoDup (foldl (fun d archive =>
      Grouper.dict_append (Grouper.base_name archive) archive d) d l).*1) as H.
  { induction l as [|a l IH]; intros d Hd; cbn; [done|].
    apply IH. by apply dict_keys_append_NoDup. }
  apply H. constructor.
Qed.

Lemma archive_sets_get b (l : list Path) :
  Grouper.dict_get b (Grouper.archive_sets l)
  = match Grouper.files_of b l with [] => None | fl => Some fl end.
Proof. unfold Grouper.archive_sets. by rewrite archive_sets_foldl. Qed.

Lemma archive_sets_elem b (file_list all_archives : list Path) :
  (b, file_list) ∈ Grouper.archive_sets all_archives
  ↔ file_list ≠ [] ∧ file_list = Grouper.files_of b all_archives.
Proof.
  rewrite dict_get_elem by apply archive_sets_NoDup.
  rewrite archive_sets_get. destruct (Grouper.files_of b all_archives) as [|x fl].
  - split; [done|]. by intros [? ->].
  - split; [by intros [= <-]|]. by intros [_ ->].
Qed.

Lemma base_name_refines (archive : Path) :
  Grouper.base_name archive = Grouper.base_name_spec archive.
Proof.
  unfold Grouper.base_name, Grouper.base_name_spec.
  destruct (Regex.PART_REGEX_match (Pathlib.stem archive)) as [g|]; [done|].
  unfold Grouper.is_rar. case_bool_decide as Hrar.
  - rewrite (rar_name_no_match (Pathlib.name archive) Hrar).
    by case_bool_decide.
  - case_bool_decide as Hexact; [|done].
    destruct Hrar. by rewrite Hexact.
Qed.

End grouping_facts.

(** ** The order on paths and [sorted] *)

Section order_facts.

Lemma str_compare_refl (s : string) : String.compare s s = Eq.
Proof.
  pose proof (String.compare_antisym s s) as H.
  by destruct (String.compare s s).
Qed.

Lemma str_compare_lt_trans (a b c : string) :
  String.compare a b = Lt → String.compare b c = Lt → String.compare a c = Lt.
Proof.
  intros Hab Hbc.
  assert (String.le a c) as Hac.
  { trans b; unfold String.le, String.leb; [by rewrite Hab|by rewrite Hbc]. }
  unfold String.le, String.leb in Hac.
  destruct (String.compare a c) eqn:E; [|done|done].
  apply String.compare_eq_iff in E as ->.
  rewrite String.compare_antisym, Hab in Hbc. done.
Qed.

Lemma path_compare_refl (p : Path) : Pathlib.compare p p = Eq.
Proof. induction p as [|a p IH]; [done|]. cbn. by rewrite str_compare_refl. Qed.

Lemma path_compare_antisym (p q : Path) :
  Pathlib.compare q p = CompOpp (Pathlib.compare p q).
Proof.
  revert q. induction p as [|a p IH]; intros [|b q]; cbn; try done.
  rewrite (String.compare_antisym b a).
  destruct (String.compare a b); cbn; [apply IH|done|done].
Qed.

Lemma path_compare_eq (p q : Path) : Pathlib.compare p q = Eq → p = q.
Proof.
  revert q. induction p as [|a p IH]; intros [|b q]; cbn; try done.
  destruct (String.compare a b) eqn:E; try done.
  apply String.compare_eq_iff in E as ->. intros H. f_equal. by apply IH.
Qed.

Lemma path_compare_lt_trans (p q r : Path) :
  Pathlib.compare p q = Lt → Pathlib.compare q r = Lt → Pathlib.compare p r = Lt.
Proof.
  revert q r. induction p as [|a p IH]; intros [|b q] [|c r]; cbn; try done.
  destruct (String.compare a b) eqn:Eab; try done.
  - apply String.compare_eq_iff in Eab as ->.
    destruct (String.compare b c); try done. apply IH.
  - intros _. destruct (String.compare b c) eqn:Ebc; try done.
    + apply String.compare_eq_iff in Ebc as <-. by rewrite Eab.
    + by rewrite (str_compare_lt_trans a b c).
Qed.

Lemma path_ltb_irrefl (p : Path) : Pathlib.ltb p p = false.
Proof. unfold Pathlib.ltb. by rewrite path_compare_refl. Qed.

Lemma path_ltb_asym (p q : Path) : Pathlib.ltb p q = true → Pathlib.ltb q p = false.
Proof.
  unfold Pathlib.ltb. rewrite (path_compare_antisym p q).
  by destruct (Pathlib.compare p q).
Qed.

(** If [q < a] then [q < y] or [y < a]. *)
Lemma path_ltb_cotrans (q y a : Path) :
  Pathlib.ltb q a = true → Pathlib.ltb q y = false → Pathlib.ltb y a = true.
Proof.
  unfold Pathlib.ltb. intros Hqa Hqy.
  destruct (Pathlib.compare q a) eqn:Eqa; try done.
  destruct (Pathlib.compare q y) eqn:Eqy; try done.
  - apply path_compare_eq in Eqy as <-. by rewrite Eqa.
  - rewrite (path_compare_lt_trans y q a); [done| |done].
    rewrite path_compare_antisym, Eqy. done.
Qed.

Lemma path_le_iff (p q : Path) : Pathlib.le p q ↔ Pathlib.compare p q ≠ Gt.
Proof.
  unfold Pathlib.le, Pathlib.ltb. rewrite (path_compare_antisym p q).
  destruct (Pathlib.compare p q); cbn; split; done.
Qed.

Lemma sorted_cons (x : Path) (l : list Path) :
  Grouper.sorted (x :: l) = Grouper.insert_sorted x (Grouper.sorted l).
Proof. done. Qed.

Lemma insert_sorted_elem (x y : Path) (l : list Path) :
  y ∈ Grouper.insert_sorted x l ↔ y = x ∨ y ∈ l.
Proof.
  induction l as [|z l IH]; cbn.
  - rewrite list_elem_of_singleton, elem_of_nil. tauto.
  - destruct (Pathlib.ltb z x); rewrite !elem_of_cons; [rewrite IH|]; tauto.
Qed.

Lemma sorted_elem (y : Path) (l : list Path) : y ∈ Grouper.sorted l ↔ y ∈ l.
Proof.
  induction l as [|x l IH]; [done|].
  rewrite sorted_cons, insert_sorted_elem, IH, elem_of_cons. done.
Qed.

(** The head of [sorted l] is an element that none of [l] is below. *)
Lemma sorted_head_min (l : list Path) (p : Path) :
  head (Grouper.sorted l) = Some p →
  p ∈ l ∧ ∀ q, q ∈ l → Pathlib.le p q.
Proof.
  revert p. induction l as [|a l IH]; intros p; [done|].
  rewrite sorted_cons.
  destruct (Grouper.sorted l) as [|y s] eqn:Es; cbn.
  - intros [= <-]. assert (l = []) as ->.
    { destruct l as [|z l]; [done|].
      assert (z ∈ Grouper.sorted (z :: l)) as Hz by (apply sorted_elem; left).
      rewrite Es in Hz. by apply elem_of_nil in Hz. }
    split; [left|]. intros q ->%list_elem_of_singleton.
    apply path_ltb_irrefl.
  - destruct (IH y eq_refl) as [Hy Hmin].
    destruct (Pathlib.ltb y a) eqn:Eya; cbn; intros [= <-].
    + split; [by right|]. intros q [->|Hq]%elem_of_cons.
      * by apply path_ltb_asym.
      * by apply Hmin.
    + split; [left|]. intros q [->|Hq]%elem_of_cons.
      * apply path_ltb_irrefl.
      * unfold Pathlib.le. destruct (Pathlib.ltb q a) eqn:Eqa; [|done].
        rewrite (path_ltb_cotrans q y a) in Eya; [done|done|]. by apply Hmin.
Qed.

Lemma sorted_nonempty (l : list Path) : l ≠ [] → is_Some (head (Grouper.sorted l)).
Proof.
  destruct l as [|x l]; [done|]. intros _.
  assert (x ∈ Grouper.sorted (x :: l)) as Hx by (apply sorted_elem; left).
  destruct (Grouper.sorted (x :: l)); [by apply elem_of_nil in Hx|by eexists].
Qed.

End order_facts.

(** ** The history file *)

Section history_facts.

Lemma universal_newlines_app (a b : string) :
  Py.lacks Py.CR a = true →
  History.universal_newlines (a +:+ String Py.LF b)
  = a +:+ String Py.LF (History.universal_newlines b).
Proof.
  intros Ha. induction a as [|c a IH].
  - by rewrite !str_app_nil_l.
  - rewrite !str_app_cons. cbn in Ha. apply andb_true_iff in Ha as [Hc Ha].
    apply negb_true_iff in Hc. cbn. rewrite Hc. by rewrite IH.
Qed.

Lemma readlines_app (a b : string) :
  Py.lacks Py.LF a = true →
  History.readlines (a +:+ String Py.LF b) = a :: History.readlines b.
Proof.
  intros Ha. induction a as [|c a IH].
  - by rewrite !str_app_nil_l.
  - rewrite !str_app_cons. cbn in Ha. apply andb_true_iff in Ha as [Hc Ha].
    apply negb_true_iff in Hc. cbn. rewrite Hc. by rewrite IH.
Qed.

Lemma rstrip_app (a b : string) :
  Py.rstrip b = b → b ≠ "" → Py.rstrip (a +:+ b) = a +:+ b.
Proof.
  intros Hb Hne. induction a as [|c a IH]; [done|].
  rewrite str_app_cons. cbn. rewrite IH.
  destruct (a +:+ b) eqn:E; [|done].
  destruct a; [|done]. by rewrite str_app_nil_l in E.
Qed.

Lemma rstrip_colon (path : string) :
  Py.rstrip path = path → Py.rstrip (String ":" path) = String ":" path.
Proof. intros H. cbn. rewrite H. by destruct path. Qed.

Lemma partition_char_app (sep : ascii) (a b : string) :
  Py.lacks sep a = true →
  Py.partition_char sep (a +:+ String sep b) = (a, Some b).
Proof.
  intros Ha. induction a as [|c a IH].
  - rewrite str_app_nil_l. cbn. by rewrite (proj2 (eqb_char_true sep sep)).
  - rewrite str_app_cons. cbn in Ha. apply andb_true_iff in Ha as [Hc Ha].
    apply negb_true_iff in Hc. cbn. rewrite Hc. by rewrite IH.
Qed.

Lemma split_record (status name path : string) :
  Py.lacks ":" status = true → Py.lacks ":" name = true →
  Py.split ":" 2 (status +:+ ":" +:+ name +:+ ":" +:+ path)
  = [status; name; path].
Proof.
  intros Hs Hn. cbn.
  change (":" +:+ name +:+ ":" +:+ path)
    with (String ":" (name +:+ String ":" path)).
  rewrite (partition_char_app _ _ _ Hs).
  by rewrite (partition_char_app _ _ _ Hn).
Qed.

Lemma storable_parse (status name path : string) :
  History.storable (status, name, path) = true →
  History.parse_line (status +:+ ":" +:+ name +:+ ":" +:+ path)
  = Some (status, name, path).
Proof.
  unfold History.storable. intros H. andb_hyps.
  repeat match goal with
         | H : bool_decide _ = true |- _ => apply bool_decide_eq_true in H
         end.
  assert (Py.lacks ":" status = true ∧ Py.lstrip status = status
          ∧ status ≠ "") as (Hs & Hl & Hne).
  { match goal with H : (_ || _) = true |- _ =>
      apply orb_true_iff in H as [->%bool_decide_eq_true | ->%bool_decide_eq_true]
    end; done. }
  assert (Py.strip (status +:+ ":" +:+ name +:+ ":" +:+ path)
          = status +:+ ":" +:+ name +:+ ":" +:+ path) as Hstrip.
  { unfold Py.strip.
    assert (Py.lstrip (status +:+ ":" +:+ name +:+ ":" +:+ path)
            = status +:+ ":" +:+ name +:+ ":" +:+ path) as ->.
    { destruct status as [|c status]; [done|]. rewrite str_app_cons.
      cbn in Hl |- *. destruct (Py.is_space c); [|done].
      exfalso. apply (f_equal String.length) in Hl. cbn in Hl.
      assert (∀ s, String.length (Py.lstrip s) ≤ String.length s) as Hle.
      { clear. induction s as [|x s IH]; cbn; [done|].
        destruct (Py.is_space x); cbn; lia. }
      specialize (Hle status). lia. }
    assert (status +:+ ":" +:+ name +:+ ":" +:+ path
            = (status +:+ ":" +:+ name) +:+ String ":" path) as ->
      by (by rewrite !str_app_assoc).
    apply rstrip_app; [by apply rstrip_colon|done]. }
  unfold History.parse_line. rewrite Hstrip, split_record by done.
  destruct status; done.
Qed.

Lemma load_cons (r : History.record) (rest : string) :
  History.storable r = true →
  History.load (History.line_of r +:+ rest) = r :: History.load rest.
Proof.
  destruct r as [[status name] path]. intros Hr.
  pose proof (storable_parse _ _ _ Hr) as Hparse.
  unfold History.storable in Hr. andb_hyps.
  assert (Py.lacks Py.LF status = true ∧ Py.lacks Py.CR status = true)
    as [HsL HsC].
  { match goal with H : (_ || _) = true |- _ =>
      apply orb_true_iff in H as [->%bool_decide_eq_true | ->%bool_decide_eq_true]
    end; done. }
  unfold History.load, History.line_of.
  rewrite <-!str_app_assoc, (str_app_assoc _ (String Py.LF "") rest).
  rewrite str_app_cons, str_app_nil_l.
  rewrite universal_newlines_app, readlines_app.
  - cbn [omap list_omap]. rewrite !str_app_assoc, Hparse. done.
  - rewrite !lacks_app. repeat (apply andb_true_iff; split); done.
  - rewrite !lacks_app. repeat (apply andb_true_iff; split); done.
Qed.

Lemma load_lines (rs : list History.record) :
  Forall (fun r => History.storable r = true) rs →
  History.load (String.concat "" (List.map History.line_of rs)) = rs.
Proof.
  induction 1 as [|r rs Hr Hrs IH]; [done|].
  cbn [List.map]. destruct rs as [|r' rs].
  - cbn [List.map String.concat]. rewrite <-(str_app_nil_r (History.line_of r)).
    by rewrite load_cons.
  - cbn [List.map String.concat] in IH |- *.
    rewrite str_app_nil_l, load_cons by done. by rewrite IH.
Qed.

Lemma count_lstrip (c : ascii) (s : string) :
  Py.count c (Py.lstrip s) ≤ Py.count c s.
Proof.
  induction s as [|x s IH]; cbn; [done|].
  destruct (Py.is_space x); cbn; lia.
Qed.

Lemma count_rstrip (c : ascii) (s : string) :
  Py.count c (Py.rstrip s) ≤ Py.count c s.
Proof.
  induction s as [|x s IH]; cbn; [done|].
  destruct (Py.rstrip s) as [|y r] eqn:E.
  - destruct (Py.is_space x); cbn; lia.
  - cbn in IH |- *. lia.
Qed.

Lemma partition_char_count (sep : ascii) (s h t : string) :
  Py.partition_char sep s = (h, Some t) → Py.count sep s = S (Py.count sep t).
Proof.
  revert h. induction s as [|x s IH]; intros h; cbn; [done|].
  destruct (Py.eqb_char x sep).
  - by intros [= _ ->].
  - destruct (Py.partition_char sep s) as [h' [t'|]]; [|done].
    intros [= _ ->]. by rewrite (IH h').
Qed.

Lemma split_length (sep : ascii) (n : nat) (s : string) :
  length (Py.split sep n s) ≤ S (Py.count sep s).
Proof.
  revert s. induction n as [|n IH]; intros s; cbn; [lia|].
  destruct (Py.partition_char sep s) as [h [t|]] eqn:E; cbn; [|lia].
  rewrite (partition_char_count _ _ _ _ E). specialize (IH t). lia.
Qed.

(** A line with fewer than two colons is passed over. *)
Lemma parse_line_short (line : string) :
  Py.count ":" line < 2 → History.parse_line line = None.
Proof.
  intros Hc. unfold History.parse_line.
  destruct (Pathlib.nonempty (Py.strip line)); [|done].
  pose proof (split_length ":" 2 (Py.strip line)) as Hlen.
  assert (Py.count ":" (Py.strip line) < 2) as Hc'.
  { unfold Py.strip. pose proof (count_rstrip ":" (Py.lstrip line)).
    pose proof (count_lstrip ":" line). lia. }
  destruct (Py.split ":" 2 (Py.strip line)) as [|a [|b [|c [|? ?]]]];
    try done. cbn in Hlen. lia.
Qed.

Lemma load_skip (bad rest : string) :
  Py.lacks Py.LF bad = true → Py.lacks Py.CR bad = true →
  Py.count ":" bad < 2 →
  History.load (bad +:+ String Py.LF rest) = History.load rest.
Proof.
  intros HL HC Hc. unfold History.load.
  rewrite universal_newlines_app, readlines_app by done.
  cbn [omap list_omap]. by rewrite parse_line_short.
Qed.

End history_facts.

(** ** Reasoning about computations *)

Section respects_facts.

Context (R : relation World) `{!PreOrder R}.

Lemma respects_ret {A} (a : A) : respects R (mret a).
Proof. intros w. reflexivity. Qed.

Lemma respects_raise {A} (e : exn) : respects R (@raise A e).
Proof. intros w. reflexivity. Qed.

Lemma respects_bind {A B} (m : M A) (k : A → M B) :
  respects R m → (∀ a, respects R (k a)) → respects R (m ≫= k).
Proof.
  intros Hm Hk w. unfold mbind, M_bind. specialize (Hm w).
  destruct (m w) as [[a|e|] w']; cbn in *; [|done|done].
  trans w'; [done|apply Hk].
Qed.

Lemma respects_try_except {A} (body : M A) (handler : exn → M A) :
  respects R body → (∀ e, respects R (handler e)) →
  respects R (try_except body handler).
Proof.
  intros Hb Hh w. unfold try_except. specialize (Hb w).
  destruct (body w) as [[a|e|] w']; cbn in *; [done| |done].
  trans w'; [done|apply Hh].
Qed.

Lemma respects_try_finally {A} (body : M A) (cleanup : M unit) :
  respects R body → respects R cleanup →
  respects R (try_finally body cleanup).
Proof.
  intros Hb Hc w. unfold try_finally. specialize (Hb w).
  destruct (body w) as [[a|e|] w']; cbn in *; [| |done].
  - specialize (Hc w'). destruct (cleanup w') as [[[]|e|] w'']; cbn in *;
      by trans w'.
  - specialize (Hc w'). destruct (cleanup w') as [[[]|e'|] w'']; cbn in *;
      by trans w'.
Qed.

Lemma respects_for_each {A} (l : list A) (body : A → M unit) :
  (∀ x, x ∈ l → respects R (body x)) → respects R (for_each l body).
Proof.
  induction l as [|x l IH]; intros Hbody; cbn [for_each].
  - apply respects_ret.
  - apply respects_bind; [apply Hbody; left|].
    intros _. apply IH. intros y Hy. apply Hbody. by right.
Qed.

End respects_facts.

Global Instance emits_preorder (Q : action → Prop) : PreOrder (emits Q).
Proof.
  split.
  - intros w. split; [done|]. exists []. by rewrite app_nil_r.
  - intros w1 w2 w3 [Hp1 (e1 & Ht1 & Hf1)] [Hp2 (e2 & Ht2 & Hf2)]. split.
    + by rewrite Hp2.
    + exists (e1 ++ e2). rewrite Ht2, Ht1, app_assoc. split; [done|].
      by apply Forall_app.
Qed.

Lemma emits_one (Q : action → Prop) (w w' : World) (a : action) :
  processed_torrents w' = processed_torrents w →
  trace w' = trace w ++ [a] → Q a → emits Q w w'.
Proof. intros Hp Ht Ha. split; [done|]. exists [a]. by repeat constructor. Qed.

Lemma emits_same (Q : action → Prop) (w w' : World) :
  processed_torrents w' = processed_torrents w →
  trace w' = trace w → emits Q w w'.
Proof. intros Hp Ht. split; [done|]. exists []. by rewrite app_nil_r. Qed.

Lemma emits_mono (Q Q' : action → Prop) (w w' : World) :
  (∀ a, Q a → Q' a) → emits Q w w' → emits Q' w w'.
Proof.
  intros HQ [Hp (ext & Ht & Hf)]. split; [done|]. exists ext. split; [done|].
  eapply Forall_impl; eauto.
Qed.

Section emits_facts.

Context (env : Env) (Q : action → Prop).

Lemma step_gui_put msg : respects (emits Q) (gui_put msg).
Proof. intros w. by apply emits_same. Qed.

Lemma step_logger l text : respects (emits Q) (logger l text).
Proof. intros w. by apply emits_same. Qed.

Lemma step_get_fs : respects (emits Q) get_fs.
Proof. intros w. by apply emits_same. Qed.

Lemma step_mkdir p : Q (ActMkdir p) → respects (emits Q) (mkdir env p).
Proof.
  intros HQ w. unfold mkdir.
  repeat case_match; by apply (emits_one _ _ _ (ActMkdir p)).
Qed.

Lemma step_os_remove p : Q (ActRemove p) → respects (emits Q) (os_remove env p).
Proof.
  intros HQ w. unfold os_remove.
  repeat case_match; by apply (emits_one _ _ _ (ActRemove p)).
Qed.

Lemma step_append_text file text :
  Q (ActAppend file text) → respects (emits Q) (append_text env file text).
Proof.
  intros HQ w. unfold append_text.
  repeat case_match; by apply (emits_one _ _ _ (ActAppend file text)).
Qed.

Lemma step_subprocess_run command out :
  Q (ActExec command) → respects (emits Q) (subprocess_run env command out).
Proof.
  intros HQ w. unfold subprocess_run.
  repeat case_match; by apply (emits_one _ _ _ (ActExec command)).
Qed.

Lemma step_unique_output_dir parent base :
  respects (emits Q) (unique_output_dir parent base).
Proof.
  intros w. unfold unique_output_dir.
  repeat case_match; by apply emits_same.
Qed.

Ltac step_with known :=
  repeat first
    [ known
    | apply (respects_ret (emits Q))
    | apply (respects_raise (emits Q))
    | apply step_gui_put | apply step_logger | apply step_get_fs
    | apply step_mkdir | apply step_os_remove | apply step_append_text
    | apply step_subprocess_run | apply step_unique_output_dir
    | apply (respects_bind (emits Q)); [|intros ?]
    | apply (respects_try_except (emits Q)); [|intros ?]
    | apply (respects_try_finally (emits Q))
    | apply (respects_for_each (emits Q)); intros ? _
    | progress unfold logger_info, logger_error
    | case_match ].

Lemma step_log_extraction_event status name path :
  Q (ActAppend (EXTRACTION_LOG_FILE env)
       (History.line_of (status, name, path))) →
  respects (emits Q) (_log_extraction_event env status name path).
Proof. intros HQ. unfold _log_extraction_event. step_with fail; exact HQ. Qed.

Lemma step_choose_destination self archive_path base :
  (∀ p, Q (ActMkdir p)) →
  respects (emits Q) (choose_destination env self archive_path base).
Proof. intros HQ. unfold choose_destination. step_with fail; apply HQ. Qed.

Lemma step_delete_parts all_parts :
  (∀ p, Q (ActRemove p)) → respects (emits Q) (delete_parts env all_parts).
Proof. intros HQ. unfold delete_parts. step_with fail; apply HQ. Qed.

Lemma step_attempt_extraction self archive_path all_parts out nm :
  (∀ c, Q (ActExec c)) → (∀ p, Q (ActRemove p)) →
  (∀ status, status = "SUCCESS" ∨ status = "FAILURE" →
     Q (ActAppend (EXTRACTION_LOG_FILE env)
          (History.line_of (status, nm, Pathlib.str out)))) →
  respects (emits Q) (attempt_extraction env self archive_path all_parts out nm).
Proof.
  intros HE HR HA.
  unfold attempt_extraction, extraction_body, extraction_handler.
  step_with ltac:(first [apply step_log_extraction_event; apply HA; auto
                        |apply step_delete_parts; exact HR]); apply HE.
Qed.

Lemma step_extract_archive self archive_path all_parts torrent_name :
  (∀ a, unpacker_action a → Q a) →
  respects (emits Q)
    (extract_archive env self archive_path all_parts torrent_name).
Proof.
  intros HQ. unfold extract_archive.
  step_with ltac:(first [apply step_choose_destination
                        |apply step_attempt_extraction]);
    intros; by apply HQ.
Qed.

Lemma step_unpack_archives self path :
  (∀ a, unpacker_action a → Q a) →
  respects (emits Q) (unpack_archives env self path).
Proof.
  intros HQ. unfold unpack_archives, find_archives.
  step_with ltac:(apply step_extract_archive; exact HQ).
Qed.

End emits_facts.

(** ** Choosing the output directory *)

Section allocation_facts.

Context (env : Env).

Lemma str_nat_inj (i j : nat) : Py.str_nat i = Py.str_nat j → i = j.
Proof.
  unfold Py.str_nat. intros H. apply Unsigned.to_uint_inj.
  apply (f_equal NilEmpty.uint_of_string) in H.
  rewrite !NilEmpty.usu in H. by injection H.
Qed.

Lemma numbered_inj (b : string) (i j : nat) : numbered b i = numbered b j → i = j.
Proof.
  unfold numbered. intros H. apply String.app_inj in H.
  apply (String.app_inj " (") in H. apply str_app_inj_r in H.
  by apply str_nat_inj.
Qed.

Lemma numbered_ne (b : string) (j : nat) : numbered b j ≠ b.
Proof.
  unfold numbered. intros H. apply (f_equal String.length) in H.
  rewrite !str_length_app in H. cbn in H. lia.
Qed.

Lemma candidate_inj (parent : Path) (b : string) (i j : nat) :
  candidate parent b i = candidate parent b j → i = j.
Proof.
  unfold candidate, Pathlib.joinpath. intros H.
  apply app_inv_head in H. injection H as H.
  destruct i as [|i], j as [|j]; [done| | |exact (numbered_inj _ _ _ H)].
  - symmetry in H. destruct (numbered_ne _ _ H).
  - destruct (numbered_ne _ _ H).
Qed.

Lemma candidate_node (m : gmap Path node) (parent : Path) (b : string) (j : nat) :
  Os.node_at m (candidate parent b j) = m !! candidate parent b j.
Proof. unfold candidate, Pathlib.joinpath. by destruct parent. Qed.

(** The names that exist are no more than the entries of the file system. *)
Lemma existing_candidates_bound (m : gmap Path node) (parent : Path)
    (b : string) (n : nat) :
  (∀ j, j < n → Os.exists_ m (candidate parent b j) = true) → n ≤ size m.
Proof.
  intros Hex.
  set (l := candidate parent b <$> seq 0 n).
  assert (NoDup l) as Hnd.
  { apply NoDup_fmap_2; [|apply NoDup_seq]. intros i j. apply candidate_inj. }
  assert (list_to_set l ⊆ dom m) as Hsub.
  { intros p Hp. apply elem_of_list_to_set in Hp.
    apply list_elem_of_fmap in Hp as (j & -> & Hj).
    apply elem_of_seq in Hj. specialize (Hex j ltac:(lia)).
    unfold Os.exists_ in Hex. apply bool_decide_eq_true in Hex.
    rewrite candidate_node in Hex. by apply elem_of_dom. }
  apply subseteq_size in Hsub.
  rewrite size_list_to_set, size_dom in Hsub by done.
  unfold l in Hsub. by rewrite length_fmap, length_seq in Hsub.
Qed.

Lemma find_free_dir_step (fuel : nat) (m : gmap Path node) (parent : Path)
    (b : string) (i : nat) :
  find_free_dir (S fuel) m parent b (candidate parent b i) (S i)
  = if Os.exists_ m (candidate parent b i)
    then find_free_dir fuel m parent b (candidate parent b (S i)) (S (S i))
    else Some (candidate parent b i).
Proof. cbn [find_free_dir]. by rewrite Nat.add_1_r. Qed.

(** What the loop returns is the first name that does not exist. *)
Lemma find_free_dir_sound (fuel : nat) (m : gmap Path node) (parent : Path)
    (b : string) (i : nat) (out : Path) :
  find_free_dir fuel m parent b (candidate parent b i) (S i) = Some out →
  ∃ k, i ≤ k ∧ out = candidate parent b k
       ∧ Os.exists_ m out = false
       ∧ ∀ j, i ≤ j < k → Os.exists_ m (candidate parent b j) = true.
Proof.
  revert i. induction fuel as [|fuel IH]; intros i.
  - cbn. destruct (Os.exists_ m (candidate parent b i)) eqn:E; [done|].
    intros [= <-]. exists i. split_and!; [lia|done|done|lia].
  - rewrite find_free_dir_step.
    destruct (Os.exists_ m (candidate parent b i)) eqn:E.
    + intros H. apply IH in H as (k & Hk & -> & Hno & Hall).
      exists k. split_and!; [lia|done|done|].
      intros j Hj. destruct (decide (j = i)) as [->|]; [done|].
      apply Hall. lia.
    + intros [= <-]. exists i. split_and!; [lia|done|done|lia].
Qed.

(** The loop ends when the fuel covers the entries not yet ruled out. *)
Lemma find_free_dir_enough (fuel : nat) (m : gmap Path node) (parent : Path)
    (b : string) (i : nat) :
  (∀ j, j < i → Os.exists_ m (candidate parent b j) = true) →
  size m ≤ fuel + i →
  is_Some (find_free_dir fuel m parent b (candidate parent b i) (S i)).
Proof.
  revert i. induction fuel as [|fuel IH]; intros i Hbelow Hsize.
  - cbn. destruct (Os.exists_ m (candidate parent b i)) eqn:E; [|by eexists].
    assert (S i ≤ size m); [|lia].
    apply (existing_candidates_bound m parent b). intros j Hj.
    destruct (decide (j = i)) as [->|]; [done|]. apply Hbelow. lia.
  - rewrite find_free_dir_step.
    destruct (Os.exists_ m (candidate parent b i)) eqn:E; [|by eexists].
    apply IH; [|lia]. intros j Hj.
    destruct (decide (j = i)) as [->|]; [done|]. apply Hbelow. lia.
Qed.

(** The loop of [extract_archive] always ends, on the first free name. *)
Lemma unique_output_dir_spec (parent : Path) (b : string) (w : World) :
  ∃ k, unique_output_dir parent b w = (Ok (candidate parent b k), w)
       ∧ Os.exists_ (fs w) (candidate parent b k) = false
       ∧ ∀ j, j < k → Os.exists_ (fs w) (candidate parent b j) = true.
Proof.
  unfold unique_output_dir.
  destruct (find_free_dir_enough (size (fs w)) (fs w) parent b 0)
    as [out Hout]; [lia|lia|].
  change (Pathlib.joinpath parent b) with (candidate parent b 0).
  rewrite Hout. apply find_free_dir_sound in Hout as (k & _ & -> & Hno & Hall).
  exists k. split_and!; [done|done|]. intros j Hj. apply Hall. lia.
Qed.

End allocation_facts.

#[global] Arguments append_text : simpl never.
#[global] Arguments subprocess_run : simpl never.
#[global] Arguments mkdir : simpl never.
#[global] Arguments os_remove : simpl never.

(** ** One extraction *)

Section extraction_facts.

Context (env : Env).

Lemma candidate_parent (parent : Path) (b : string) (k : nat) :
  Pathlib.parent (candidate parent b k) = parent.
Proof. unfold candidate, Pathlib.parent, Pathlib.joinpath. apply removelast_last. Qed.

Lemma candidate_name (parent : Path) (b : string) (k : nat) :
  Pathlib.name (candidate parent b k)
  = match k with 0 => b | S _ => numbered b k end.
Proof. unfold candidate, Pathlib.name, Pathlib.joinpath. apply last_last. Qed.

Lemma log_file_node (m : gmap Path node) :
  Os.node_at m (EXTRACTION_LOG_FILE env) = m !! EXTRACTION_LOG_FILE env.
Proof. unfold EXTRACTION_LOG_FILE. by destruct (cwd env). Qed.

Lemma append_text_ok (file : Path) (text : string) (w : World) :
  appendable env (fs w) file = true →
  append_text env file text w
  = (Ok tt, set_fs (<[file := File (Os.content_of (fs w) file +:+ text)]> (fs w))
              (record_action (ActAppend file text) w)).
Proof.
  unfold appendable, append_text, Os.content_of. cbn.
  destruct (Os.node_at (fs w) file) as [[c|]|] eqn:E; [| done |].
  - intros ->%negb_true_iff. done.
  - intros [Hd ->%negb_true_iff]%andb_true_iff.
    unfold Os.is_dir in Hd. apply bool_decide_eq_true in Hd. by rewrite Hd.
Qed.

(** In flat mode nothing is created. *)
Lemma choose_destination_flat (self : Unpacker) (archive_path : Path)
    (b : string) (w : World) :
  create_subfolder self = false →
  ∃ w1, choose_destination env self archive_path b w
        = (Ok (Pathlib.parent archive_path, b), w1)
        ∧ fs w1 = fs w ∧ trace w1 = trace w
        ∧ processed_torrents w1 = processed_torrents w.
Proof.
  intros Hs. unfold choose_destination. rewrite Hs.
  eexists. split; [reflexivity|]. done.
Qed.

(** In subfolder mode the first free name is chosen and created. *)
Lemma choose_destination_subfolder (self : Unpacker) (archive_path : Path)
    (b : string) (w : World) :
  create_subfolder self = true →
  ∃ k w1 r,
    let parent := Pathlib.parent archive_path in
    let out := candidate parent b k in
    choose_destination env self archive_path b w = (r, w1)
    ∧ Os.exists_ (fs w) out = false
    ∧ (∀ j, j < k → Os.exists_ (fs w) (candidate parent b j) = true)
    ∧ trace w1 = trace w ++ [ActMkdir out]
    ∧ processed_torrents w1 = processed_torrents w
    ∧ if mkdir_ok env (fs w) out
      then r = Ok (out, Pathlib.name out) ∧ fs w1 = <[out := Dir]> (fs w)
      else (∃ e, r = Raise e) ∧ fs w1 = fs w.
Proof.
  intros Hs. unfold choose_destination. rewrite Hs.
  destruct (unique_output_dir_spec (Pathlib.parent archive_path) b w)
    as (k & Hu & Hno & Hall).
  exists k. unfold mbind, M_bind at 1. rewrite Hu.
  unfold mbind, M_bind, mkdir, mkdir_ok. cbn.
  rewrite Hno, candidate_parent. unfold Os.is_dir.
  destruct (Os.node_at (fs w) (Pathlib.parent archive_path)) as [[c|]|] eqn:E.
  - rewrite bool_decide_eq_false_2 by done. cbn.
    do 2 eexists. split_and!; try done. by eexists.
  - rewrite bool_decide_eq_true_2 by done. cbn.
    destruct (refused env _) eqn:Er; cbn.
    + do 2 eexists. split_and!; try done. by eexists.
    + do 2 eexists. split_and!; try done.
  - rewrite bool_decide_eq_false_2 by done. cbn.
    do 2 eexists. split_and!; try done. by eexists.
Qed.

Lemma try_bind_first {A B} (m : M A) (k : A → M B) (h : exn → M B)
    (f : M unit) (w : World) :
  try_finally (try_except (m ≫= k) h) f w
  = match m w with
    | (Ok a, w2) => try_finally (try_except (k a) h) f w2
    | (Raise e, w2) => try_finally (h e) f w2
    | (Diverge, w2) => (Diverge, w2)
    end.
Proof.
  unfold try_finally, try_except, mbind, M_bind. by destruct (m w) as [[a|e|] w2].
Qed.

Lemma attempt_extraction_unfold (self : Unpacker) (archive_path : Path)
    (all_parts : list Path) (out : Path) (nm : string) (w : World) :
  let command := command_line self archive_path out in
  attempt_extraction env self archive_path all_parts out nm w
  = match subprocess_run env command out (at_launch archive_path w) with
    | (Ok _, w2) =>
        try_finally
          (try_except
             (logger_info ("Successfully extracted '" +:+ Pathlib.name archive_path
                           +:+ "' to '" +:+ Pathlib.str out +:+ "'") ;;
              _log_extraction_event env "SUCCESS" nm (Pathlib.str out) ;;
              if delete_on_success self then
                logger_info ("Deleting " +:+ Py.str_nat (length all_parts)
                             +:+ " archive part(s)...") ;;
                delete_parts env all_parts
              else mret tt)
             (extraction_handler env archive_path out nm))
          (gui_put (MsgProgress "stop") ;; gui_put (MsgStatus "Monitoring...")) w2
    | (Raise e, w2) =>
        try_finally (extraction_handler env archive_path out nm e)
          (gui_put (MsgProgress "stop") ;; gui_put (MsgStatus "Monitoring...")) w2
    | (Diverge, w2) => (Diverge, w2)
    end.
Proof.
  cbn zeta. unfold attempt_extraction, extraction_body.
  unfold try_finally at 1, try_except at 1.
  unfold mbind at 1 2 3 4, M_bind at 1 2 3 4.
  unfold gui_put at 1 2, logger_info at 1, logger at 1.
  match goal with
  | |- context [subprocess_run env ?c out ?W] =>
      change W with (at_launch archive_path w)
  end.
  destruct (subprocess_run env _ out (at_launch archive_path w))
    as [[[]|e|] w2]; reflexivity.
Qed.

Lemma subprocess_run_spec (command : list string) (out : Path) (w : World) :
  ∃ r w2, subprocess_run env command out w = (r, w2)
    ∧ trace w2 = trace w ++ [ActExec command]
    ∧ processed_torrents w2 = processed_torrents w
    ∧ fs w2 = fs_after_tool env command out (fs w)
    ∧ match tool_exit_of (seven_zip env command (fs w)) with
      | Exit0 => r = Ok tt
      | ExitNonZero stderr => r = Raise (CalledProcessError stderr)
      | LaunchError e => r = Raise e
      end.
Proof.
  unfold subprocess_run, fs_after_tool. cbn.
  destruct (tool_exit_of _); do 2 eexists; split_and!; done.
Qed.

Lemma at_launch_same (archive_path : Path) (w : World) :
  fs (at_launch archive_path w) = fs w
  ∧ trace (at_launch archive_path w) = trace w
  ∧ processed_torrents (at_launch archive_path w) = processed_torrents w.
Proof. done. Qed.

Lemma step_extraction_handler (Q : action → Prop) (archive_path out : Path)
    (nm : string) (e : exn) :
  Q (ActAppend (EXTRACTION_LOG_FILE env)
       (History.line_of ("FAILURE", nm, Pathlib.str out))) →
  respects (emits Q) (extraction_handler env archive_path out nm e).
Proof.
  intros HQ. unfold extraction_handler, logger_error.
  destruct e; repeat first
    [ by apply step_log_extraction_event
    | apply step_logger
    | apply (respects_ret (emits Q))
    | apply (respects_bind (emits Q)); [|intros ?]
    | case_match ].
Qed.

(** Every attempt starts the tool, and does so first. *)
Lemma attempt_extraction_starts (self : Unpacker) (archive_path : Path)
    (all_parts : list Path) (out : Path) (nm : string) (w : World) :
  ∃ ext,
    trace (attempt_extraction env self archive_path all_parts out nm w).2
    = trace w ++ ActExec (command_line self archive_path out) :: ext
    ∧ Forall unpacker_action ext.
Proof.
  rewrite attempt_extraction_unfold.
  destruct (subprocess_run_spec (command_line self archive_path out) out
              (at_launch archive_path w)) as (r & w2 & Hrun & Ht & _).
  rewrite Hrun.
  assert (∀ m : M unit, respects (emits unpacker_action) m →
    ∃ ext, trace (m w2).2
           = trace w ++ ActExec (command_line self archive_path out) :: ext
           ∧ Forall unpacker_action ext) as Hgo.
  { intros m Hm. destruct (Hm w2) as [_ (ext & Hext & Hall)].
    exists ext. split; [|done]. rewrite Hext, Ht.
    by rewrite <-app_assoc. }
  destruct r as [[]|e|].
  - apply Hgo.
    apply (respects_try_finally (emits unpacker_action)).
    + apply (respects_try_except (emits unpacker_action)).
      * apply (respects_bind (emits unpacker_action)); [apply step_logger|].
        intros _. apply (respects_bind (emits unpacker_action)).
        { by apply step_log_extraction_event. }
        intros _. destruct (delete_on_success self).
        -- apply (respects_bind (emits unpacker_action)); [apply step_logger|].
           intros _. by apply step_delete_parts.
        -- apply (respects_ret (emits unpacker_action)).
      * intros e. by apply step_extraction_handler.
    + apply (respects_bind (emits unpacker_action)); [apply step_gui_put|].
      intros _. apply step_gui_put.
  - apply Hgo.
    apply (respects_try_finally (emits unpacker_action)).
    + by apply step_extraction_handler.
    + apply (respects_bind (emits unpacker_action)); [apply step_gui_put|].
      intros _. apply step_gui_put.
  - exists []. split; [|done]. cbn. by rewrite Ht.
Qed.

(** With a history file that can be written, the handler records the
    failure and ends normally. *)
Lemma extraction_handler_ok (archive_path out : Path) (nm : string) (e : exn)
    (w : World) :
  appendable env (fs w) (EXTRACTION_LOG_FILE env) = true →
  ∃ w', extraction_handler env archive_path out nm e w = (Ok tt, w')
    ∧ fs w' = <[EXTRACTION_LOG_FILE env :=
                  File (Os.content_of (fs w) (EXTRACTION_LOG_FILE env)
                        +:+ History.line_of ("FAILURE", nm, Pathlib.str out))]>
                (fs w)
    ∧ trace w' = trace w
                 ++ [ActAppend (EXTRACTION_LOG_FILE env)
                       (History.line_of ("FAILURE", nm, Pathlib.str out))]
    ∧ processed_torrents w' = processed_torrents w.
Proof.
  intros Happ.
  assert (∀ w0, fs w0 = fs w → trace w0 = trace w →
            processed_torrents w0 = processed_torrents w →
    ∃ w', _log_extraction_event env "FAILURE" nm (Pathlib.str out) w0 = (Ok tt, w')
      ∧ fs w' = <[EXTRACTION_LOG_FILE env :=
                  File (Os.content_of (fs w) (EXTRACTION_LOG_FILE env)
                        +:+ History.line_of ("FAILURE", nm, Pathlib.str out))]>
                (fs w)
      ∧ trace w' = trace w
                 ++ [ActAppend (EXTRACTION_LOG_FILE env)
                       (History.line_of ("FAILURE", nm, Pathlib.str out))]
      ∧ processed_torrents w' = processed_torrents w) as Hlog.
  { intros w0 Hfs Htr Hpr. unfold _log_extraction_event, mbind, M_bind.
    rewrite append_text_ok by (by rewrite Hfs). cbn.
    eexists. split; [reflexivity|]. cbn. rewrite Hfs, Htr, Hpr. done. }
  unfold extraction_handler.
  destruct e as [stderr| | | | | |];
    try (destruct (Pathlib.nonempty stderr));
    unfold mbind, M_bind, logger_error, logger; cbn; by apply Hlog.
Qed.

(** A failed attempt: the tool ran, the failure was recorded, nothing else. *)
Lemma attempt_extraction_failure (self : Unpacker) (archive_path : Path)
    (all_parts : list Path) (out : Path) (nm : string) (w : World) :
  let command := command_line self archive_path out in
  let after := fs_after_tool env command out (fs w) in
  let line := History.line_of ("FAILURE", nm, Pathlib.str out) in
  tool_exit_of (seven_zip env command (fs w)) ≠ Exit0 →
  appendable env after (EXTRACTION_LOG_FILE env) = true →
  ∃ w', attempt_extraction env self archive_path all_parts out nm w = (Ok tt, w')
    ∧ fs w' = <[EXTRACTION_LOG_FILE env :=
                  File (Os.content_of after (EXTRACTION_LOG_FILE env) +:+ line)]>
                after
    ∧ trace w' = trace w ++ [ActExec command; ActAppend (EXTRACTION_LOG_FILE env) line]
    ∧ processed_torrents w' = processed_torrents w.
Proof.
  cbn zeta. intros Hfail Happ. rewrite attempt_extraction_unfold.
  destruct (subprocess_run_spec (command_line self archive_path out) out
              (at_launch archive_path w)) as (r & w2 & Hrun & Ht & Hp & Hfs & Hr).
  rewrite Hrun.
  destruct (at_launch_same archive_path w) as (Hfs0 & Ht0 & Hp0).
  rewrite Hfs0 in Hfs, Hr. rewrite Ht0 in Ht. rewrite Hp0 in Hp.
  assert (∃ e, r = Raise e) as [e ->].
  { destruct (tool_exit_of _); [done|by eexists|by eexists]. }
  destruct (extraction_handler_ok archive_path out nm e w2)
    as (w3 & Hh & Hfs3 & Ht3 & Hp3); [by rewrite Hfs|].
  unfold try_finally. rewrite Hh. unfold mbind, M_bind, gui_put. cbn.
  eexists. split; [reflexivity|]. cbn.
  rewrite Hfs3, Ht3, Hp3, Hfs, Ht, Hp, <-app_assoc. done.
Qed.

End extraction_facts.

(** ** What an extraction leaves untouched *)

Section frame_facts.

Context (env : Env).

Lemma write_below_lookup (out : Path) (m : gmap Path node)
    (written : list (Path * node)) (p : Path) :
  ¬ out `prefix_of` p ∨ p = out →
  Os.write_below out m written !! p = m !! p.
Proof.
  intros Hp. unfold Os.write_below. revert m.
  induction written as [|[rel n] written IH]; intros m; cbn; [done|].
  rewrite IH. destruct rel as [|c rel]; [done|].
  apply lookup_insert_ne. intros <-. destruct Hp as [Hp|Hp].
  - apply Hp. by apply prefix_app_r.
  - apply (f_equal length) in Hp. rewrite length_app in Hp. cbn in Hp. lia.
Qed.

Lemma write_below_dom (out : Path) (m : gmap Path node)
    (written : list (Path * node)) (p : Path) :
  is_Some (m !! p) → is_Some (Os.write_below out m written !! p).
Proof.
  unfold Os.write_below. revert m.
  induction written as [|[rel n] written IH]; intros m Hm; cbn; [done|].
  apply IH. destruct rel as [|c rel]; [done|].
  rewrite lookup_insert_is_Some. destruct (decide (out ++ c :: rel = p)); auto.
Qed.

Lemma fs_after_tool_lookup (command : list string) (out : Path)
    (m : gmap Path node) (p : Path) :
  ¬ out `prefix_of` p ∨ p = out →
  fs_after_tool env command out m !! p = m !! p.
Proof.
  intros Hp. unfold fs_after_tool.
  destruct (tool_exit_of _); [|by apply write_below_lookup..|done].
  by apply write_below_lookup.
Qed.


(** What a successful choice of destination did to the world. *)
Lemma choose_destination_ok (self : Unpacker) (archive_path : Path)
    (b : string) (w w1 : World) (out : Path) (nm : string) :
  choose_destination env self archive_path b w = (Ok (out, nm), w1) →
  processed_torrents w1 = processed_torrents w
  ∧ if create_subfolder self
    then ∃ k, out = candidate (Pathlib.parent archive_path) b k
           ∧ nm = Pathlib.name out
           ∧ Os.exists_ (fs w) out = false
           ∧ (∀ j, j < k →
                Os.exists_ (fs w) (candidate (Pathlib.parent archive_path) b j) = true)
           ∧ mkdir_ok env (fs w) out = true
           ∧ fs w1 = <[out := Dir]> (fs w)
           ∧ trace w1 = trace w ++ [ActMkdir out]
    else out = Pathlib.parent archive_path ∧ nm = b
         ∧ fs w1 = fs w ∧ trace w1 = trace w.
Proof.
  intros Hc. destruct (create_subfolder self) eqn:Hs.
  - destruct (choose_destination_subfolder env self archive_path b w Hs)
      as (k & w1' & r & Hc' & Hno & Hall & Ht & Hp & Hif).
    cbn zeta in *. rewrite Hc in Hc'. injection Hc' as <- <-.
    destruct (mkdir_ok env (fs w) _) eqn:Hok.
    + destruct Hif as [[= -> ->] Hfs]. split; [done|]. exists k. done.
    + by destruct Hif as [[e [=]] _].
  - destruct (choose_destination_flat env self archive_path b w Hs)
      as (w1' & Hc' & Hfs & Ht & Hp).
    rewrite Hc in Hc'. injection Hc' as -> -> <-. done.
Qed.

Lemma extract_archive_bind (self : Unpacker) (archive_path : Path)
    (all_parts : list Path) (b : string) (w : World) :
  extract_archive env self archive_path all_parts b w
  = match choose_destination env self archive_path b w with
    | (Ok (out, nm), w1) =>
        attempt_extraction env self archive_path all_parts out nm w1
    | (Raise e, w1) => (Raise e, w1)
    | (Diverge, w1) => (Diverge, w1)
    end.
Proof.
  unfold extract_archive, mbind, M_bind.
  by destruct (choose_destination _ _ _ _ _) as [[[out nm]|e|] w1].
Qed.

Lemma candidate_nonroot (parent : Path) (b : string) (k : nat) :
  candidate parent b k ≠ [].
Proof. unfold candidate, Pathlib.joinpath. by destruct parent. Qed.

End frame_facts.

(** ** The shape of the monitor's trace *)

Section poller_trace_facts.

Lemma marks_app (a b : list action) : marks (a ++ b) = marks a ++ marks b.
Proof. unfold marks. apply omap_app. Qed.

Lemma dispatched_app (a b : list action) :
  dispatched (a ++ b) = dispatched a ++ dispatched b.
Proof. unfold dispatched. apply omap_app. Qed.

Lemma unpacker_actions_silent (inner : list action) :
  Forall unpacker_action inner → marks inner = [] ∧ dispatched inner = [].
Proof.
  induction 1 as [|a inner Ha _ [IHm IHd]]; [done|].
  destruct a; try done.
Qed.

Lemma poller_trace_app (h1 h2 : list string) (e1 e2 : list action) :
  poller_trace h1 e1 → poller_trace h2 e2 → poller_trace (h1 ++ h2) (e1 ++ e2).
Proof.
  intros H1 H2. induction H1 as [|s hs e _ IH|h p inner hs e Hin _ IH]; cbn.
  - done.
  - by constructor.
  - rewrite <-app_assoc. by constructor.
Qed.

Lemma poller_trace_marks (hs : list string) (ext : list action) :
  poller_trace hs ext → marks ext = hs ∧ dispatched ext = hs.
Proof.
  induction 1 as [|s hs e _ [IHm IHd]|h p inner hs e Hin _ [IHm IHd]]; cbn.
  - done.
  - done.
  - destruct (unpacker_actions_silent inner Hin) as [Hm Hd].
    change (marks (ActMark h :: ActPause h :: ActUnpack h p :: inner ++ e))
      with (h :: marks (inner ++ e)).
    change (dispatched (ActMark h :: ActPause h :: ActUnpack h p :: inner ++ e))
      with (h :: dispatched (inner ++ e)).
    by rewrite marks_app, dispatched_app, Hm, Hd, IHm, IHd.
Qed.

(** Every hand-over to the unpacker comes after the mark of its hash. *)
Lemma poller_trace_ordered (hs : list string) (ext : list action) :
  poller_trace hs ext →
  ∀ h p pre post, ext = pre ++ ActUnpack h p :: post → ActMark h ∈ pre.
Proof.
  induction 1 as [|s hs e _ IH|h0 p0 inner hs e Hin _ IH];
    intros h p pre post Heq.
  - by destruct pre.
  - destruct pre as [|a pre]; [done|]. injection Heq as <- Heq.
    right. by eapply IH.
  - destruct pre as [|a1 [|a2 [|a3 pre]]]; simplify_eq/=.
    + left.
    + do 3 right.
      match goal with H : _ ++ _ = _ ++ _ |- _ =>
        apply app_eq_app in H as [l [[Hinner Hpost]|[Hpre Hext]]]
      end.
      * destruct l as [|a l]; simplify_eq/=.
        -- exfalso. eapply elem_of_nil, (IH h p []). done.
        -- exfalso. apply Forall_app in Hin as [_ Hin].
           by apply Forall_cons in Hin as [? _].
      * subst pre. apply elem_of_app. right. by eapply IH.
Qed.

End poller_trace_facts.

#[global] Arguments unpack_archives : simpl never.
#[global] Arguments dispatch : simpl never.

(** ** One turn of the loop *)

Section tick_facts.

Context (env : Env) (self : Unpacker) (cfg : Config) (tick : Tick).

Lemma process_torrent_spec (total i : nat) (t : Torrent) (w : World) :
  ∃ r w' inner,
    process_torrent env self tick total (i, t) w = (r, w')
    ∧ trace w' = trace w
        ++ ActMark (torrent_hash t) :: ActPause (torrent_hash t)
           :: ActUnpack (torrent_hash t) (torrent_content_path t) :: inner
    ∧ Forall unpacker_action inner
    ∧ processed_torrents w' = {[torrent_hash t]} ∪ processed_torrents w.
Proof.
  unfold process_torrent, mbind, M_bind, gui_put, mark_processed, try_except,
    qbt_torrents_pause, logger_info, logger_error, logger. cbn.
  assert (∀ w0, trace w0 = trace w ++ [ActMark (torrent_hash t);
                                        ActPause (torrent_hash t)] →
            processed_torrents w0 = {[torrent_hash t]} ∪ processed_torrents w →
    ∃ r w' inner, dispatch env self t w0 = (r, w')
      ∧ trace w' = trace w
          ++ ActMark (torrent_hash t) :: ActPause (torrent_hash t)
             :: ActUnpack (torrent_hash t) (torrent_content_path t) :: inner
      ∧ Forall unpacker_action inner
      ∧ processed_torrents w' = {[torrent_hash t]} ∪ processed_torrents w) as Hgo.
  { intros w0 Ht Hp. unfold dispatch.
    set (w1 := record_action _ w0).
    destruct (step_unpack_archives env unpacker_action self
                (torrent_content_path t) (fun a Ha => Ha) w1)
      as [Hp1 (inner & Ht1 & Hall)].
    destruct (unpack_archives env self (torrent_content_path t) w1) as [r w'].
    exists r, w', inner. cbn in Hp1, Ht1. split_and!; [done| |done|].
    - rewrite Ht1, Ht, <-!app_assoc. done.
    - by rewrite Hp1. }
  destruct (pause_reply tick (torrent_hash t)); cbn;
    apply Hgo; cbn; by rewrite <-?app_assoc.
Qed.

(** The loop over the selected torrents handles a beginning of the list,
    all of it when no exception escapes. *)
Lemma for_each_process_spec (total : nat) (its : list (nat * Torrent)) (w : World) :
  ∃ r w' k ext,
    for_each its (process_torrent env self tick total) w = (r, w')
    ∧ poller_step (torrent_hash <$> take k its.*2) ext w w'
    ∧ waitless ext
    ∧ (r = Ok tt → k = length its).
Proof.
  revert w. induction its as [|[i t] its IH]; intros w.
  - exists (Ok tt), w, 0, []. cbn. split_and!; try done.
    + split_and!; [by rewrite app_nil_r|constructor|].
      cbn. by rewrite (left_id_L ∅ (∪)).
    + intros n Hn. by apply elem_of_nil in Hn.
  - cbn [for_each]. unfold mbind, M_bind.
    destruct (process_torrent_spec total i t w) as (r1 & w1 & inner & -> & Ht1 & Hin & Hp1).
    assert (waitless (ActMark (torrent_hash t) :: ActPause (torrent_hash t)
                      :: ActUnpack (torrent_hash t) (torrent_content_path t)
                      :: inner)) as Hw1.
    { intros n Hn. repeat (apply elem_of_cons in Hn as [Hn|Hn]; [done|]).
      rewrite Forall_forall in Hin. by apply Hin in Hn. }
    destruct r1 as [[]|e|].
    + destruct (IH w1) as (r & w' & k & ext & -> & (Ht & Hpt & Hp) & Hw & Hk).
      exists r, w', (S k), (ActMark (torrent_hash t) :: ActPause (torrent_hash t)
                           :: ActUnpack (torrent_hash t) (torrent_content_path t)
                           :: inner ++ ext).
      split_and!; [done| | |].
      * split_and!.
        -- rewrite Ht, Ht1, <-app_assoc. done.
        -- cbn. by constructor.
        -- rewrite Hp, Hp1. cbn. set_solver.
      * intros n Hn. rewrite !app_comm_cons in Hn.
        apply elem_of_app in Hn as [Hn|Hn]; [by apply Hw1 in Hn|by apply Hw in Hn].
      * intros Hr. cbn. by rewrite Hk.
    + exists (Raise e), w1, 1, (ActMark (torrent_hash t) :: ActPause (torrent_hash t)
                           :: ActUnpack (torrent_hash t) (torrent_content_path t)
                           :: inner).
      split_and!; [done| |done|done].
      split_and!; [done| |].
      * cbn. rewrite take_0. cbn.
        rewrite <-(app_nil_r inner). constructor; [done|constructor].
      * rewrite Hp1. cbn. rewrite take_0. cbn. set_solver.
    + exists Diverge, w1, 1, (ActMark (torrent_hash t) :: ActPause (torrent_hash t)
                           :: ActUnpack (torrent_hash t) (torrent_content_path t)
                           :: inner).
      split_and!; [done| |done|done].
      split_and!; [done| |].
      * cbn. rewrite take_0. cbn.
        rewrite <-(app_nil_r inner). constructor; [done|constructor].
      * rewrite Hp1. cbn. rewrite take_0. cbn. set_solver.
Qed.

Lemma combine_seq_snd {A} (n : nat) (l : list A) :
  (List.combine (seq n (length l)) l).*2 = l.
Proof.
  revert n. induction l as [|x l IH]; intros n; cbn; [done|].
  by rewrite IH.
Qed.

Lemma combine_seq_length {A} (n : nat) (l : list A) :
  length (List.combine (seq n (length l)) l) = length l.
Proof. rewrite length_combine, length_seq. lia. Qed.

(** One turn: when the list arrives, a beginning of the selected torrents
    is handled, all of them if the turn ends without exception; when it
    does not arrive, nothing is handled.  A turn never waits. *)
Lemma poll_tick_spec (w : World) :
  ∃ r w' handled ext,
    poll_tick env self cfg tick w = (r, w')
    ∧ poller_step (torrent_hash <$> handled) ext w w'
    ∧ waitless ext
    ∧ match torrents_reply tick with
      | inl e => handled = [] ∧ r = Raise e
      | inr all =>
          ∃ k, handled
               = take k (List.filter (selected env cfg (processed_torrents w)) all)
               ∧ (r = Ok tt →
                  handled = List.filter (selected env cfg (processed_torrents w)) all)
      end.
Proof.
  assert (poller_step [] [] w w ∧ waitless []) as [Hrefl Hwl].
  { split.
    - split_and!; [by rewrite app_nil_r|constructor|].
      cbn. by rewrite (left_id_L ∅ (∪)).
    - intros n Hn. by apply elem_of_nil in Hn. }
  unfold poll_tick, qbt_torrents.
  destruct (torrents_reply tick) as [e|all].
  - exists (Raise e), w, [], []. done.
  - unfold mbind at 1, M_bind at 1. unfold mret at 1, M_ret at 1.
    unfold mbind at 1, M_bind at 1. unfold get_processed at 1.
    set (sel := List.filter (selected env cfg (processed_torrents w)) all).
    destruct sel as [|t0 sel0] eqn:Esel.
    { exists (Ok tt), w, [], []. split_and!; [done|done|done|].
      exists 0. done. }
    rewrite <-Esel. clear Esel t0 sel0.
    unfold mbind at 1, M_bind at 1. unfold logger_info at 1, logger at 1.
    set (w0 := {| fs := fs w |}).
    unfold mbind, M_bind.
    destruct (for_each_process_spec (length sel)
                (List.combine (seq 0 (length sel)) sel) w0)
      as (r & w' & k & ext & Hrun & (Ht & Hpt & Hp) & Hw & Hk).
    rewrite combine_seq_snd in Hpt, Hp. rewrite combine_seq_length in Hk.
    rewrite Hrun. destruct r as [[]|e|].
    + eexists (Ok tt), _, (take k sel), ext. split_and!; [reflexivity| |done|].
      * split_and!; done.
      * exists k. split; [done|]. intros _. rewrite Hk by done. apply firstn_all.
    + exists (Raise e), w', (take k sel), ext. split_and!; [done| |done|].
      * split_and!; done.
      * exists k. done.
    + exists Diverge, w', (take k sel), ext. split_and!; [done| |done|].
      * split_and!; done.
      * exists k. done.
Qed.

End tick_facts.

(** ** The loop *)

Section loop_facts.

Context (env : Env) (self : Unpacker) (cfg : Config).

Lemma monitor_loop_step (tick : Tick) (later : list Tick) (w : World) :
  stop_is_set tick = false →
  monitor_loop env self cfg (tick :: later) w
  = match poll_tick env self cfg tick w with
    | (Ok _, w1) => monitor_loop env self cfg later (after_normal_wait w1)
    | (Raise e, w1) => monitor_loop env self cfg later (after_backoff e w1)
    | (Diverge, w1) => (Diverge, w1)
    end.
Proof.
  intros Hstop. cbn [monitor_loop]. rewrite Hstop.
  unfold mbind at 1, M_bind at 1. unfold try_except at 1.
  unfold mbind at 1, M_bind at 1.
  by destruct (poll_tick env self cfg tick w) as [[[]|e|] w1].
Qed.

Lemma monitor_loop_stop (tick : Tick) (later : list Tick) (w : World) :
  stop_is_set tick = true →
  monitor_loop env self cfg (tick :: later) w = (Ok Stopped, w).
Proof. intros Hstop. cbn [monitor_loop]. by rewrite Hstop. Qed.

Lemma occurrences_app (h : string) (a b : list string) :
  occurrences h (a ++ b) = occurrences h a + occurrences h b.
Proof. unfold occurrences. by rewrite filter_app, length_app. Qed.

Lemma occurrences_zero (h : string) (hs : list string) :
  occurrences h hs = 0 ↔ h ∉ hs.
Proof.
  unfold occurrences. induction hs as [|x hs IH].
  - split; [intros _; apply not_elem_of_nil|done].
  - rewrite not_elem_of_cons. destruct (decide (x = h)) as [->|Hx].
    + rewrite filter_cons_True by done. cbn [length]. split; [done|].
      by intros [? _].
    + rewrite filter_cons_False by done. rewrite IH. split; [|by intros [_ ?]].
      intros ?. split; [by intros ->|done].
Qed.

Lemma occurrences_take (h : string) (k : nat) (l : list Torrent) :
  occurrences h (torrent_hash <$> take k l) ≤ occurrences h (torrent_hash <$> l).
Proof.
  rewrite <-(take_drop k l) at 2. rewrite fmap_app, occurrences_app. lia.
Qed.

Lemma occurrences_filter (h : string) (f : Torrent → bool) (l : list Torrent) :
  occurrences h (torrent_hash <$> List.filter f l)
  ≤ occurrences h (torrent_hash <$> l).
Proof.
  unfold occurrences. induction l as [|t l IH]; [done|].
  cbn [List.filter]. rewrite (fmap_cons torrent_hash t l).
  destruct (f t); rewrite ?fmap_cons.
  - destruct (decide (torrent_hash t = h)).
    + rewrite !filter_cons_True by done. cbn [length]. lia.
    + by rewrite !filter_cons_False.
  - destruct (decide (torrent_hash t = h)).
    + rewrite filter_cons_True by done. cbn [length]. lia.
    + by rewrite filter_cons_False.
Qed.

Lemma selected_unprocessed (processed : gset string) (l : list Torrent) (h : string) :
  h ∈ processed →
  h ∉ torrent_hash <$> List.filter (selected env cfg processed) l.
Proof.
  intros Hh (t & -> & Ht)%list_elem_of_fmap.
  apply list_elem_of_In, List.filter_In in Ht as [_ Hsel].
  unfold selected in Hsel.
  destruct (bool_decide (torrent_progress t = 1%Qc)); [|done].
  by rewrite bool_decide_eq_false_2 in Hsel by (by intros ?).
Qed.

Lemma not_elem_of_take {A} (x : A) (k : nat) (l : list A) :
  x ∉ l → x ∉ take k l.
Proof. intros Hx Hin. apply Hx. by apply (subseteq_take k l). Qed.

Lemma poller_step_nil (w : World) : poller_step [] [] w w.
Proof.
  split_and!; [by rewrite app_nil_r|constructor|].
  cbn. by rewrite (left_id_L ∅ (∪)).
Qed.

Lemma poller_step_wait (hs1 hs2 : list string) (ext1 ext2 : list action)
    (n : nat) (w w1 w1' w' : World) :
  poller_step hs1 ext1 w w1 →
  trace w1' = trace w1 ++ [ActWait n] →
  processed_torrents w1' = processed_torrents w1 →
  poller_step hs2 ext2 w1' w' →
  poller_step (hs1 ++ hs2) (ext1 ++ ActWait n :: ext2) w w'.
Proof.
  intros (Ht1 & Hp1 & Hs1) Htw Hsw (Ht2 & Hp2 & Hs2). split_and!.
  - rewrite Ht2, Htw, Ht1, <-!app_assoc. done.
  - apply poller_trace_app; [done|]. by constructor.
  - rewrite Hs2, Hsw, Hs1, list_to_set_app_L. set_solver.
Qed.

(** What one turn does about [h]. *)
Lemma poll_tick_about (h : string) (tick : Tick) (w : World) :
  (∀ all, torrents_reply tick = inr all →
     occurrences h (torrent_hash <$> all) ≤ 1
     ∧ ∃ t, t ∈ all ∧ torrent_hash t = h ∧ torrent_progress t = 1%Qc
            ∧ in_monitored_path env cfg (torrent_content_path t) = true) →
  ∃ r w1 hs ext,
    poll_tick env self cfg tick w = (r, w1)
    ∧ poller_step hs ext w w1
    ∧ waitless ext
    ∧ occurrences h hs ≤ 1
    ∧ (h ∈ processed_torrents w → h ∉ hs)
    ∧ (r = Ok tt → h ∈ processed_torrents w1).
Proof.
  intros Hlisted.
  destruct (poll_tick_spec env self cfg tick w)
    as (r & w1 & handled & ext & Hrun & Hstep & Hw & Hreply).
  exists r, w1, (torrent_hash <$> handled), ext.
  split_and!; [done|done|done| | |].
  - destruct (torrents_reply tick) as [e|all].
    + destruct Hreply as [-> _]. cbn. lia.
    + destruct Hreply as (k & -> & _).
      destruct (Hlisted all eq_refl) as [Hocc _].
      etrans; [apply occurrences_take|]. etrans; [apply occurrences_filter|done].
  - intros Hh. destruct (torrents_reply tick) as [e|all].
    + destruct Hreply as [-> _]. apply not_elem_of_nil.
    + destruct Hreply as (k & -> & _). rewrite fmap_take.
      apply not_elem_of_take. by apply selected_unprocessed.
  - intros ->. destruct (torrents_reply tick) as [e|all]; [by destruct Hreply|].
    destruct Hreply as (k & _ & Hall). specialize (Hall eq_refl).
    destruct Hstep as (_ & _ & ->).
    destruct (decide (h ∈ processed_torrents w)) as [Hin|Hnot]; [set_solver|].
    destruct (Hlisted all eq_refl) as [_ (t & Ht & <- & Hdone & Hscope)].
    apply elem_of_union. left. apply elem_of_list_to_set, list_elem_of_fmap.
    exists t. split; [done|]. rewrite Hall.
    apply list_elem_of_In, List.filter_In. split; [by apply list_elem_of_In|].
    unfold selected.
    by rewrite !bool_decide_eq_true_2 by done.
Qed.

(** The whole loop, as far as [h] is concerned. *)
Lemma monitor_loop_spec (h : string) (ticks : list Tick) (w : World) :
  listed_every_tick env cfg h ticks →
  ∃ r w' hs ext,
    monitor_loop env self cfg ticks w = (r, w')
    ∧ poller_step hs ext w w'
    ∧ (∀ e, r ≠ Raise e)
    ∧ occurrences h hs ≤ 1
    ∧ (h ∈ processed_torrents w → h ∉ hs)
    ∧ (h ∉ processed_torrents w → ActWait 15 ∈ ext → h ∈ hs).
Proof.
  revert w. induction ticks as [|tick later IH]; intros w Hlisted.
  { exists (Ok Polling), w, [], []. split_and!; try done.
    - apply poller_step_nil.
    - unfold occurrences. cbn. lia.
    - intros _. apply not_elem_of_nil.
    - intros _ Hin. by apply elem_of_nil in Hin. }
  assert (listed_every_tick env cfg h later) as Hlater.
  { intros t all Ht. apply Hlisted. by right. }
  destruct (stop_is_set tick) eqn:Hstop.
  { rewrite monitor_loop_stop by done.
    exists (Ok Stopped), w, [], []. split_and!; try done.
    - apply poller_step_nil.
    - unfold occurrences. cbn. lia.
    - intros _. apply not_elem_of_nil.
    - intros _ Hin. by apply elem_of_nil in Hin. }
  rewrite monitor_loop_step by done.
  destruct (poll_tick_about h tick w) as
    (r1 & w1 & hs1 & ext1 & -> & Hstep1 & Hw1 & Hocc1 & Hin1 & Hok1).
  { intros all. apply Hlisted. left. }
  pose proof Hstep1 as (_ & _ & Hset1).
  destruct r1 as [[]|e|].
  - destruct (IH (after_normal_wait w1) Hlater)
      as (r & w' & hs2 & ext2 & -> & Hstep2 & Hr & Hocc2 & Hin2 & Hwait2).
    exists r, w', (hs1 ++ hs2), (ext1 ++ ActWait 15 :: ext2).
    assert (h ∉ hs2) as Hno2 by (apply Hin2; by apply Hok1).
    split_and!; [done| |done| | |].
    + by apply (poller_step_wait _ _ _ _ 15 w w1 (after_normal_wait w1) w').
    + rewrite occurrences_app. apply occurrences_zero in Hno2. lia.
    + intros Hh [?|?]%elem_of_app; [by apply Hin1|done].
    + intros Hh _. apply elem_of_app. left.
      specialize (Hok1 eq_refl). rewrite Hset1 in Hok1. set_solver.
  - destruct (IH (after_backoff e w1) Hlater)
      as (r & w' & hs2 & ext2 & -> & Hstep2 & Hr & Hocc2 & Hin2 & Hwait2).
    exists r, w', (hs1 ++ hs2), (ext1 ++ ActWait 60 :: ext2).
    split_and!; [done| |done| | |].
    + by apply (poller_step_wait _ _ _ _ 60 w w1 (after_backoff e w1) w').
    + rewrite occurrences_app.
      destruct (decide (h ∈ hs1)) as [Hh1|Hh1].
      * assert (h ∉ hs2) as Hno2.
        { apply Hin2. cbn. rewrite Hset1. set_solver. }
        apply occurrences_zero in Hno2. lia.
      * apply occurrences_zero in Hh1. lia.
    + intros Hh [?|?]%elem_of_app; [by apply Hin1|].
      apply Hin2; [|done]. cbn. rewrite Hset1. set_solver.
    + intros Hh Hwait. apply elem_of_app.
      apply elem_of_app in Hwait as [Hwait|Hwait]; [by apply Hw1 in Hwait|].
      apply elem_of_cons in Hwait as [Hwait|Hwait]; [done|].
      destruct (decide (h ∈ hs1)) as [Hh1|Hh1]; [by left|right].
      apply Hwait2; [|done]. cbn. rewrite Hset1. set_solver.
  - exists Diverge, w1, hs1, ext1. split_and!; try done.
    intros _ Hwait. by apply Hw1 in Hwait.
Qed.

End loop_facts.

(** ** Walking a directory *)

Section walk_facts.

Context (m : gmap Path node).

Lemma scandir_lookup (d : Path) (c : string) (n : node) :
  (c, n) ∈ Os.scandir m d → m !! (d ++ [c]) = Some n.
Proof.
  unfold Os.scandir. intros ([k v] & Hkv & Hf)%list_elem_of_omap.
  apply elem_of_map_to_list in Hkv.
  destruct (List.rev k) as [|c' r]; [done|].
  destruct (decide (k = d ++ [c'])) as [->|]; [|done].
  by injection Hf as <- <-.
Qed.

Lemma descendants_child (d : Path) (c : string) (n : node) :
  m !! (d ++ [c]) = Some n →
  size (Os.descendants m (d ++ [c])) < size (Os.descendants m d).
Proof.
  intros Hn. apply subset_size. unfold Os.descendants. split.
  - intros k [[Hne Hpre] Hdom]%elem_of_filter. apply elem_of_filter.
    split; [|done]. split.
    + intros <-. apply prefix_length in Hpre. rewrite length_app in Hpre.
      cbn in Hpre. lia.
    + etrans; [|exact Hpre]. by apply prefix_app_r.
  - intros Hsub.
    assert (d ++ [c] ∈ filter (λ k, d ++ [c] ≠ k ∧ d ++ [c] `prefix_of` k) (dom m))
      as [[Hne _] _]%elem_of_filter; [|done].
    apply Hsub, elem_of_filter. split_and!.
    + intros Heq. apply (f_equal length) in Heq. rewrite length_app in Heq.
      cbn in Heq. lia.
    + by apply prefix_app_r.
    + apply elem_of_dom. by eexists.
Qed.

Lemma flat_map_ext_elem {A B} (f g : A → list B) (l : list A) :
  (∀ x, x ∈ l → f x = g x) → List.flat_map f l = List.flat_map g l.
Proof.
  induction l as [|x l IH]; intros H; cbn; [done|].
  rewrite (H x) by left. rewrite IH; [done|]. intros y Hy. apply H. by right.
Qed.

(** More depth than there are entries below [top] changes nothing. *)
Lemma walk_files_depth (d d' : nat) (top : Path) :
  size (Os.descendants m top) < d → size (Os.descendants m top) < d' →
  Os.walk_files d m top = Os.walk_files d' m top.
Proof.
  revert d' top. induction d as [|d IH]; intros d' top Hd Hd'; [lia|].
  destruct d' as [|d']; [lia|]. cbn [Os.walk_files]. f_equal.
  apply flat_map_ext_elem. intros [c n] Hin.
  apply list_elem_of_In, List.filter_In in Hin as [Hin _].
  apply list_elem_of_In, scandir_lookup, descendants_child in Hin.
  cbn [fst]. apply IH; lia.
Qed.

(** The depth [unpack_archives] walks with covers the whole tree. *)
Lemma walk_files_complete (extra : nat) (top : Path) :
  Os.walk_files (S (size m) + extra) m top = Os.walk_files (S (size m)) m top.
Proof.
  assert (size (Os.descendants m top) ≤ size m) as Hle.
  { rewrite <-size_dom. apply subseteq_size. unfold Os.descendants.
    intros k [_ ?]%elem_of_filter. done. }
  apply walk_files_depth; lia.
Qed.

End walk_facts.

(** ** The test of the monitored path *)

Section scope_facts.

(** Among the entries of one directory, paths are ordered as their names. *)
Lemma path_compare_siblings (dir : Path) (a b : string) :
  Pathlib.compare (dir ++ [a]) (dir ++ [b]) = String.compare a b.
Proof.
  induction dir as [|c dir IH]; cbn.
  - by destruct (String.compare a b).
  - by rewrite str_compare_refl.
Qed.

Lemma str_prefix_app (a b : string) : String.prefix a (a +:+ b) = true.
Proof.
  induction a as [|c a IH]; [by destruct b|].
  rewrite str_app_cons. cbn. by destruct (ascii_dec c c).
Qed.

Lemma str_concat_app (l1 l2 : list string) :
  String.concat "" (l1 ++ l2) = String.concat "" l1 +:+ String.concat "" l2.
Proof.
  induction l1 as [|x l1 IH]; [done|].
  destruct l1 as [|y l1].
  - cbn [app String.concat]. destruct l2 as [|z l2].
    + by rewrite str_app_nil_r.
    + by rewrite str_app_nil_l.
  - change (String.concat "" ((x :: y :: l1) ++ l2))
      with (x +:+ "" +:+ String.concat "" ((y :: l1) ++ l2)).
    change (String.concat "" (x :: y :: l1))
      with (x +:+ "" +:+ String.concat "" (y :: l1)).
    by rewrite IH, !str_app_nil_l, str_app_assoc.
Qed.

Lemma str_nonroot (p : Path) :
  p ≠ [] → Pathlib.str p = String.concat "" (List.map (fun c => "/" +:+ c) p).
Proof. by destruct p. Qed.

(** The test of the loop accepts every path inside the monitored root. *)
Lemma within_startswith (root p : Path) :
  is_within root p = true →
  String.prefix (Pathlib.str root) (Pathlib.str p) = true.
Proof.
  unfold is_within. intros [k ->]%bool_decide_eq_true.
  destruct root as [|c root].
  - destruct k as [|c k]; [done|].
    cbn [app Pathlib.str List.map]. destruct k as [|c' k].
    + apply (str_prefix_app "/" c).
    + cbn [List.map String.concat]. rewrite str_app_assoc.
      apply (str_prefix_app "/").
  - rewrite (str_nonroot (c :: root)), (str_nonroot ((c :: root) ++ k)) by done.
    rewrite List.map_app, str_concat_app. apply str_prefix_app.
Qed.

(** What the loop selects: completed, not yet processed, and with a
    resolved path that starts, as a string, with the resolved root. *)
Lemma selected_iff (env : Env) (cfg : Config) (processed : gset string)
    (torrent : Torrent) :
  selected env cfg processed torrent = true
  ↔ (torrent_progress torrent = 1%Qc
     ∧ (torrent_hash torrent ∉ processed)
     ∧ String.prefix (Pathlib.str (resolve env (monitor_path cfg)))
         (Pathlib.str (resolve env (torrent_content_path torrent))) = true).
Proof.
  unfold selected, in_monitored_path.
  repeat case_bool_decide; cbn; intuition discriminate.
Qed.

End scope_facts.

(** ** More on the pattern *)

Section pattern_more.

Lemma lazy_prefix_lacks_LF (pre rest g : string) :
  Regex.lazy_prefix pre rest = Some g →
  ∃ mid t, rest = mid +:+ String "." t ∧ Regex.token_end t = true
           ∧ g = pre +:+ mid ∧ Py.lacks Py.LF mid = true.
Proof.
  revert pre. induction rest as [|c r IH]; intros pre H.
  - cbn in H. done.
  - cbn [Regex.lazy_prefix] in H.
    destruct (Regex.tail_ok (String c r)) eqn:Et.
    + injection H as <-. cbn in Et. apply andb_true_iff in Et as [Ec Ht].
      apply eqb_char_true in Ec as ->.
      exists "", r. by rewrite str_app_nil_r.
    + destruct (Py.eqb_char c Py.LF) eqn:Ec; [done|].
      apply IH in H as (mid & t & -> & Ht & -> & Hlf).
      exists (String c mid), t. rewrite str_app_snoc. split_and!; try done.
      cbn. by rewrite Ec.
Qed.

Lemma lazy_prefix_complete (pre mid t : string) :
  Py.lacks Py.LF mid = true → Regex.token_end t = true →
  Regex.lazy_prefix pre (mid +:+ String "." t) = Some (pre +:+ mid).
Proof.
  intros Hlf Ht. revert pre Hlf. induction mid as [|c mid IH]; intros pre Hlf.
  - rewrite str_app_nil_l, str_app_nil_r. cbn [Regex.lazy_prefix Regex.tail_ok].
    by rewrite (proj2 (eqb_char_true "." ".") eq_refl), Ht.
  - rewrite str_app_cons. cbn [Regex.lazy_prefix Regex.tail_ok].
    assert (Regex.token_end (mid +:+ String "." t) = false) as ->.
    { destruct (Regex.token_end (mid +:+ String "." t)) eqn:E; [|done].
      apply token_end_lacks_dot in E as [E _]. rewrite lacks_app in E.
      apply andb_true_iff in E as [_ E]. cbn in E.
      by rewrite (proj2 (eqb_char_true "." ".") eq_refl) in E. }
    rewrite andb_false_r. cbn in Hlf.
    apply andb_true_iff in Hlf as [Hc Hlf]. apply negb_true_iff in Hc.
    rewrite Hc, IH by done. by rewrite str_app_snoc.
Qed.

Lemma base_name_by_stem (a : Path) :
  Grouper.base_name a
  = match Regex.PART_REGEX_match (Pathlib.stem a) with
    | Some captured => captured
    | None => Pathlib.stem a
    end.
Proof.
  unfold Grouper.base_name.
  destruct (Regex.PART_REGEX_match (Pathlib.stem a)) as [g|]; [done|].
  unfold Grouper.is_rar. case_bool_decide as Hrar; [|done].
  by rewrite (rar_name_no_match (Pathlib.name a) Hrar).
Qed.

Lemma part_pattern_complete (g t : string) :
  Pathlib.nonempty g = true → Py.lacks Py.LF g = true →
  Regex.token_end t = true →
  Regex.PART_REGEX_match (g +:+ String "." t) = Some g.
Proof.
  intros Hne Hlf Ht.
  destruct g as [|c g]; [done|]. rewrite str_app_cons. cbn in Hlf |- *.
  apply andb_true_iff in Hlf as [Hc Hlf]. apply negb_true_iff in Hc.
  rewrite Hc, lazy_prefix_complete by done.
  by rewrite str_app_cons, str_app_nil_l.
Qed.

End pattern_more.

(** ** What a walk finds *)

Section walk_more.

Context (m : gmap Path node).

Lemma scandir_elem (d : Path) (c : string) (n : node) :
  (c, n) ∈ Os.scandir m d ↔ m !! (d ++ [c]) = Some n.
Proof.
  split; [apply scandir_lookup|]. intros Hn.
  unfold Os.scandir. apply list_elem_of_omap. exists (d ++ [c], n). split.
  - by apply elem_of_map_to_list.
  - rewrite rev_unit. by rewrite decide_True.
Qed.

Lemma dirs_between_cons (top : Path) (c : string) (rel : Path) :
  rel ≠ [] →
  dirs_between m top (c :: rel)
  ↔ m !! (top ++ [c]) = Some Dir ∧ dirs_between m (top ++ [c]) rel.
Proof.
  intros Hne. unfold dirs_between. split.
  - intros H. split.
    + apply (H 1). destruct rel; [done|]. cbn. lia.
    + intros k Hk.
      replace ((top ++ [c]) ++ take k rel) with (top ++ take (S k) (c :: rel))
        by (cbn [take]; by rewrite <-app_assoc).
      apply (H (S k)). cbn. lia.
  - intros [Hc H] k Hk. destruct k as [|k]; [lia|]. cbn [take].
    destruct k as [|k].
    + by rewrite take_0.
    + replace (top ++ c :: take (S k) rel) with ((top ++ [c]) ++ take (S k) rel)
        by (by rewrite <-app_assoc).
      apply H. cbn in Hk. lia.
Qed.

Lemma walk_files_sound (d : nat) (top p : Path) :
  p ∈ Os.walk_files d m top →
  ∃ rel, rel ≠ [] ∧ p = top ++ rel
         ∧ (∃ content, m !! p = Some (File content))
         ∧ dirs_between m top rel.
Proof.
  revert top. induction d as [|d IH]; intros top; cbn [Os.walk_files].
  - by intros ?%elem_of_nil.
  - intros [Hin|Hin]%elem_of_app.
    + apply list_elem_of_In, List.in_map_iff in Hin as ([c n] & <- & Hin).
      apply List.filter_In in Hin as [Hin Hn].
      apply list_elem_of_In, scandir_lookup in Hin. cbn [fst].
      destruct n as [content|]; [|done].
      exists [c]. split_and!; [done|done|by exists content|].
      intros k Hk. cbn in Hk. lia.
    + apply list_elem_of_In, List.in_flat_map in Hin as ([c n] & Hin & Hp).
      apply List.filter_In in Hin as [Hin Hn].
      apply list_elem_of_In, scandir_lookup in Hin. cbn [fst] in Hp.
      destruct n as [content|]; [done|].
      apply list_elem_of_In, IH in Hp as (rel & Hne & -> & Hfile & Hdirs).
      exists (c :: rel). split_and!; [done|by rewrite <-app_assoc| |].
      * done.
      * by apply dirs_between_cons.
Qed.

Lemma walk_files_found (rel : Path) (d : nat) (top : Path) (content : string) :
  rel ≠ [] → length rel ≤ d →
  m !! (top ++ rel) = Some (File content) →
  dirs_between m top rel →
  top ++ rel ∈ Os.walk_files d m top.
Proof.
  revert d top. induction rel as [|c rel IH]; intros d top Hne Hd Hfile Hdirs; [done|].
  destruct d as [|d]; [cbn in Hd; lia|]. cbn [Os.walk_files].
  apply elem_of_app. destruct rel as [|c' rel].
  - left. apply list_elem_of_In, List.in_map_iff. exists (c, File content).
    split; [done|]. apply List.filter_In. split; [|done].
    by apply list_elem_of_In, scandir_elem.
  - right. apply dirs_between_cons in Hdirs as [Hc Hdirs]; [|done].
    apply list_elem_of_In, List.in_flat_map. exists (c, Dir). split.
    + apply List.filter_In. split; [|done]. by apply list_elem_of_In, scandir_elem.
    + cbn [fst]. apply list_elem_of_In.
      replace (top ++ c :: c' :: rel) with ((top ++ [c]) ++ c' :: rel)
        by (by rewrite <-app_assoc).
      apply (IH d (top ++ [c])); [done|cbn in Hd |- *; lia| |done].
      by rewrite <-app_assoc.
Qed.

(** The walk of [unpack_archives] finds the regular files that can be
    reached from [top] through directories, and nothing else. *)
Lemma walk_files_elem (top p : Path) :
  p ∈ Os.walk_files (S (size m)) m top
  ↔ ∃ rel, rel ≠ [] ∧ p = top ++ rel
           ∧ (∃ content, m !! p = Some (File content))
           ∧ dirs_between m top rel.
Proof.
  split; [apply walk_files_sound|].
  intros (rel & Hne & -> & [content Hfile] & Hdirs).
  rewrite <-(walk_files_complete m (length rel)).
  apply (walk_files_found rel _ top content); [done|lia|done|done].
Qed.

End walk_more.

(** ** Looking for archives *)

Section search_facts.

Lemma find_archives_elem (path : Path) (w : World) :
  ∃ found,
    find_archives path w = (Ok found, w)
    ∧ ∀ p, p ∈ found
           ↔ Grouper.is_candidate p = true
             ∧ ((Os.is_file (fs w) path = true ∧ p = path)
                ∨ (Os.is_dir (fs w) path = true
                   ∧ ∃ rel, rel ≠ [] ∧ p = path ++ rel
                            ∧ (∃ content, fs w !! p = Some (File content))
                            ∧ dirs_between (fs w) path rel)).
Proof.
  unfold find_archives, mbind, M_bind, get_fs.
  assert (Os.is_file (fs w) path = true → Os.is_dir (fs w) path = false) as Hfd.
  { unfold Os.is_file, Os.is_dir. by destruct (Os.node_at (fs w) path) as [[c|]|]. }
  destruct (Os.is_file (fs w) path) eqn:Hf.
  - eexists. split; [reflexivity|]. intros p. rewrite (Hfd eq_refl). split.
    + destruct (Grouper.is_candidate path) eqn:Hc.
      * intros ->%list_elem_of_singleton. split; [done|]. by left.
      * by intros ?%elem_of_nil.
    + intros [Hc [[_ ->]|[? _]]]; [|done]. rewrite Hc. by apply list_elem_of_singleton.
  - destruct (Os.is_dir (fs w) path) eqn:Hd.
    + eexists. split; [reflexivity|]. intros p.
      rewrite list_elem_of_In, List.filter_In, <-list_elem_of_In, walk_files_elem.
      split.
      * intros [Hw Hc]. split; [done|]. right. done.
      * intros [Hc [[? _]|[_ Hw]]]; done.
    + eexists. split; [reflexivity|]. intros p. split.
      * by intros ?%elem_of_nil.
      * intros [_ [[? _]|[? _]]]; done.
Qed.

End search_facts.

(** ** Deleting the parts *)

Section removal_facts.

Context (env : Env).

Lemma os_remove_cases (p : Path) (w : World) :
  (removable env (fs w) p = true
   ∧ os_remove env p w
     = (Ok tt, set_fs (delete p (fs w)) (record_action (ActRemove p) w)))
  ∨ (removable env (fs w) p = false
     ∧ ∃ e, os_remove env p w = (Raise (OSError e), record_action (ActRemove p) w)).
Proof.
  unfold removable, os_remove, Os.is_file. cbn.
  destruct (Os.node_at (fs w) p) as [[content|]|].
  - destruct (refused env p).
    + right. split; [done|]. by eexists.
    + left. done.
  - right. split; [done|]. by eexists.
  - right. split; [done|]. by eexists.
Qed.

Lemma removable_nonroot (m : gmap Path node) (p : Path) :
  removable env m p = true → p ≠ [] ∧ ∃ content, m !! p = Some (File content).
Proof.
  unfold removable, Os.is_file. intros [Hf _]%andb_true_iff.
  destruct p as [|c p]; [done|]. cbn in Hf.
  destruct (m !! (c :: p)) as [[content|]|]; try done.
  split; [done|]. by exists content.
Qed.

Lemma removable_delete (m : gmap Path node) (part p : Path) :
  removable env (delete part m) p
  = if decide (part = p) then false else removable env m p.
Proof.
  unfold removable, Os.is_file. destruct p as [|c p]; cbn.
  - by destruct (decide (part = [])).
  - rewrite lookup_delete. destruct (decide (part = c :: p)); done.
Qed.

(** The loop tries every part once, in order; it removes the parts that
    can be removed and passes over the others. *)
Lemma delete_parts_spec (all_parts : list Path) (w : World) :
  ∃ w',
    delete_parts env all_parts w = (Ok tt, w')
    ∧ trace w' = trace w ++ (ActRemove <$> all_parts)
    ∧ (∀ p, fs w' !! p
            = if bool_decide (p ∈ all_parts) && removable env (fs w) p
              then None else fs w !! p)
    ∧ processed_torrents w' = processed_torrents w
    ∧ gui_queue w' = gui_queue w.
Proof.
  revert w. induction all_parts as [|part parts IH]; intros w.
  - exists w. split_and!; try done. by rewrite app_nil_r.
  - unfold delete_parts. cbn [for_each]. fold (delete_parts env parts).
    unfold mbind at 1, M_bind at 1, try_except at 1.
    unfold mbind at 1, M_bind at 1.
    destruct (os_remove_cases part w) as [[Hrem ->]|[Hrem [e ->]]].
    + unfold logger_info, logger. cbn.
      match goal with |- context [delete_parts env parts ?W] =>
        destruct (IH W) as (w' & -> & Ht & Hfs & Hp & Hq) end.
      cbn in Ht, Hfs, Hp, Hq. exists w'. split_and!; [done| | |done|done].
      * rewrite Ht, <-app_assoc. done.
      * intros p. rewrite Hfs, removable_delete, lookup_delete.
        destruct (decide (part = p)) as [<-|Hne].
        -- rewrite andb_false_r, Hrem, andb_true_r.
           rewrite bool_decide_eq_true_2 by left. done.
        -- destruct (removable env (fs w) p); [|by rewrite !andb_false_r].
           rewrite !andb_true_r.
           destruct (decide (p ∈ parts)) as [Hin|Hin].
           ++ rewrite !bool_decide_eq_true_2; [done|by right|done].
           ++ rewrite !bool_decide_eq_false_2; [done| |done].
              intros [?|?]%elem_of_cons; congruence.
    + unfold logger_error, logger. cbn.
      match goal with |- context [delete_parts env parts ?W] =>
        destruct (IH W) as (w' & -> & Ht & Hfs & Hp & Hq) end.
      cbn in Ht, Hfs, Hp, Hq. exists w'. split_and!; [done| | |done|done].
      * rewrite Ht, <-app_assoc. done.
      * intros p. rewrite Hfs.
        destruct (removable env (fs w) p) eqn:Hr; [|by rewrite !andb_false_r].
        rewrite !andb_true_r.
        assert (p ≠ part) as Hne by (intros ->; congruence).
        destruct (decide (p ∈ parts)) as [Hin|Hin].
        -- rewrite !bool_decide_eq_true_2; [done|by right|done].
        -- rewrite !bool_decide_eq_false_2; [done| |done].
           intros [?|?]%elem_of_cons; congruence.
Qed.

End removal_facts.

(** ** The outcome of an attempt *)

Section outcome_facts.

Context (env : Env).

Lemma append_text_fail (file : Path) (text : string) (w : World) :
  appendable env (fs w) file = false →
  ∃ e, append_text env file text w
       = (Raise (OSError e), record_action (ActAppend file text) w).
Proof.
  unfold appendable, append_text, Os.is_dir. cbn.
  destruct (Os.node_at (fs w) file) as [[c|]|] eqn:E.
  - intros ->%negb_false_iff. by eexists.
  - intros _. by eexists.
  - destruct (Os.node_at (fs w) (Pathlib.parent file)) as [[c|]|];
      cbn; try (intros _; by eexists).
    rewrite bool_decide_eq_true_2 by done. cbn.
    intros ->%negb_false_iff. by eexists.
Qed.

(** The world after a line was appended to the history file. *)
Lemma log_event_ok (status name path : string) (w : World) :
  status = "SUCCESS" ∨ status = "FAILURE" →
  appendable env (fs w) (EXTRACTION_LOG_FILE env) = true →
  ∃ w',
    _log_extraction_event env status name path w = (Ok tt, w')
    ∧ fs w' = <[EXTRACTION_LOG_FILE env :=
                  File (Os.content_of (fs w) (EXTRACTION_LOG_FILE env)
                        +:+ History.line_of (status, name, path))]> (fs w)
    ∧ trace w' = trace w ++ [ActAppend (EXTRACTION_LOG_FILE env)
                               (History.line_of (status, name, path))]
    ∧ gui_queue w' = gui_queue w
        ++ [if decide (status = "SUCCESS") then MsgExtractionSuccess name path
            else MsgExtractionFailure name path]
    ∧ processed_torrents w' = processed_torrents w
    ∧ log w' = log w.
Proof.
  intros Hst Happ. unfold _log_extraction_event, mbind, M_bind.
  rewrite append_text_ok by done.
  destruct Hst as [-> | ->]; cbn; eexists; split_and!; reflexivity.
Qed.

Lemma log_event_fail (status name path : string) (w : World) :
  appendable env (fs w) (EXTRACTION_LOG_FILE env) = false →
  ∃ e,
    _log_extraction_event env status name path w
    = (Raise (OSError e),
       record_action (ActAppend (EXTRACTION_LOG_FILE env)
                        (History.line_of (status, name, path))) w).
Proof.
  intros Happ. unfold _log_extraction_event, mbind, M_bind.
  destruct (append_text_fail (EXTRACTION_LOG_FILE env)
              (History.line_of (status, name, path)) w Happ) as [e He].
  exists e. unfold History.line_of in He. by rewrite He.
Qed.

(** Whatever the exception, the handler writes to the log and then
    records the failure. *)
Lemma extraction_handler_log (archive_path out : Path) (nm : string) (e : exn)
    (w : World) :
  ∃ w0,
    extraction_handler env archive_path out nm e w
    = _log_extraction_event env "FAILURE" nm (Pathlib.str out) w0
    ∧ fs w0 = fs w ∧ trace w0 = trace w ∧ gui_queue w0 = gui_queue w
    ∧ processed_torrents w0 = processed_torrents w.
Proof.
  unfold extraction_handler.
  destruct e as [stderr| | | | | |];
    try (destruct (Pathlib.nonempty stderr));
    unfold mbind, M_bind, logger_error, logger; cbn; by eexists.
Qed.

End outcome_facts.

Section attempt_facts.

Context (env : Env).

Lemma try_except_ok {A} (body : M A) (handler : exn → M A) (w w1 : World) (a : A) :
  body w = (Ok a, w1) → try_except body handler w = (Ok a, w1).
Proof. unfold try_except. by intros ->. Qed.

Lemma try_except_raise {A} (body : M A) (handler : exn → M A) (w w1 : World)
    (e : exn) :
  body w = (Raise e, w1) → try_except body handler w = handler e w1.
Proof. unfold try_except. by intros ->. Qed.

Lemma try_finally_ends {A} (body : M A) (cleanup : M unit) (w w1 w2 : World)
    (r : result A) :
  body w = (r, w1) → r ≠ Diverge → cleanup w1 = (Ok tt, w2) →
  try_finally body cleanup w = (r, w2).
Proof. unfold try_finally. intros -> Hr ->. by destruct r. Qed.

Lemma subprocess_run_full (command : list string) (out : Path) (w : World) :
  ∃ r w2, subprocess_run env command out w = (r, w2)
    ∧ trace w2 = trace w ++ [ActExec command]
    ∧ processed_torrents w2 = processed_torrents w
    ∧ gui_queue w2 = gui_queue w
    ∧ fs w2 = fs_after_tool env command out (fs w)
    ∧ match tool_exit_of (seven_zip env command (fs w)) with
      | Exit0 => r = Ok tt
      | ExitNonZero stderr => r = Raise (CalledProcessError stderr)
      | LaunchError e => r = Raise e
      end.
Proof.
  unfold subprocess_run, fs_after_tool. cbn.
  destruct (tool_exit_of _); do 2 eexists; split_and!; done.
Qed.

(** The [finally] clause. *)
Lemma closing_spec (w : World) :
  ∃ w', (gui_put (MsgProgress "stop") ;; gui_put (MsgStatus "Monitoring...")) w
        = (Ok tt, w')
    ∧ fs w' = fs w ∧ trace w' = trace w
    ∧ processed_torrents w' = processed_torrents w
    ∧ gui_queue w' = gui_queue w ++ [MsgProgress "stop"; MsgStatus "Monitoring..."].
Proof.
  eexists. split; [reflexivity|]. cbn. by rewrite <-app_assoc.
Qed.

(** What follows a run of the tool that ended with status 0, when the
    history file can be written. *)
Lemma success_branch_ok (self : Unpacker) (archive_path : Path)
    (all_parts : list Path) (out : Path) (nm : string) (w : World) :
  let history := EXTRACTION_LOG_FILE env in
  let line := History.line_of ("SUCCESS", nm, Pathlib.str out) in
  let logged := <[history := File (Os.content_of (fs w) history +:+ line)]> (fs w) in
  appendable env (fs w) history = true →
  ∃ w',
    (logger_info ("Successfully extracted '" +:+ Pathlib.name archive_path
                  +:+ "' to '" +:+ Pathlib.str out +:+ "'") ;;
     _log_extraction_event env "SUCCESS" nm (Pathlib.str out) ;;
     if delete_on_success self then
       logger_info ("Deleting " +:+ Py.str_nat (length all_parts)
                    +:+ " archive part(s)...") ;;
       delete_parts env all_parts
     else mret tt) w = (Ok tt, w')
    ∧ processed_torrents w' = processed_torrents w
    ∧ gui_queue w' = gui_queue w ++ [MsgExtractionSuccess nm (Pathlib.str out)]
    ∧ trace w' = trace w ++ ActAppend history line
        :: (if delete_on_success self then ActRemove <$> all_parts else [])
    ∧ ∀ p, fs w' !! p
           = if delete_on_success self && bool_decide (p ∈ all_parts)
                && removable env logged p
             then None else logged !! p.
Proof.
  cbn zeta. intros Happ.
  unfold mbind at 1, M_bind at 1, logger_info at 1, logger at 1.
  unfold mbind at 1, M_bind at 1.
  match goal with |- context [_log_extraction_event env _ _ _ ?W] =>
    destruct (log_event_ok env "SUCCESS" nm (Pathlib.str out) W)
      as (w1 & -> & Hfs & Ht & Hq & Hp & _); [by left|done|] end.
  cbn in Hfs, Ht, Hq, Hp. rewrite decide_True in Hq by done.
  destruct (delete_on_success self).
  - unfold mbind, M_bind, logger_info, logger.
    match goal with |- context [delete_parts env all_parts ?W] =>
      destruct (delete_parts_spec env all_parts W)
        as (w2 & -> & Ht2 & Hfs2 & Hp2 & Hq2) end.
    cbn in Ht2, Hfs2, Hp2, Hq2.
    exists w2. split_and!; [done|congruence|congruence| |].
    + by rewrite Ht2, Ht, <-app_assoc.
    + intros p. rewrite Hfs2, Hfs. done.
  - exists w1. split_and!; [done|done|done|done|].
    intros p. by rewrite Hfs.
Qed.

(** The same when the history file cannot be written: the handler tries
    to record a failure, which fails in turn. *)
Lemma success_branch_unwritable (self : Unpacker) (archive_path : Path)
    (all_parts : list Path) (out : Path) (nm : string) (w : World) :
  let history := EXTRACTION_LOG_FILE env in
  appendable env (fs w) history = false →
  ∃ e w',
    try_except
      (logger_info ("Successfully extracted '" +:+ Pathlib.name archive_path
                    +:+ "' to '" +:+ Pathlib.str out +:+ "'") ;;
       _log_extraction_event env "SUCCESS" nm (Pathlib.str out) ;;
       if delete_on_success self then
         logger_info ("Deleting " +:+ Py.str_nat (length all_parts)
                      +:+ " archive part(s)...") ;;
         delete_parts env all_parts
       else mret tt)
      (extraction_handler env archive_path out nm) w
    = (Raise (OSError e), w')
    ∧ processed_torrents w' = processed_torrents w
    ∧ gui_queue w' = gui_queue w
    ∧ fs w' = fs w
    ∧ trace w' = trace w
        ++ [ActAppend history (History.line_of ("SUCCESS", nm, Pathlib.str out));
            ActAppend history (History.line_of ("FAILURE", nm, Pathlib.str out))].
Proof.
  cbn zeta. intros Happ.
  unfold try_except.
  unfold mbind at 1, M_bind at 1, logger_info at 1, logger at 1.
  unfold mbind at 1, M_bind at 1.
  match goal with |- context [_log_extraction_event env _ _ _ ?W] =>
    destruct (log_event_fail env "SUCCESS" nm (Pathlib.str out) W)
      as (e1 & ->); [done|] end.
  match goal with |- context [extraction_handler env _ _ _ ?e ?W] =>
    destruct (extraction_handler_log env archive_path out nm e W)
      as (w0 & -> & Hfs & Ht & Hq & Hp) end.
  cbn in Hfs, Ht, Hq, Hp.
  destruct (log_event_fail env "FAILURE" nm (Pathlib.str out) w0)
    as (e2 & ->); [by rewrite Hfs|].
  exists e2. eexists. split; [reflexivity|]. cbn.
  rewrite Hfs, Ht, Hq, Hp, <-app_assoc. done.
Qed.

(** The handler, by whether the history file can be written. *)
Lemma handler_outcome (archive_path out : Path) (nm : string) (e : exn) (w : World) :
  let history := EXTRACTION_LOG_FILE env in
  let line := History.line_of ("FAILURE", nm, Pathlib.str out) in
  ∃ r w',
    extraction_handler env archive_path out nm e w = (r, w')
    ∧ processed_torrents w' = processed_torrents w
    ∧ trace w' = trace w ++ [ActAppend history line]
    ∧ if appendable env (fs w) history then
        r = Ok tt
        ∧ gui_queue w' = gui_queue w ++ [MsgExtractionFailure nm (Pathlib.str out)]
        ∧ fs w' = <[history := File (Os.content_of (fs w) history +:+ line)]> (fs w)
      else
        (∃ e', r = Raise (OSError e'))
        ∧ gui_queue w' = gui_queue w ∧ fs w' = fs w.
Proof.
  cbn zeta.
  destruct (extraction_handler_log env archive_path out nm e w)
    as (w0 & -> & Hfs & Ht & Hq & Hp).
  destruct (appendable env (fs w) (EXTRACTION_LOG_FILE env)) eqn:Happ.
  - destruct (log_event_ok env "FAILURE" nm (Pathlib.str out) w0)
      as (w1 & -> & Hfs1 & Ht1 & Hq1 & Hp1 & _); [by right|by rewrite Hfs|].
    exists (Ok tt), w1. cbn in Hq1. rewrite decide_False in Hq1 by done.
    rewrite Hfs1, Ht1, Hq1, Hp1, Hfs, Ht, Hq, Hp. done.
  - destruct (log_event_fail env "FAILURE" nm (Pathlib.str out) w0)
      as (e2 & ->); [by rewrite Hfs|].
    eexists _, _. split; [reflexivity|]. cbn. rewrite Hfs, Ht, Hq, Hp.
    split_and!; try done. by exists e2.
Qed.

Lemma attempt_extraction_outcome (self : Unpacker) (archive_path : Path)
    (all_parts : list Path) (out : Path) (nm : string) (w : World) :
  let command := command_line self archive_path out in
  let after := fs_after_tool env command out (fs w) in
  let history := EXTRACTION_LOG_FILE env in
  let line := fun status => History.line_of (status, nm, Pathlib.str out) in
  let logged := fun status =>
    <[history := File (Os.content_of after history +:+ line status)]> after in
  let opening := [MsgStatus ("Extracting: " +:+ Pathlib.name archive_path);
                  MsgProgress "start"] in
  let closing := [MsgProgress "stop"; MsgStatus "Monitoring..."] in
  ∃ r w',
    attempt_extraction env self archive_path all_parts out nm w = (r, w')
    ∧ processed_torrents w' = processed_torrents w
    ∧ if appendable env after history then
        r = Ok tt
        ∧ match tool_exit_of (seven_zip env command (fs w)) with
          | Exit0 =>
              gui_queue w' = gui_queue w ++ opening
                             ++ [MsgExtractionSuccess nm (Pathlib.str out)] ++ closing
              ∧ trace w' = trace w ++ ActExec command
                  :: ActAppend history (line "SUCCESS")
                  :: (if delete_on_success self then ActRemove <$> all_parts else [])
              ∧ ∀ p, fs w' !! p
                     = if delete_on_success self && bool_decide (p ∈ all_parts)
                          && removable env (logged "SUCCESS") p
                       then None else logged "SUCCESS" !! p
          | _ =>
              gui_queue w' = gui_queue w ++ opening
                             ++ [MsgExtractionFailure nm (Pathlib.str out)] ++ closing
              ∧ trace w' = trace w ++ [ActExec command;
                                       ActAppend history (line "FAILURE")]
              ∧ fs w' = logged "FAILURE"
          end
      else
        (∃ e, r = Raise (OSError e))
        ∧ gui_queue w' = gui_queue w ++ opening ++ closing
        ∧ fs w' = after
        ∧ trace w' = trace w ++ ActExec command
            :: match tool_exit_of (seven_zip env command (fs w)) with
               | Exit0 => [ActAppend history (line "SUCCESS");
                           ActAppend history (line "FAILURE")]
               | _ => [ActAppend history (line "FAILURE")]
               end.
Proof.
  cbn zeta. rewrite attempt_extraction_unfold.
  destruct (subprocess_run_full (command_line self archive_path out) out
              (at_launch archive_path w))
    as (r0 & w2 & -> & Ht2 & Hp2 & Hq2 & Hfs2 & Hr0).
  change (fs (at_launch archive_path w)) with (fs w) in Hfs2, Hr0.
  change (trace (at_launch archive_path w)) with (trace w) in Ht2.
  change (processed_torrents (at_launch archive_path w))
    with (processed_torrents w) in Hp2.
  change (gui_queue (at_launch archive_path w))
    with ((gui_queue w ++ [MsgStatus ("Extracting: " +:+ Pathlib.name archive_path)])
          ++ [MsgProgress "start"]) in Hq2.
  rewrite <-app_assoc in Hq2. cbn [app] in Hq2.
  rewrite <-Hfs2.
  destruct (appendable env (fs w2) (EXTRACTION_LOG_FILE env)) eqn:Happ.
  - destruct (tool_exit_of _) as [|stderr|e0] eqn:Hexit.
    + subst r0.
      destruct (success_branch_ok self archive_path all_parts out nm w2 Happ)
        as (w3 & Hbody & Hp3 & Hq3 & Ht3 & Hfs3).
      destruct (closing_spec w3) as (w4 & Hc & Hfs4 & Ht4 & Hp4 & Hq4).
      exists (Ok tt), w4. split_and!.
      * eapply try_finally_ends; [|done|exact Hc].
        by apply try_except_ok.
      * congruence.
      * done.
      * rewrite Hq4, Hq3, Hq2, <-!app_assoc. done.
      * rewrite Ht4, Ht3, Ht2, <-app_assoc. done.
      * intros p. rewrite Hfs4. apply Hfs3.
    + subst r0.
      destruct (handler_outcome archive_path out nm (CalledProcessError stderr) w2)
        as (r & w3 & Hh & Hp3 & Ht3 & Hif).
      rewrite Happ in Hif. destruct Hif as (-> & Hq3 & Hfs3).
      destruct (closing_spec w3) as (w4 & Hc & Hfs4 & Ht4 & Hp4 & Hq4).
      exists (Ok tt), w4. split_and!.
      * eapply try_finally_ends; [exact Hh|done|exact Hc].
      * congruence.
      * done.
      * rewrite Hq4, Hq3, Hq2, <-!app_assoc. done.
      * rewrite Ht4, Ht3, Ht2, <-app_assoc. done.
      * by rewrite Hfs4, Hfs3.
    + subst r0.
      destruct (handler_outcome archive_path out nm e0 w2)
        as (r & w3 & Hh & Hp3 & Ht3 & Hif).
      rewrite Happ in Hif. destruct Hif as (-> & Hq3 & Hfs3).
      destruct (closing_spec w3) as (w4 & Hc & Hfs4 & Ht4 & Hp4 & Hq4).
      exists (Ok tt), w4. split_and!.
      * eapply try_finally_ends; [exact Hh|done|exact Hc].
      * congruence.
      * done.
      * rewrite Hq4, Hq3, Hq2, <-!app_assoc. done.
      * rewrite Ht4, Ht3, Ht2, <-app_assoc. done.
      * by rewrite Hfs4, Hfs3.
  - destruct (tool_exit_of _) as [|stderr|e0] eqn:Hexit.
    + subst r0.
      destruct (success_branch_unwritable self archive_path all_parts out nm w2 Happ)
        as (e & w3 & Hbody & Hp3 & Hq3 & Hfs3 & Ht3).
      destruct (closing_spec w3) as (w4 & Hc & Hfs4 & Ht4 & Hp4 & Hq4).
      exists (Raise (OSError e)), w4. split_and!.
      * eapply try_finally_ends; [exact Hbody|done|exact Hc].
      * congruence.
      * by exists e.
      * rewrite Hq4, Hq3, Hq2, <-!app_assoc. done.
      * congruence.
      * rewrite Ht4, Ht3, Ht2, <-app_assoc. done.
    + subst r0.
      destruct (handler_outcome archive_path out nm (CalledProcessError stderr) w2)
        as (r & w3 & Hh & Hp3 & Ht3 & Hif).
      rewrite Happ in Hif. destruct Hif as ([e ->] & Hq3 & Hfs3).
      destruct (closing_spec w3) as (w4 & Hc & Hfs4 & Ht4 & Hp4 & Hq4).
      exists (Raise (OSError e)), w4. split_and!.
      * eapply try_finally_ends; [exact Hh|done|exact Hc].
      * congruence.
      * by exists e.
      * rewrite Hq4, Hq3, Hq2, <-!app_assoc. done.
      * congruence.
      * rewrite Ht4, Ht3, Ht2, <-app_assoc. done.
    + subst r0.
      destruct (handler_outcome archive_path out nm e0 w2)
        as (r & w3 & Hh & Hp3 & Ht3 & Hif).
      rewrite Happ in Hif. destruct Hif as ([e ->] & Hq3 & Hfs3).
      destruct (closing_spec w3) as (w4 & Hc & Hfs4 & Ht4 & Hp4 & Hq4).
      exists (Raise (OSError e)), w4. split_and!.
      * eapply try_finally_ends; [exact Hh|done|exact Hc].
      * congruence.
      * by exists e.
      * rewrite Hq4, Hq3, Hq2, <-!app_assoc. done.
      * congruence.
      * rewrite Ht4, Ht3, Ht2, <-app_assoc. done.
Qed.

End attempt_facts.

(** ** What the loop hands over *)

Section dispatch_facts.

Context (env : Env) (self : Unpacker) (cfg : Config).

Lemma list_filter_sublist {A} (f : A → bool) (l : list A) :
  List.filter f l `sublist_of` l.
Proof.
  induction l as [|x l IH]; cbn; [done|].
  destruct (f x); [by apply sublist_skip|by apply sublist_cons].
Qed.

Lemma poll_tick_handles (tick : Tick) (w : World) :
  ∃ r w1 hs ext,
    poll_tick env self cfg tick w = (r, w1)
    ∧ poller_step hs ext w w1
    ∧ waitless ext
    ∧ (∀ h, h ∈ hs →
         (h ∉ processed_torrents w)
         ∧ ∃ all t, torrents_reply tick = inr all ∧ t ∈ all
                    ∧ torrent_hash t = h ∧ torrent_progress t = 1%Qc
                    ∧ in_monitored_path env cfg (torrent_content_path t) = true)
    ∧ ((∀ all, torrents_reply tick = inr all → NoDup (torrent_hash <$> all)) →
       NoDup hs).
Proof.
  destruct (poll_tick_spec env self cfg tick w)
    as (r & w1 & handled & ext & Hrun & Hstep & Hw & Hreply).
  exists r, w1, (torrent_hash <$> handled), ext.
  split_and!; [done|done|done| |].
  - intros h (t & -> & Ht)%list_elem_of_fmap.
    destruct (torrents_reply tick) as [e|all].
    { destruct Hreply as [-> _]. by apply elem_of_nil in Ht. }
    destruct Hreply as (k & -> & _).
    apply (subseteq_take k) in Ht.
    apply list_elem_of_In, List.filter_In in Ht as [Ht Hsel].
    apply selected_iff in Hsel as (Hdone & Hnew & Hscope).
    split; [done|]. exists all, t. split_and!; try done.
    by apply list_elem_of_In.
  - intros Hnd. destruct (torrents_reply tick) as [e|all].
    { destruct Hreply as [-> _]. constructor. }
    destruct Hreply as (k & -> & _).
    apply (sublist_NoDup _ (torrent_hash <$> all)); [by apply Hnd|].
    apply fmap_sublist. etrans; [apply sublist_take|apply list_filter_sublist].
Qed.

(** Over a whole run: what is handed over was listed as completed and
    inside the monitored path, was not processed before, and (when no
    list names a hash twice) is handed over once. *)
Lemma monitor_loop_handles (ticks : list Tick) (w : World) :
  ∃ r w' hs ext,
    monitor_loop env self cfg ticks w = (r, w')
    ∧ poller_step hs ext w w'
    ∧ (∀ h, h ∈ hs →
         (h ∉ processed_torrents w)
         ∧ ∃ tick all t, tick ∈ ticks ∧ torrents_reply tick = inr all ∧ t ∈ all
                         ∧ torrent_hash t = h ∧ torrent_progress t = 1%Qc
                         ∧ in_monitored_path env cfg (torrent_content_path t) = true)
    ∧ ((∀ tick all, tick ∈ ticks → torrents_reply tick = inr all →
          NoDup (torrent_hash <$> all)) →
       NoDup hs).
Proof.
  revert w. induction ticks as [|tick later IH]; intros w.
  { exists (Ok Polling), w, [], []. split_and!.
    - done.
    - apply poller_step_nil.
    - by intros h ?%elem_of_nil.
    - intros _. constructor. }
  destruct (stop_is_set tick) eqn:Hstop.
  { rewrite monitor_loop_stop by done.
    exists (Ok Stopped), w, [], []. split_and!.
    - done.
    - apply poller_step_nil.
    - by intros h ?%elem_of_nil.
    - intros _. constructor. }
  rewrite monitor_loop_step by done.
  destruct (poll_tick_handles tick w) as
    (r1 & w1 & hs1 & ext1 & -> & Hstep1 & Hw1 & Hin1 & Hnd1).
  pose proof Hstep1 as (_ & _ & Hset1).
  assert (∀ (n : nat) (w1' : World),
    trace w1' = trace w1 ++ [ActWait n] →
    processed_torrents w1' = processed_torrents w1 →
    ∃ r w' hs ext,
      monitor_loop env self cfg later w1' = (r, w')
      ∧ poller_step hs ext w w'
      ∧ (∀ h, h ∈ hs →
           (h ∉ processed_torrents w)
           ∧ ∃ tick0 all t, tick0 ∈ tick :: later ∧ torrents_reply tick0 = inr all
                           ∧ t ∈ all ∧ torrent_hash t = h
                           ∧ torrent_progress t = 1%Qc
                           ∧ in_monitored_path env cfg (torrent_content_path t) = true)
      ∧ ((∀ tick0 all, tick0 ∈ tick :: later → torrents_reply tick0 = inr all →
            NoDup (torrent_hash <$> all)) →
         NoDup hs)) as Hgo.
  { intros n w1' Ht Hp.
    destruct (IH w1') as (r & w' & hs2 & ext2 & -> & Hstep2 & Hin2 & Hnd2).
    exists r, w', (hs1 ++ hs2), (ext1 ++ ActWait n :: ext2).
    split_and!; [done| | |].
    - by apply (poller_step_wait _ _ _ _ n w w1 w1' w').
    - intros h [Hh|Hh]%elem_of_app.
      + destruct (Hin1 h Hh) as [Hnew (all & t & Hr & Ht' & Hh' & Hd & Hs)].
        split; [done|]. exists tick, all, t. split_and!; [by left|done..].
      + destruct (Hin2 h Hh) as [Hnew (tick0 & all & t & Htick & Hrest)].
        split.
        * rewrite Hp, Hset1 in Hnew. set_solver.
        * exists tick0, all, t. split; [by right|done].
    - intros Hnd. apply NoDup_app. split_and!.
      + apply Hnd1. intros all. apply Hnd. by left.
      + intros h Hh1 Hh2. destruct (Hin2 h Hh2) as [Hnew _].
        rewrite Hp, Hset1 in Hnew. set_solver.
      + apply Hnd2. intros tick0 all Htick. apply Hnd. by right. }
  destruct r1 as [[]|e|].
  - by apply (Hgo 15).
  - by apply (Hgo 60).
  - exists Diverge, w1, hs1, ext1. split_and!; [done|done| |].
    + intros h Hh. destruct (Hin1 h Hh) as [Hnew (all & t & Hr & Ht' & Hh' & Hd & Hs)].
      split; [done|]. exists tick, all, t. split_and!; [by left|done..].
    + intros Hnd. apply Hnd1. intros all. apply Hnd. by left.
Qed.

End dispatch_facts.

(** ** The thread *)

Section run_facts.

Context (env : Env) (cfg : Config).

(** After a successful login the thread is its loop: the lines written to
    the log before and after it leave everything else alone. *)
Lemma run_as_loop (ticks : list Tick) (w : World) :
  let unpacker := {| seven_zip_path := config_seven_zip_path cfg;
                     delete_on_success := config_delete_on_success cfg;
                     create_subfolder := config_create_subfolder cfg |} in
  ∃ w0 r w1 w',
    fs w0 = fs w ∧ trace w0 = trace w
    ∧ processed_torrents w0 = processed_torrents w
    ∧ gui_queue w0 = gui_queue w ++ [MsgStatus "Monitoring..."]
    ∧ monitor_loop env unpacker cfg ticks w0 = (r, w1)
    ∧ run env cfg None ticks w = (r, w')
    ∧ fs w' = fs w1 ∧ trace w' = trace w1
    ∧ processed_torrents w' = processed_torrents w1
    ∧ gui_queue w' = gui_queue w1.
Proof.
  cbn zeta.
  set (unpacker := {| seven_zip_path := config_seven_zip_path cfg;
                      delete_on_success := config_delete_on_success cfg;
                      create_subfolder := config_create_subfolder cfg |}).
  set (w0 := (logger_info "Polling qBittorrent for completed torrents every 15 seconds..."
                (logger_info ("Starting real-time monitoring of: "
                              +:+ Pathlib.str (monitor_path cfg))
                   (gui_put (MsgStatus "Monitoring...")
                      (logger_info "Successfully connected to qBittorrent." w).2).2).2).2).
  destruct (monitor_loop env unpacker cfg ticks w0) as [r w1] eqn:Hloop.
  assert (run env cfg None ticks w
          = match r with
            | Ok Stopped => (r, (logger_info "Monitoring stopped." w1).2)
            | _ => (r, w1)
            end) as Hrun.
  { unfold run. fold unpacker.
    unfold mbind at 1 2 3 4, M_bind at 1 2 3 4. cbn [logger_info logger gui_put].
    unfold mbind at 1, M_bind at 1.
    change (monitor_loop env unpacker cfg ticks w0) with
      (monitor_loop env unpacker cfg ticks w0) in Hloop.
    unfold w0 in Hloop. cbn [logger_info logger gui_put snd] in Hloop.
    rewrite Hloop. by destruct r as [[]|e|]. }
  exists w0, r, w1. rewrite Hrun.
  destruct r as [[]|e|]; eexists; split_and!; done.
Qed.

Lemma monitor_loop_total (self : Unpacker) (ticks : list Tick) (w : World) (e : exn) :
  (monitor_loop env self cfg ticks w).1 ≠ Raise e.
Proof.
  revert w. induction ticks as [|tick later IH]; intros w; [done|].
  destruct (stop_is_set tick) eqn:Hstop.
  - by rewrite monitor_loop_stop.
  - rewrite monitor_loop_step by done.
    destruct (poll_tick env self cfg tick w) as [[[]|e'|] w1]; [apply IH..|done].
Qed.

Lemma monitor_loop_stops (self : Unpacker) (ticks : list Tick) (w w' : World) :
  monitor_loop env self cfg ticks w = (Ok Stopped, w') →
  ∃ tick, tick ∈ ticks ∧ stop_is_set tick = true.
Proof.
  revert w. induction ticks as [|tick later IH]; intros w; [done|].
  destruct (stop_is_set tick) eqn:Hstop.
  - intros _. exists tick. split; [left|done].
  - rewrite monitor_loop_step by done.
    destruct (poll_tick env self cfg tick w) as [[[]|e'|] w1]; [| |done].
    + intros (t & Ht & Hs)%IH. exists t. split; [by right|done].
    + intros (t & Ht & Hs)%IH. exists t. split; [by right|done].
Qed.

End run_facts.

(** ** One run of the tool for each set *)

Section runs_facts.

Context (env : Env).

Lemma execs_app (a b : list action) : execs (a ++ b) = execs a ++ execs b.
Proof. apply omap_app. Qed.

Lemma execs_removes (parts : list Path) : execs (ActRemove <$> parts) = [].
Proof. by induction parts. Qed.

Lemma execs_mkdirs (pre : list action) :
  Forall (fun a => ∃ p, a = ActMkdir p) pre → execs pre = [].
Proof. induction 1 as [|a pre [p ->] _ IH]; [done|]. exact IH. Qed.

Lemma primary_file_some (file_list : list Path) :
  file_list ≠ [] → is_Some (Grouper.primary_file file_list).
Proof.
  intros Hne. unfold Grouper.primary_file.
  destruct (List.filter Grouper.is_rar file_list); [|by eexists].
  by apply sorted_nonempty.
Qed.

(** Choosing the destination ends; it makes at most one directory, and
    the only exception is the one of [mkdir]. *)
Lemma choose_destination_runs (self : Unpacker) (archive_path : Path)
    (b : string) (w : World) :
  ∃ r w1 pre,
    choose_destination env self archive_path b w = (r, w1)
    ∧ trace w1 = trace w ++ pre
    ∧ Forall (fun a => ∃ p, a = ActMkdir p) pre
    ∧ match r with
      | Ok _ => True
      | Raise e => ∃ n, e = OSError n
      | Diverge => False
      end.
Proof.
  destruct (create_subfolder self) eqn:Hs.
  - unfold choose_destination. rewrite Hs.
    destruct (unique_output_dir_spec (Pathlib.parent archive_path) b w)
      as (k & Hu & Hno & Hall).
    unfold mbind at 1, M_bind at 1. rewrite Hu.
    unfold mbind, M_bind, mkdir. cbn. rewrite Hno.
    destruct (Os.node_at (fs w) _) as [[c|]|]; cbn.
    + eexists _, _, [_]. split_and!; [done|done| |by eexists].
      constructor; [by eexists|constructor].
    + destruct (refused env _); cbn.
      * eexists _, _, [_]. split_and!; [done|done| |by eexists].
        constructor; [by eexists|constructor].
      * eexists _, _, [_]. split_and!; [done|done| |done].
        constructor; [by eexists|constructor].
    + eexists _, _, [_]. split_and!; [done|done| |by eexists].
      constructor; [by eexists|constructor].
  - destruct (choose_destination_flat env self archive_path b w Hs)
      as (w1 & -> & _ & Ht & _).
    eexists _, _, []. rewrite app_nil_r. split_and!; done.
Qed.

(** One extraction: it ends; it runs the tool once when it returns
    normally and at most once when it raises, which it only does with an
    [OSError]; without [delete_on_success] it removes nothing. *)
Lemma extract_archive_runs (self : Unpacker) (archive_path : Path)
    (all_parts : list Path) (b : string) (w : World) :
  ∃ r w' ext,
    extract_archive env self archive_path all_parts b w = (r, w')
    ∧ trace w' = trace w ++ ext
    ∧ (delete_on_success self = false → ∀ p, ActRemove p ∉ ext)
    ∧ match r with
      | Ok _ => ∃ out, execs ext = [command_line self archive_path out]
      | Raise e => (∃ n, e = OSError n) ∧ length (execs ext) ≤ 1
      | Diverge => False
      end.
Proof.
  rewrite extract_archive_bind.
  destruct (choose_destination_runs self archive_path b w)
    as (r1 & w1 & pre & -> & Ht1 & Hpre & Hr1).
  assert (∀ p, ActRemove p ∉ pre) as Hnorm.
  { intros p Hin. rewrite Forall_forall in Hpre.
    by destruct (Hpre _ Hin) as [? ?]. }
  destruct r1 as [[out nm]|e|]; [| |done].
  - destruct (attempt_extraction_outcome env self archive_path all_parts out nm w1)
      as (r & w' & -> & _ & Hif).
    cbn zeta in Hif.
    destruct (appendable env _ _).
    + destruct Hif as [-> Hif]. destruct (tool_exit_of _).
      * destruct Hif as (_ & Ht & _). eexists _, w', _. split_and!.
        -- done.
        -- rewrite Ht, Ht1, <-app_assoc. done.
        -- intros Hdel p. rewrite Hdel.
           intros [Hin|Hin]%elem_of_app; [by apply (Hnorm p)|].
           apply elem_of_cons in Hin as [Hin|Hin]; [done|].
           apply elem_of_cons in Hin as [Hin|Hin]; [done|].
           by apply elem_of_nil in Hin.
        -- exists out. rewrite execs_app, (execs_mkdirs pre Hpre). cbn.
           f_equal. unfold execs. cbn.
           destruct (delete_on_success self); [apply execs_removes|done].
      * destruct Hif as (_ & Ht & _). eexists _, w', _. split_and!.
        -- done.
        -- rewrite Ht, Ht1, <-app_assoc. done.
        -- intros _ p [Hin|Hin]%elem_of_app; [by apply (Hnorm p)|].
           apply elem_of_cons in Hin as [Hin|Hin]; [done|].
           apply elem_of_cons in Hin as [Hin|Hin]; [done|].
           by apply elem_of_nil in Hin.
        -- exists out. by rewrite execs_app, (execs_mkdirs pre Hpre).
      * destruct Hif as (_ & Ht & _). eexists _, w', _. split_and!.
        -- done.
        -- rewrite Ht, Ht1, <-app_assoc. done.
        -- intros _ p [Hin|Hin]%elem_of_app; [by apply (Hnorm p)|].
           apply elem_of_cons in Hin as [Hin|Hin]; [done|].
           apply elem_of_cons in Hin as [Hin|Hin]; [done|].
           by apply elem_of_nil in Hin.
        -- exists out. by rewrite execs_app, (execs_mkdirs pre Hpre).
    + destruct Hif as ([e ->] & _ & _ & Ht). eexists _, w', _. split_and!.
      * done.
      * rewrite Ht, Ht1, <-app_assoc. done.
      * intros _ p [Hin|Hin]%elem_of_app; [by apply (Hnorm p)|].
        apply elem_of_cons in Hin as [Hin|Hin]; [done|].
        destruct (tool_exit_of _);
          repeat (apply elem_of_cons in Hin as [Hin|Hin]; [done|]);
          by apply elem_of_nil in Hin.
      * split; [by eexists|].
        rewrite execs_app, (execs_mkdirs pre Hpre). cbn.
        destruct (tool_exit_of _); cbn; lia.
  - exists (Raise e), w1, pre. split_and!; [done|done|done|done|].
    rewrite (execs_mkdirs pre Hpre). cbn. lia.
Qed.

(** The test a command passes when it is the run of the tool for a set:
    it extracts the primary file of the set into some directory. *)
Lemma for_each_sets_runs (self : Unpacker) (name : string)
    (sets : Grouper.ArchiveSets) (w : World) :
  (∀ b file_list, (b, file_list) ∈ sets → file_list ≠ []) →
  ∃ r w' ext,
    for_each sets (fun '(base_name, file_list) =>
      match Grouper.primary_file file_list with
      | None => raise IndexError
      | Some primary_file =>
          logger_info ("Found archive set '" +:+ base_name +:+ "' with "
                       +:+ Py.str_nat (length file_list) +:+ " parts. Starting with '"
                       +:+ Pathlib.name primary_file +:+ "'.") ;;
          extract_archive env self primary_file file_list name
      end) w = (r, w')
    ∧ trace w' = trace w ++ ext
    ∧ (delete_on_success self = false → ∀ p, ActRemove p ∉ ext)
    ∧ match r with
      | Ok _ =>
          Forall2 (fun command set =>
                     ∃ primary out, Grouper.primary_file set.2 = Some primary
                                    ∧ command = command_line self primary out)
                  (execs ext) sets
      | Raise e => (∃ n, e = OSError n) ∧ length (execs ext) ≤ length sets
      | Diverge => False
      end.
Proof.
  revert w. induction sets as [|[b fl] sets IH]; intros w Hne.
  { exists (Ok tt), w, []. rewrite app_nil_r.
    split_and!; [done|done| |constructor].
    intros _ p. apply not_elem_of_nil. }
  cbn [for_each]. unfold mbind at 1, M_bind at 1.
  destruct (primary_file_some fl) as [primary Hprimary].
  { apply (Hne b). by left. }
  rewrite Hprimary.
  unfold mbind at 1, M_bind at 1, logger_info at 1, logger at 1.
  match goal with |- context [extract_archive env self primary fl name ?W] =>
    destruct (extract_archive_runs self primary fl name W)
      as (r1 & w1 & ext1 & -> & Ht1 & Hrm1 & Hr1) end.
  cbn [trace] in Ht1.
  destruct r1 as [[]|e|]; [| |done].
  - destruct (IH w1) as (r & w' & ext2 & -> & Ht2 & Hrm2 & Hr2).
    { intros b' fl' Hin. apply (Hne b'). by right. }
    exists r, w', (ext1 ++ ext2). split_and!.
    + done.
    + by rewrite Ht2, Ht1, <-app_assoc.
    + intros Hdel p [?|?]%elem_of_app; [by apply (Hrm1 Hdel p)|by apply (Hrm2 Hdel p)].
    + destruct Hr1 as [out Hex]. rewrite execs_app, Hex.
      destruct r as [[]|e|]; [| |done].
      * constructor; [|done]. by exists primary, out.
      * destruct Hr2 as [Hos Hlen]. split; [done|]. cbn. lia.
  - exists (Raise e), w1, ext1. destruct Hr1 as [Hos Hlen].
    split_and!; [done|done|done|done|]. cbn. lia.
Qed.

Lemma unpack_archives_runs (self : Unpacker) (path : Path) (w : World) :
  ∃ found r w' ext,
    find_archives path w = (Ok found, w)
    ∧ unpack_archives env self path w = (r, w')
    ∧ trace w' = trace w ++ ext
    ∧ (delete_on_success self = false → ∀ p, ActRemove p ∉ ext)
    ∧ match r with
      | Ok _ =>
          Forall2 (fun command set =>
                     ∃ primary out, Grouper.primary_file set.2 = Some primary
                                    ∧ command = command_line self primary out)
                  (execs ext) (Grouper.archive_sets found)
      | Raise e => (∃ n, e = OSError n)
                   ∧ length (execs ext) ≤ length (Grouper.archive_sets found)
      | Diverge => False
      end.
Proof.
  destruct (find_archives_elem path w) as (found & Hfound & _).
  exists found. unfold unpack_archives, mbind, M_bind. rewrite Hfound.
  destruct found as [|a found].
  - eexists _, _, []. split_and!; [done|done|by rewrite app_nil_r| |constructor].
    intros _ p. apply not_elem_of_nil.
  - destruct (for_each_sets_runs self (Pathlib.name path)
                (Grouper.archive_sets (a :: found)) w)
      as (r & w' & ext & Hrun & Hrest).
    { intros b fl Hin. by apply archive_sets_elem in Hin as [? _]. }
    exists r, w', ext. split; [done|]. split; [|done]. exact Hrun.
Qed.

End runs_facts.

(** ** Nothing disappears unless asked for *)

Global Instance keeps_preorder : PreOrder keeps.
Proof.
  split.
  - by intros w p.
  - intros w1 w2 w3 H12 H23 p Hp. by apply H23, H12.
Qed.

Section keeps_facts.

Context (env : Env).

Lemma keeps_same (w w' : World) : fs w' = fs w → keeps w w'.
Proof. intros Hfs p. by rewrite Hfs. Qed.

Lemma keeps_gui_put msg : respects keeps (gui_put msg).
Proof. intros w. by apply keeps_same. Qed.

Lemma keeps_logger l text : respects keeps (logger l text).
Proof. intros w. by apply keeps_same. Qed.

Lemma keeps_get_fs : respects keeps get_fs.
Proof. intros w. by apply keeps_same. Qed.

Lemma keeps_unique_output_dir parent base :
  respects keeps (unique_output_dir parent base).
Proof.
  intros w. unfold unique_output_dir.
  destruct (find_free_dir _ _ _ _ _ _); by apply keeps_same.
Qed.

Lemma keeps_mkdir p : respects keeps (mkdir env p).
Proof.
  intros w. unfold mkdir. cbn.
  repeat case_match; try (by apply keeps_same).
  intros q Hq. cbn. apply lookup_insert_is_Some'. by right.
Qed.

Lemma keeps_append_text file text : respects keeps (append_text env file text).
Proof.
  intros w. unfold append_text. cbn.
  repeat case_match; try (by apply keeps_same);
    intros q Hq; cbn; apply lookup_insert_is_Some'; by right.
Qed.

Lemma keeps_subprocess_run command out :
  respects keeps (subprocess_run env command out).
Proof.
  intros w. unfold subprocess_run. cbn.
  destruct (tool_exit_of _); try (by apply keeps_same);
    intros q Hq; cbn; by apply write_below_dom.
Qed.

Lemma keeps_log_extraction_event status name path :
  respects keeps (_log_extraction_event env status name path).
Proof.
  unfold _log_extraction_event.
  apply (respects_bind keeps); [apply keeps_append_text|].
  intros _. repeat case_match;
    first [apply keeps_gui_put|apply (respects_ret keeps)].
Qed.

Lemma keeps_extraction_handler archive_path out nm e :
  respects keeps (extraction_handler env archive_path out nm e).
Proof.
  unfold extraction_handler, logger_error.
  destruct e; repeat first
    [ apply keeps_log_extraction_event
    | apply keeps_logger
    | apply (respects_ret keeps)
    | apply (respects_bind keeps); [|intros ?]
    | case_match ].
Qed.

Lemma keeps_choose_destination self archive_path base :
  respects keeps (choose_destination env self archive_path base).
Proof.
  unfold choose_destination, logger_info.
  destruct (create_subfolder self); repeat first
    [ apply keeps_unique_output_dir
    | apply keeps_mkdir
    | apply keeps_logger
    | apply (respects_ret keeps)
    | apply (respects_bind keeps); [|intros ?] ].
Qed.

Lemma keeps_extract_archive self archive_path all_parts name :
  delete_on_success self = false →
  respects keeps (extract_archive env self archive_path all_parts name).
Proof.
  intros Hdel. unfold extract_archive.
  apply (respects_bind keeps); [apply keeps_choose_destination|].
  intros [out nm]. unfold attempt_extraction, extraction_body. rewrite Hdel.
  apply (respects_try_finally keeps).
  - apply (respects_try_except keeps); [|intros e; apply keeps_extraction_handler].
    unfold logger_info. repeat first
      [ apply keeps_gui_put
      | apply keeps_logger
      | apply keeps_subprocess_run
      | apply keeps_log_extraction_event
      | apply (respects_ret keeps)
      | apply (respects_bind keeps); [|intros ?] ].
  - apply (respects_bind keeps); [apply keeps_gui_put|].
    intros _. apply keeps_gui_put.
Qed.

(** Without [delete_on_success], whatever was there before
    [unpack_archives] is there afterwards. *)
Lemma keeps_unpack_archives self path :
  delete_on_success self = false →
  respects keeps (unpack_archives env self path).
Proof.
  intros Hdel. unfold unpack_archives, find_archives.
  apply (respects_bind keeps).
  { apply (respects_bind keeps); [apply keeps_get_fs|].
    intros m. repeat case_match; apply (respects_ret keeps). }
  intros found. destruct found as [|a found]; [apply keeps_logger|].
  apply (respects_for_each keeps). intros [b fl] _.
  destruct (Grouper.primary_file fl); [|apply (respects_raise keeps)].
  apply (respects_bind keeps); [apply keeps_logger|].
  intros _. by apply keeps_extract_archive.
Qed.

End keeps_facts.

(** ** Removing a tree *)

Global Instance shrinks_below_preorder (p : Path) : PreOrder (shrinks_below p).
Proof.
  split.
  - intros w. by split.
  - intros w1 w2 w3 [Hs12 H12] [Hs23 H23]. split.
    + by etrans.
    + intros k Hk. by rewrite H23, H12.
Qed.

#[global] Arguments rmtree_from : simpl never.

Section rmtree_facts.

Context (env : Env).

Lemma shrinks_below_mono (p q : Path) (w w' : World) :
  p `prefix_of` q → shrinks_below q w w' → shrinks_below p w w'.
Proof.
  intros Hpq [Hs H]. split; [done|]. intros k Hk. apply H.
  intros Hq. apply Hk. by etrans.
Qed.

Lemma shrinks_same (p : Path) (w w' : World) : fs w' = fs w → shrinks_below p w w'.
Proof. intros Hfs. split; [by rewrite Hfs|]. intros k _. by rewrite Hfs. Qed.

Lemma shrinks_delete (p q : Path) (w w' : World) :
  p `prefix_of` q → fs w' = delete q (fs w) → shrinks_below p w w'.
Proof.
  intros Hpq Hfs. split.
  - rewrite Hfs. apply delete_subseteq.
  - intros k Hk. rewrite Hfs. apply lookup_delete_ne. by intros ->.
Qed.

Lemma shrinks_os_remove (p q : Path) :
  p `prefix_of` q → respects (shrinks_below p) (os_remove env q).
Proof.
  intros Hpq w. destruct (os_remove_cases env q w) as [[_ ->]|[_ [e ->]]].
  - by apply (shrinks_delete p q).
  - by apply shrinks_same.
Qed.

Lemma shrinks_os_rmdir (p q : Path) :
  p `prefix_of` q → respects (shrinks_below p) (os_rmdir env q).
Proof.
  intros Hpq w. unfold os_rmdir.
  repeat case_match; try (by apply shrinks_same).
  by apply (shrinks_delete p (s :: l)).
Qed.

Lemma rmtree_from_unfold (d : nat) (p : Path) (w : World) :
  rmtree_from env (S d) p w
  = match Os.node_at (fs w) p with
    | None => (Raise (OSError ENOENT), w)
    | Some (File _) => (Raise (OSError ENOTDIR), w)
    | Some Dir =>
        (for_each (Os.scandir (fs w) p) (fun entry =>
           if Os.is_dir_node entry then rmtree_from env d (p ++ [entry.1])
           else os_remove env (p ++ [entry.1])) ;;
         os_rmdir env p) w
    end.
Proof.
  unfold rmtree_from at 1. fold (rmtree_from env d).
  unfold mbind at 1, M_bind at 1, get_fs.
  by destruct (Os.node_at (fs w) p) as [[c|]|].
Qed.

(** [rmtree] touches nothing but the tree it is given, and only removes. *)
Lemma shrinks_rmtree_from (d : nat) (p : Path) :
  respects (shrinks_below p) (rmtree_from env d p).
Proof.
  revert p. induction d as [|d IH]; intros p w.
  - by apply shrinks_same.
  - rewrite rmtree_from_unfold.
    destruct (Os.node_at (fs w) p) as [[c|]|]; try (by apply shrinks_same).
    assert (respects (shrinks_below p)
              (for_each (Os.scandir (fs w) p) (fun entry =>
                 if Os.is_dir_node entry then rmtree_from env d (p ++ [entry.1])
                 else os_remove env (p ++ [entry.1])) ;;
               os_rmdir env p)) as H; [|exact (H w)].
    apply (respects_bind (shrinks_below p)); [|intros _; by apply shrinks_os_rmdir].
    apply (respects_for_each (shrinks_below p)). intros [c' n] _ w0. cbn [fst].
    destruct (Os.is_dir_node (c', n)).
    + apply (shrinks_below_mono p (p ++ [c'])); [by apply prefix_app_r|]. apply IH.
    + apply shrinks_os_remove. by apply prefix_app_r.
Qed.

Lemma descendants_mono (m m' : gmap Path node) (q : Path) :
  m' ⊆ m → size (Os.descendants m' q) ≤ size (Os.descendants m q).
Proof.
  intros Hsub. apply subseteq_size. unfold Os.descendants.
  intros k [Hk Hdom]%elem_of_filter. apply elem_of_filter. split; [done|].
  by apply (subseteq_dom _ _ Hsub).
Qed.

Lemma os_rmdir_ends (p : Path) (w : World) : (os_rmdir env p w).1 ≠ Diverge.
Proof. unfold os_rmdir. by repeat case_match. Qed.

Lemma os_remove_ends (p : Path) (w : World) : (os_remove env p w).1 ≠ Diverge.
Proof. by destruct (os_remove_cases env p w) as [[_ ->]|[_ [e ->]]]. Qed.

(** With a depth above the number of entries below [p], the removal ends. *)
Lemma rmtree_from_ends (d : nat) (p : Path) (w : World) :
  size (Os.descendants (fs w) p) < d → (rmtree_from env d p w).1 ≠ Diverge.
Proof.
  revert p w. induction d as [|d IH]; intros p w Hd; [lia|].
  rewrite rmtree_from_unfold.
  destruct (Os.node_at (fs w) p) as [[c|]|]; [done| |done].
  assert (∀ (l : list (string * node)) (w0 : World),
    (∀ e, e ∈ l → e ∈ Os.scandir (fs w) p) → fs w0 ⊆ fs w →
    ∃ r w1, for_each l (fun entry =>
              if Os.is_dir_node entry then rmtree_from env d (p ++ [entry.1])
              else os_remove env (p ++ [entry.1])) w0 = (r, w1)
            ∧ r ≠ Diverge) as Hloop.
  { induction l as [|[c' n] l IHl]; intros w0 Hl Hsub.
    - by exists (Ok tt), w0.
    - cbn [for_each]. unfold mbind at 1, M_bind at 1. cbn [fst].
      assert (∃ r1 w1, (if Os.is_dir_node (c', n)
                        then rmtree_from env d (p ++ [c'])
                        else os_remove env (p ++ [c'])) w0 = (r1, w1)
                       ∧ r1 ≠ Diverge ∧ fs w1 ⊆ fs w0) as (r1 & w1 & -> & Hr1 & Hsub1).
      { destruct (Os.is_dir_node (c', n)).
        - destruct (rmtree_from env d (p ++ [c']) w0) as [r1 w1] eqn:E.
          exists r1, w1. split_and!; [done| |].
          + pose proof (IH (p ++ [c']) w0) as Hne. rewrite E in Hne. apply Hne.
            assert (fs w !! (p ++ [c']) = Some n) as Hn.
            { apply scandir_lookup, Hl. by left. }
            pose proof (descendants_child (fs w) p c' n Hn).
            pose proof (descendants_mono (fs w) (fs w0) (p ++ [c']) Hsub). lia.
          + pose proof (shrinks_rmtree_from d (p ++ [c']) w0) as [Hs _].
            by rewrite E in Hs.
        - destruct (os_remove env (p ++ [c']) w0) as [r1 w1] eqn:E.
          exists r1, w1. split_and!; [done| |].
          + pose proof (os_remove_ends (p ++ [c']) w0) as Hne. by rewrite E in Hne.
          + pose proof (shrinks_os_remove (p ++ [c']) (p ++ [c']) (reflexivity _) w0)
              as [Hs _].
            by rewrite E in Hs. }
      destruct r1 as [[]|e|]; [|by eexists _, _|done].
      apply IHl.
      + intros e He. apply Hl. by right.
      + by etrans. }
  destruct (Hloop (Os.scandir (fs w) p) w) as (r & w1 & Hrun & Hr); [done|done|].
  unfold mbind, M_bind. rewrite Hrun.
  destruct r as [[]|e|]; [apply os_rmdir_ends|done|done].
Qed.

End rmtree_facts.

(** ** Paths written as text and read back *)

Section path_text_facts.

Lemma split_slash_plain (s : string) :
  Py.lacks "/" s = true → PathText.split_slash s = [s].
Proof.
  induction s as [|c s IH]; [done|]. cbn.
  intros [Hc Hs]%andb_true_iff. apply negb_true_iff in Hc.
  by rewrite Hc, (IH Hs).
Qed.

Lemma split_slash_app (s r : string) :
  Py.lacks "/" s = true →
  PathText.split_slash (s +:+ String "/" r) = s :: PathText.split_slash r.
Proof.
  induction s as [|c s IH]; intros Hs.
  - rewrite str_app_nil_l. cbn.
    by rewrite (proj2 (eqb_char_true "/" "/") eq_refl).
  - rewrite str_app_cons. cbn in Hs |- *.
    apply andb_true_iff in Hs as [Hc Hs]. apply negb_true_iff in Hc.
    by rewrite Hc, (IH Hs).
Qed.

Lemma str_concat_cons (x : string) (l : list string) :
  String.concat "" (x :: l) = x +:+ String.concat "" l.
Proof. apply (str_concat_app [x] l). Qed.

Lemma split_slash_joined (c : string) (p : Path) :
  Py.lacks "/" c = true → Forall (fun x => Py.lacks "/" x = true) p →
  PathText.split_slash (c +:+ String.concat "" (List.map (fun x => "/" +:+ x) p))
  = c :: p.
Proof.
  intros Hc Hp. revert c Hc. induction Hp as [|x p Hx Hp IH]; intros c Hc.
  - cbn. rewrite str_app_nil_r. by apply split_slash_plain.
  - cbn [List.map]. rewrite str_concat_cons.
    rewrite str_app_assoc, str_app_cons, str_app_nil_l.
    rewrite split_slash_app by done. by rewrite IH.
Qed.

Lemma plain_parts (c : string) :
  PathText.plain c = true → PathText.kept c = true ∧ Py.lacks "/" c = true.
Proof. unfold PathText.plain. by intros [? ?]%andb_true_iff. Qed.

Lemma filter_kept (p : Path) :
  Forall (fun c => PathText.plain c = true) p → List.filter PathText.kept p = p.
Proof.
  induction 1 as [|c p Hc Hp IH]; [done|]. cbn.
  apply plain_parts in Hc as [-> _]. by rewrite IH.
Qed.

Lemma parts_str (p : Path) :
  Forall (fun c => PathText.plain c = true) p →
  PathText.parts (Pathlib.str p) = p.
Proof.
  intros Hp. destruct p as [|c p]; [done|].
  rewrite str_nonroot by done. unfold PathText.parts.
  rewrite <-(str_app_nil_l (String.concat _ _)).
  rewrite split_slash_joined; [|done|].
  - cbn [List.filter]. change (PathText.kept "") with false. cbn.
    by apply (filter_kept (c :: p)).
  - eapply Forall_impl; [exact Hp|]. intros x Hx. by apply plain_parts in Hx as [_ ?].
Qed.

Lemma root_str (p : Path) :
  Forall (fun c => PathText.plain c = true) p →
  PathText.root (Pathlib.str p) = "/".
Proof.
  intros Hp. destruct p as [|c p]; [done|].
  rewrite str_nonroot by done. cbn [List.map]. rewrite str_concat_cons.
  apply Forall_cons in Hp as [Hc _]. apply plain_parts in Hc as [Hk Hs].
  destruct c as [|a c]; [done|].
  rewrite str_app_cons, str_app_nil_l, !str_app_cons.
  cbn in Hs. apply andb_true_iff in Hs as [Ha _].
  apply negb_true_iff, eqb_char_false in Ha.
  unfold PathText.root.
  destruct a as [[] [] [] [] [] [] [] []]; try done.
Qed.

Lemma entry_str (cwd : Path) (p : Path) :
  Forall (fun c => PathText.plain c = true) p →
  PathText.entry cwd (Pathlib.str p) = p.
Proof.
  intros Hp. unfold PathText.entry. rewrite root_str by done.
  by apply parts_str.
Qed.

End path_text_facts.

(** ** The window *)

Section window_facts.

Lemma mirrors_handle_message (app : Gui) (msg : gui_msg) :
  mirrors app → mirrors (handle_message app msg).
Proof.
  unfold mirrors. intros Hm. destruct msg; cbn; try done.
  - by rewrite !fmap_app, Hm.
  - by rewrite !fmap_app, Hm.
Qed.

Lemma mirrors_foldl (queue : list gui_msg) (app : Gui) :
  mirrors app → mirrors (foldl handle_message app queue).
Proof.
  revert app. induction queue as [|msg queue IH]; intros app Hm; [done|].
  cbn. by apply IH, mirrors_handle_message.
Qed.

End window_facts.

(** ** Removing a whole tree *)

Section rmtree_whole.

Context (env : Env).

Lemma parent_prefix (k : Path) : Pathlib.parent k `prefix_of` k.
Proof.
  unfold Pathlib.parent. destruct (decide (k = [])) as [->|Hne]; [done|].
  exists [List.last k ""]. by apply app_removelast_last.
Qed.

Lemma well_formed_parent (m : gmap Path node) (k : Path) :
  well_formed m → is_Some (m !! k) → Os.node_at m (Pathlib.parent k) = Some Dir.
Proof. intros Hwf [n Hn]. exact (proj1 (Hwf k n Hn)). Qed.

Lemma well_formed_names (m : gmap Path node) (k : Path) :
  well_formed m → is_Some (m !! k) →
  Forall (fun c => PathText.proper_name c = true) k.
Proof. intros Hwf [n Hn]. exact (proj2 (Hwf k n Hn)). Qed.

(** In a well-formed file system whatever lies above an entry is a
    directory. *)
Lemma well_formed_above (m : gmap Path node) (q rel : Path) :
  well_formed m → q ≠ [] → rel ≠ [] → is_Some (m !! (q ++ rel)) →
  m !! q = Some Dir.
Proof.
  intros Hwf Hq. induction rel as [|c rel IH] using rev_ind; [done|].
  intros _ Hk. apply (well_formed_parent m _ Hwf) in Hk.
  unfold Pathlib.parent in Hk. rewrite app_assoc, removelast_last in Hk.
  assert (Os.node_at m (q ++ rel) = m !! (q ++ rel)) as Hnode.
  { by destruct q. }
  rewrite Hnode in Hk.
  destruct rel as [|c' rel]; [by rewrite app_nil_r in Hk|].
  apply IH; [done|]. by rewrite Hk.
Qed.

(** The file system without the trees at [roots]. *)
Lemma well_formed_without (m m' : gmap Path node) (roots : list Path) :
  well_formed m →
  (∀ k, m' !! k = if decide (Exists (fun q => q `prefix_of` k) roots)
                  then None else m !! k) →
  well_formed m'.
Proof.
  intros Hwf Hm' k n Hk. cbn.
  rewrite Hm' in Hk. destruct (decide (Exists _ roots)) as [|Hno]; [done|].
  pose proof (Hwf k n Hk) as [Hp Hnames]. cbn in Hp. split; [|done].
  destruct (Pathlib.parent k) as [|c q] eqn:E; [done|]. cbn in Hp |- *.
  rewrite Hm'. rewrite decide_False; [done|].
  intros Hex. apply Hno. apply Exists_exists in Hex as (r & Hr & Hpre).
  apply Exists_exists. exists r. split; [done|].
  etrans; [exact Hpre|]. rewrite <-E. apply parent_prefix.
Qed.

Lemma scandir_names_NoDup (m : gmap Path node) (d : Path) :
  NoDup (Os.scandir m d).*1.
Proof.
  unfold Os.scandir.
  pose proof (NoDup_fst_map_to_list m) as Hnd.
  induction (map_to_list m) as [|[k n] l IH]; [constructor|].
  cbn in Hnd. apply NoDup_cons in Hnd as [Hk Hnd]. cbn [omap list_omap].
  destruct (List.rev k) as [|c r] eqn:Er; [by apply IH|].
  destruct (decide (k = d ++ [c])) as [->|]; [|by apply IH].
  cbn. apply NoDup_cons. split; [|by apply IH].
  intros ([c' n'] & Hc & Hin)%list_elem_of_fmap. cbn in Hc. subst c'.
  apply list_elem_of_omap in Hin as ([k' n''] & Hin & Hf).
  destruct (List.rev k') as [|c'' r'']; [done|].
  destruct (decide (k' = d ++ [c''])) as [->|]; [|done].
  injection Hf as -> ->. apply Hk. apply list_elem_of_fmap. by exists (d ++ [c], n').
Qed.

Lemma child_prefix_child (p : Path) (c c' : string) :
  (p ++ [c]) `prefix_of` (p ++ [c']) → c = c'.
Proof.
  intros [k Hk]. rewrite <-app_assoc in Hk. apply app_inv_head in Hk.
  by injection Hk as <-.
Qed.

Lemma child_not_above (p : Path) (c : string) : ¬ (p ++ [c]) `prefix_of` p.
Proof.
  intros Hpre%prefix_length. rewrite length_app in Hpre. cbn in Hpre. lia.
Qed.

Lemma below_child (p k : Path) :
  p `prefix_of` k → p ≠ k → ∃ c rel, k = (p ++ [c]) ++ rel.
Proof.
  intros [rel ->] Hne. destruct rel as [|c rel]; [by rewrite app_nil_r in Hne|].
  exists c, rel. by rewrite <-app_assoc.
Qed.

End rmtree_whole.

Section rmtree_removes.

Context (env : Env).

(** On a well-formed file system where nothing at or below [p] is
    refused, removing the tree at the directory [p] succeeds and takes
    away exactly the entries at or below [p]. *)
Lemma rmtree_from_removes (d : nat) (p : Path) (w : World) :
  well_formed (fs w) → fs w !! p = Some Dir → p ≠ [] →
  (∀ k, p `prefix_of` k → refused env k = false) →
  size (Os.descendants (fs w) p) < d →
  ∃ w', rmtree_from env d p w = (Ok tt, w')
        ∧ ∀ k, fs w' !! k = if decide (p `prefix_of` k) then None else fs w !! k.
Proof.
  revert p w. induction d as [|d IH]; intros p w Hwf Hp Hne Href Hd; [lia|].
  rewrite rmtree_from_unfold.
  assert (Os.node_at (fs w) p = Some Dir) as -> by (by destruct p).
  set (body := fun entry : string * node =>
                 if Os.is_dir_node entry then rmtree_from env d (p ++ [entry.1])
                 else os_remove env (p ++ [entry.1])).
  set (roots := fun es : list (string * node) =>
                  (fun e : string * node => p ++ [e.1]) <$> es).
  assert (∀ es2 es1 w0, Os.scandir (fs w) p = es1 ++ es2 →
     (∀ k, fs w0 !! k = if decide (Exists (fun q => q `prefix_of` k) (roots es1))
                        then None else fs w !! k) →
     ∃ w1, for_each es2 body w0 = (Ok tt, w1)
           ∧ ∀ k, fs w1 !! k
                  = if decide (Exists (fun q => q `prefix_of` k) (roots (es1 ++ es2)))
                    then None else fs w !! k) as Hloop.
  { induction es2 as [|[c n] es2 IHes]; intros es1 w0 Hes Hw0.
    { exists w0. split; [done|]. by rewrite app_nil_r. }
    cbn [for_each]. unfold mbind at 1, M_bind at 1.
    set (q := p ++ [c]).
    assert (fs w !! q = Some n) as Hq.
    { apply scandir_lookup. rewrite Hes. apply elem_of_app. right. left. }
    assert (¬ Exists (fun r => r `prefix_of` q) (roots es1)) as Hfresh.
    { intros (r & Hr & Hpre)%Exists_exists.
      apply list_elem_of_fmap in Hr as ([c1 n1] & -> & Hin1). cbn in Hpre.
      apply child_prefix_child in Hpre as ->.
      pose proof (scandir_names_NoDup (fs w) p) as Hnd.
      rewrite Hes, fmap_app in Hnd. apply NoDup_app in Hnd as (_ & Hdis & _).
      apply (Hdis c).
      - apply list_elem_of_fmap. by exists (c, n1).
      - cbn. left. }
    assert (fs w0 !! q = Some n) as Hq0.
    { rewrite Hw0. by rewrite decide_False. }
    assert (fs w0 ⊆ fs w) as Hsub.
    { apply map_subseteq_spec. intros k x Hk. rewrite Hw0 in Hk.
      by destruct (decide _). }
    assert (well_formed (fs w0)) as Hwf0
      by (by apply (well_formed_without (fs w) _ (roots es1))).
    assert (q ≠ []) as Hqne by (unfold q; by destruct p).
    assert (∃ w1, body (c, n) w0 = (Ok tt, w1)
                  ∧ ∀ k, fs w1 !! k = if decide (q `prefix_of` k) then None
                                      else fs w0 !! k) as (w1 & -> & Hw1).
    { unfold body. cbn [fst]. fold q. destruct n as [content|]; cbn.
      - destruct (os_remove_cases env q w0) as [[_ ->]|[Hrm _]].
        + eexists. split; [done|]. intros k. cbn. rewrite lookup_delete.
          destruct (decide (q = k)) as [<-|Hqk]; [by rewrite decide_True|].
          destruct (decide (q `prefix_of` k)) as [Hpre|]; [|done].
          destruct (fs w0 !! k) as [x|] eqn:Ek; [|done]. exfalso.
          destruct Hpre as [rel ->].
          assert (fs w0 !! q = Some Dir) as Hdir; [|congruence].
          apply (well_formed_above (fs w0) q rel); [done|done| |by rewrite Ek].
          intros ->. by rewrite app_nil_r in Hqk.
        + exfalso. unfold removable, Os.is_file in Hrm.
          assert (Os.node_at (fs w0) q = fs w0 !! q) as Hnode
            by (unfold q; by destruct p).
          rewrite Hnode, Hq0, Href in Hrm; [done|].
          unfold q. by apply prefix_app_r.
      - apply IH; [done|done|done| |].
        + intros k Hk. apply Href. etrans; [|exact Hk].
          unfold q. by apply prefix_app_r.
        + pose proof (descendants_child (fs w) p c Dir Hq).
          pose proof (descendants_mono (fs w) (fs w0) q Hsub). fold q in H. lia. }
    destruct (IHes (es1 ++ [(c, n)]) w1) as (w2 & Hrun & Hw2).
    { by rewrite <-app_assoc. }
    { intros k. rewrite Hw1, Hw0. unfold roots. rewrite fmap_app. cbn [fmap list_fmap fst].
      fold q. fold (roots es1).
      destruct (decide (q `prefix_of` k)) as [Hqk|Hqk].
      - rewrite decide_True; [done|]. apply Exists_app. right. by left.
      - destruct (decide (Exists _ (roots es1))) as [Hex|Hex].
        + rewrite decide_True; [done|]. apply Exists_app. by left.
        + rewrite decide_False; [done|].
          intros [?|Hin]%Exists_app; [done|].
          apply Exists_cons in Hin as [?|Hin]; [done|]. by apply Exists_nil in Hin. }
    exists w2. split; [done|]. intros k. rewrite Hw2. by rewrite <-app_assoc. }
  destruct (Hloop (Os.scandir (fs w) p) [] w) as (w1 & Hrun & Hw1); [done| |].
  { intros k. rewrite decide_False; [done|]. by intros ?%Exists_nil. }
  cbn [app] in Hw1.
  unfold mbind, M_bind. fold body. rewrite Hrun.
  assert (fs w1 !! p = Some Dir) as Hp1.
  { rewrite Hw1, decide_False; [done|].
    intros (r & Hr & Hpre)%Exists_exists.
    apply list_elem_of_fmap in Hr as ([c n] & -> & _). by apply child_not_above in Hpre. }
  assert (∀ k, p `prefix_of` k → p ≠ k → fs w1 !! k = None) as Hbelow.
  { intros k Hpk Hne'. rewrite Hw1.
    destruct (decide (Exists _ _)) as [|Hno]; [done|].
    destruct (fs w !! k) as [x|] eqn:Ek; [|done]. exfalso. apply Hno.
    destruct (below_child p k Hpk Hne') as (c & rel & ->).
    assert (is_Some (fs w !! (p ++ [c]))) as [n Hn].
    { destruct rel as [|c' rel]; [rewrite app_nil_r in Ek; by eexists|].
      exists Dir. apply (well_formed_above (fs w) (p ++ [c]) (c' :: rel));
        [done|by destruct p|done|by rewrite Ek]. }
    apply Exists_exists. exists (p ++ [c]). split; [|by apply prefix_app_r].
    apply list_elem_of_fmap. exists (c, n). split; [done|]. by apply scandir_elem. }
  assert (Os.scandir (fs w1) p = []) as Hempty.
  { destruct (Os.scandir (fs w1) p) as [|[c n] l] eqn:E; [done|]. exfalso.
    assert ((c, n) ∈ Os.scandir (fs w1) p) as Hin by (rewrite E; left).
    apply scandir_lookup in Hin. rewrite Hbelow in Hin; [done|by apply prefix_app_r|].
    intros Heq. apply (f_equal length) in Heq. rewrite length_app in Heq.
    cbn in Heq. lia. }
  unfold os_rmdir. destruct p as [|c0 p0]; [done|].
  rewrite Hp1, Hempty, Href by done.
  eexists. split; [done|]. intros k. cbn [fs set_fs]. rewrite lookup_delete.
  destruct (decide (c0 :: p0 = k)) as [<-|Hne'].
  - by rewrite decide_True.
  - destruct (decide (c0 :: p0 `prefix_of` k)) as [Hpre|Hpre].
    + by apply Hbelow.
    + rewrite Hw1, decide_False; [done|].
      intros (r & Hr & Hrk)%Exists_exists.
      apply list_elem_of_fmap in Hr as ([c n] & -> & _). apply Hpre.
      etrans; [|exact Hrk]. by apply prefix_app_r.
Qed.

End rmtree_removes.

(** ** Where a path leads *)

Section locate_facts.

Lemma node_at_sub (m m' : gmap Path node) (p : Path) (n : node) :
  m' ⊆ m → Os.node_at m' p = Some n → Os.node_at m p = Some n.
Proof.
  intros Hsub. destruct p as [|c p]; [done|]. cbn.
  intros H. by apply (lookup_weaken _ _ _ _ H).
Qed.

(** A walk that succeeds in a part of the file system succeeds in the
    whole of it, and arrives at the same place. *)
Lemma locate_sub (m m' : gmap Path node) (components : list string) (from p : Path) :
  m' ⊆ m → locate m' from components = inr p → locate m from components = inr p.
Proof.
  intros Hsub. revert from.
  induction components as [|c rest IH]; intros from; [done|].
  cbn [locate]. destruct (Os.node_at m' from) as [[content|]|] eqn:E; [done| |done].
  rewrite (node_at_sub m m' from Dir Hsub E). apply IH.
Qed.

(** Without [..] the walk goes down by the names it is given. *)
Lemma locate_names (m : gmap Path node) (components : list string) (from p : Path) :
  ".." ∉ components → locate m from components = inr p → p = from ++ components.
Proof.
  revert from. induction components as [|c rest IH]; intros from Hno.
  - cbn. intros [= <-]. by rewrite app_nil_r.
  - cbn [locate]. destruct (Os.node_at m from) as [[content|]|]; [done| |done].
    rewrite bool_decide_eq_false_2.
    2:{ intros ->. apply Hno. left. }
    intros H. apply IH in H; [|intros Hin; apply Hno; by right].
    by rewrite H, <-app_assoc.
Qed.

(** In a well-formed file system the walk finds every entry that is named
    without [..]. *)
Lemma locate_entry (m : gmap Path node) (components : list string) (from : Path) :
  well_formed m → ".." ∉ components → components ≠ [] →
  is_Some (m !! (from ++ components)) →
  locate m from components = inr (from ++ components).
Proof.
  intros Hwf. revert from.
  induction components as [|c rest IH]; intros from Hno Hne Hk; [done|].
  cbn [locate].
  assert (Os.node_at m from = Some Dir) as ->.
  { destruct from as [|c0 from]; [done|]. cbn.
    by apply (well_formed_above m (c0 :: from) (c :: rest)). }
  rewrite bool_decide_eq_false_2.
  2:{ intros ->. apply Hno. left. }
  destruct rest as [|c' rest]; [done|].
  rewrite IH; [by rewrite <-app_assoc| |done|by rewrite <-app_assoc].
  intros Hin. apply Hno. by right.
Qed.

Lemma entry_start (cwd : Path) (s : string) :
  PathText.entry cwd s = PathText.start cwd s ++ PathText.parts s.
Proof. unfold PathText.entry, PathText.start. by destruct (PathText.root s). Qed.

Context (cwd : Path).

Lemma reach_sub (m m' : gmap Path node) (s : string) (p : Path) :
  m' ⊆ m → reach cwd m' s = inr p → reach cwd m s = inr p.
Proof.
  intros Hsub. unfold reach. destruct (Py.lacks PathText.NUL s); [|done].
  destruct (locate m' _ _) as [e|q] eqn:E; [done|]. intros [= ->].
  by rewrite (locate_sub m m' _ _ p Hsub E).
Qed.

Lemma ordinary_parts (s : string) :
  PathText.ordinary s = true →
  Py.lacks PathText.NUL s = true ∧ PathText.parts s ≠ [] ∧ ".." ∉ PathText.parts s.
Proof.
  unfold PathText.ordinary. intros H.
  apply andb_true_iff in H as [H H3]. apply andb_true_iff in H as [H1 H2].
  apply negb_true_iff, bool_decide_eq_false in H2.
  apply negb_true_iff, bool_decide_eq_false in H3. done.
Qed.

(** An ordinary path leads to the entry it names, if to anything. *)
Lemma reach_ordinary (m : gmap Path node) (s : string) (p : Path) :
  PathText.ordinary s = true → reach cwd m s = inr p → p = PathText.entry cwd s.
Proof.
  intros (Hnul & Hne & Hno)%ordinary_parts. unfold reach. rewrite Hnul.
  destruct (locate m _ _) as [e|q] eqn:E; [done|]. intros [= ->].
  rewrite entry_start. by apply (locate_names m).
Qed.

Lemma reach_entry (m : gmap Path node) (s : string) :
  well_formed m → PathText.ordinary s = true →
  is_Some (m !! PathText.entry cwd s) →
  reach cwd m s = inr (PathText.entry cwd s).
Proof.
  intros Hwf (Hnul & Hne & Hno)%ordinary_parts Hk. unfold reach. rewrite Hnul.
  rewrite entry_start in Hk |- *. by rewrite locate_entry.
Qed.

Lemma entry_nonroot (s : string) :
  PathText.parts s ≠ [] → PathText.entry cwd s ≠ [].
Proof.
  intros Hne. rewrite entry_start. intros [_ ?]%app_eq_nil. done.
Qed.

End locate_facts.

(** ** What a removal leaves in order *)

Global Instance stays_well_formed_preorder : PreOrder stays_well_formed.
Proof.
  split; [intros w H; exact H|]. intros w1 w2 w3 H12 H23 H. by apply H23, H12.
Qed.

Section stays_facts.

Context (env : Env).

Lemma stays_same (w w' : World) : fs w' = fs w → stays_well_formed w w'.
Proof. intros Hfs Hwf. by rewrite Hfs. Qed.

(** Taking away an entry that has nothing below it. *)
Lemma well_formed_delete_leaf (m : gmap Path node) (q : Path) :
  well_formed m → (∀ c, m !! (q ++ [c]) = None) → well_formed (delete q m).
Proof.
  intros Hwf Hleaf k n Hk.
  apply lookup_delete_Some in Hk as [Hne Hk].
  destruct (Hwf k n Hk) as [Hp Hnames]. split; [|done].
  destruct (Pathlib.parent k) as [|c0 q0] eqn:E; [done|]. cbn in Hp |- *.
  rewrite lookup_delete_ne; [done|]. intros Heq.
  assert (k ≠ []) as Hk0 by (intros ->; done).
  pose proof (app_removelast_last "" Hk0) as Hlast.
  unfold Pathlib.parent in E. rewrite E, <-Heq in Hlast.
  rewrite Hlast, Hleaf in Hk. done.
Qed.

Lemma stays_os_remove (q : Path) : respects stays_well_formed (os_remove env q).
Proof.
  intros w. destruct (os_remove_cases env q w) as [[Hrm ->]|[_ [e ->]]];
    [|by apply stays_same].
  intros Hwf. cbn. apply well_formed_delete_leaf; [done|]. intros c.
  destruct (fs w !! (q ++ [c])) as [n|] eqn:E; [|done]. exfalso.
  pose proof (well_formed_parent (fs w) (q ++ [c]) Hwf) as Hp.
  unfold Pathlib.parent in Hp. rewrite removelast_last in Hp.
  unfold removable, Os.is_file in Hrm.
  rewrite Hp in Hrm by (by eexists). done.
Qed.

Lemma stays_os_rmdir (q : Path) : respects stays_well_formed (os_rmdir env q).
Proof.
  intros w. unfold os_rmdir.
  destruct q as [|c0 q0]; [by apply stays_same|].
  destruct (fs w !! (c0 :: q0)) as [[content|]|]; try (by apply stays_same).
  destruct (Os.scandir (fs w) (c0 :: q0)) as [|e l] eqn:E; [|by apply stays_same].
  destruct (refused env (c0 :: q0)); [by apply stays_same|].
  intros Hwf. cbn. apply well_formed_delete_leaf; [done|]. intros c.
  destruct (fs w !! ((c0 :: q0) ++ [c])) as [n|] eqn:En; [|done].
  apply scandir_elem in En. rewrite E in En. by apply elem_of_nil in En.
Qed.

Lemma stays_rmtree_from (d : nat) (p : Path) :
  respects stays_well_formed (rmtree_from env d p).
Proof.
  revert p. induction d as [|d IH]; intros p w.
  - by apply stays_same.
  - rewrite rmtree_from_unfold.
    destruct (Os.node_at (fs w) p) as [[c|]|]; try (by apply stays_same).
    assert (respects stays_well_formed
              (for_each (Os.scandir (fs w) p) (fun entry =>
                 if Os.is_dir_node entry then rmtree_from env d (p ++ [entry.1])
                 else os_remove env (p ++ [entry.1])) ;;
               os_rmdir env p)) as H; [|exact (H w)].
    apply (respects_bind stays_well_formed); [|intros _; by apply stays_os_rmdir].
    apply (respects_for_each stays_well_formed). intros [c' n] _ w0. cbn [fst].
    destruct (Os.is_dir_node (c', n)); [apply IH|apply stays_os_remove].
Qed.

Lemma empty_from_unfold (d : nat) (p : Path) (w : World) :
  empty_from env d p w
  = match Os.node_at (fs w) p with
    | None => (Raise (OSError ENOENT), w)
    | Some (File _) => (Raise (OSError ENOTDIR), w)
    | Some Dir =>
        for_each (Os.scandir (fs w) p) (fun entry =>
          if Os.is_dir_node entry then rmtree_from env d (p ++ [entry.1])
          else os_remove env (p ++ [entry.1])) w
    end.
Proof.
  unfold empty_from. unfold mbind at 1, M_bind at 1, get_fs.
  by destruct (Os.node_at (fs w) p) as [[c|]|].
Qed.

(** Removing a sub-directory is emptying it and removing what is left. *)
Lemma rmtree_from_empty (d : nat) (p : Path) (w : World) :
  rmtree_from env (S d) p w = (empty_from env d p ;; os_rmdir env p) w.
Proof.
  rewrite rmtree_from_unfold. unfold mbind at 2, M_bind at 2.
  rewrite empty_from_unfold.
  by destruct (Os.node_at (fs w) p) as [[c|]|].
Qed.

Lemma stays_empty_from (d : nat) (p : Path) :
  respects stays_well_formed (empty_from env d p).
Proof.
  intros w. rewrite empty_from_unfold.
  destruct (Os.node_at (fs w) p) as [[c|]|]; try (by apply stays_same).
  assert (respects stays_well_formed
            (for_each (Os.scandir (fs w) p) (fun entry =>
               if Os.is_dir_node entry then rmtree_from env d (p ++ [entry.1])
               else os_remove env (p ++ [entry.1])))) as H; [|exact (H w)].
  apply (respects_for_each stays_well_formed). intros [c' n] _ w0. cbn [fst].
  destruct (Os.is_dir_node (c', n)); [apply stays_rmtree_from|apply stays_os_remove].
Qed.

Lemma shrinks_empty_from (d : nat) (p : Path) :
  respects (shrinks_below p) (empty_from env d p).
Proof.
  intros w. rewrite empty_from_unfold.
  destruct (Os.node_at (fs w) p) as [[c|]|]; try (by apply shrinks_same).
  assert (respects (shrinks_below p)
            (for_each (Os.scandir (fs w) p) (fun entry =>
               if Os.is_dir_node entry then rmtree_from env d (p ++ [entry.1])
               else os_remove env (p ++ [entry.1])))) as H; [|exact (H w)].
  apply (respects_for_each (shrinks_below p)). intros [c' n] _ w0. cbn [fst].
  destruct (Os.is_dir_node (c', n)).
  - apply (shrinks_below_mono p (p ++ [c'])); [by apply prefix_app_r|].
    apply shrinks_rmtree_from.
  - apply shrinks_os_remove. by apply prefix_app_r.
Qed.

Lemma empty_from_ends (d : nat) (p : Path) (w : World) :
  size (Os.descendants (fs w) p) ≤ d → (empty_from env d p w).1 ≠ Diverge.
Proof.
  intros Hd Hdiv.
  apply (rmtree_from_ends env (S d) p w); [lia|].
  rewrite rmtree_from_empty. unfold mbind, M_bind.
  by destruct (empty_from env d p w) as [[[]|e|] w1].
Qed.

Lemma descendants_size (m : gmap Path node) (p : Path) :
  size (Os.descendants m p) ≤ size m.
Proof.
  rewrite <-size_dom. apply subseteq_size. unfold Os.descendants.
  intros k [_ ?]%elem_of_filter. done.
Qed.

Lemma empty_directory_ends (p : Path) (w : World) :
  (empty_directory env p w).1 ≠ Diverge.
Proof.
  unfold empty_directory. apply empty_from_ends.
  pose proof (descendants_size (fs w) p). lia.
Qed.

Lemma shrinks_empty_directory (p : Path) :
  respects (shrinks_below p) (empty_directory env p).
Proof. intros w. apply shrinks_empty_from. Qed.

Lemma stays_empty_directory (p : Path) :
  respects stays_well_formed (empty_directory env p).
Proof. intros w. apply stays_empty_from. Qed.

(** On a well-formed file system where nothing below [p] is refused,
    emptying the directory [p] succeeds and takes away exactly what lies
    below it. *)
Lemma empty_directory_removes (p : Path) (w : World) :
  well_formed (fs w) → fs w !! p = Some Dir → p ≠ [] →
  (∀ k, p `prefix_of` k → refused env k = false) →
  ∃ w1, empty_directory env p w = (Ok tt, w1)
        ∧ ∀ k, fs w1 !! k
               = if decide (p `prefix_of` k ∧ p ≠ k) then None else fs w !! k.
Proof.
  intros Hwf Hp Hne Href. unfold empty_directory.
  destruct (rmtree_from_removes env (S (S (size (fs w)))) p w Hwf Hp Hne Href)
    as (w' & Hrun & Hw').
  { pose proof (descendants_size (fs w) p). lia. }
  rewrite rmtree_from_empty in Hrun. unfold mbind, M_bind in Hrun.
  destruct (empty_from env (S (size (fs w))) p w) as [[[]|e|] w1]; [|done|done].
  exists w1. split; [done|].
  unfold os_rmdir in Hrun. destruct p as [|c0 p0]; [done|].
  destruct (fs w1 !! (c0 :: p0)) as [[content|]|] eqn:E1; [done| |done].
  destruct (Os.scandir (fs w1) (c0 :: p0)); [|done].
  destruct (refused env (c0 :: p0)); [done|].
  injection Hrun as <-. cbn [fs set_fs] in Hw'.
  intros k. destruct (decide (c0 :: p0 = k)) as [<-|Hk].
  - rewrite decide_False by (by intros [_ ?]). by rewrite E1, Hp.
  - specialize (Hw' k). rewrite lookup_delete_ne in Hw' by done. rewrite Hw'.
    destruct (decide (c0 :: p0 `prefix_of` k)).
    + by rewrite decide_True.
    + rewrite decide_False; [done|]. by intros [? _].
Qed.

End stays_facts.

(** ** Deleting what the history records *)

Section delete_facts.

Context (env : Env).

Lemma reach_same (m : gmap Path node) (m' : gmap Path node) (s : string) (p p' : Path) :
  m' ⊆ m → reach (cwd env) m s = inr p → reach (cwd env) m' s = inr p' → p' = p.
Proof.
  intros Hsub Hp Hp'. apply (reach_sub (cwd env) m m' s p' Hsub) in Hp'. congruence.
Qed.

(** [os.rmdir] of a path: it ends, adds nothing, and can only remove the
    place the path leads to. *)
Lemma rmdir_path_spec (s : string) (w : World) :
  ∃ r w',
    rmdir_path env s w = (r, w') ∧ r ≠ Diverge
    ∧ stays_well_formed w w' ∧ fs w' ⊆ fs w
    ∧ ∀ k, (∀ p, reach (cwd env) (fs w) s = inr p → ¬ p `prefix_of` k) →
        fs w' !! k = fs w !! k.
Proof.
  unfold rmdir_path. destruct (reach (cwd env) (fs w) s) as [e|p] eqn:E.
  { eexists _, w. split; [done|]. split_and!; first [done|by apply stays_same]. }
  repeat case_bool_decide.
  1,2: eexists _, w; split; [done|]; split_and!; first [done|by apply stays_same].
  destruct (os_rmdir env p w) as [r w'] eqn:Erm. exists r, w'.
  pose proof (os_rmdir_ends env p w) as Hends.
  pose proof (stays_os_rmdir env p w) as Hstays.
  pose proof (shrinks_os_rmdir env p p (reflexivity _) w) as [Hsub Hout].
  rewrite Erm in Hends, Hstays, Hsub, Hout. cbn in *.
  split_and!; try done. intros k Hk. apply Hout. by apply Hk.
Qed.

Lemma remove_path_spec (s : string) (w : World) :
  ∃ r w',
    remove_path env s w = (r, w') ∧ r ≠ Diverge
    ∧ stays_well_formed w w' ∧ fs w' ⊆ fs w
    ∧ ∀ k, (∀ p, reach (cwd env) (fs w) s = inr p → ¬ p `prefix_of` k) →
        fs w' !! k = fs w !! k.
Proof.
  unfold remove_path. destruct (reach (cwd env) (fs w) s) as [e|p] eqn:E.
  { eexists _, w. split; [done|]. split_and!; first [done|by apply stays_same]. }
  destruct (os_remove env p w) as [r w'] eqn:Erm. exists r, w'.
  pose proof (os_remove_ends env p w) as Hends.
  pose proof (stays_os_remove env p w) as Hstays.
  pose proof (shrinks_os_remove env p p (reflexivity _) w) as [Hsub Hout].
  rewrite Erm in Hends, Hstays, Hsub, Hout. cbn in *.
  split_and!; try done. intros k Hk. apply Hout. by apply Hk.
Qed.

(** [shutil.rmtree] of a path: it ends, adds nothing, and removes nothing
    but what lies at or below the place the path leads to. *)
Lemma rmtree_path_spec (s : string) (w : World) :
  ∃ r w',
    rmtree_path env s w = (r, w') ∧ r ≠ Diverge
    ∧ stays_well_formed w w' ∧ fs w' ⊆ fs w
    ∧ ∀ k, (∀ p, reach (cwd env) (fs w) s = inr p → ¬ p `prefix_of` k) →
        fs w' !! k = fs w !! k.
Proof.
  unfold rmtree_path. destruct (reach (cwd env) (fs w) s) as [e|p] eqn:E.
  { eexists _, w. split; [done|]. split_and!; first [done|by apply stays_same]. }
  unfold mbind, M_bind.
  pose proof (empty_directory_ends env p w) as Hends.
  pose proof (stays_empty_directory env p w) as Hstays.
  pose proof (shrinks_empty_directory env p w) as [Hsub Hout].
  destruct (empty_directory env p w) as [[[]|e|] w1]; cbn in *; [| |done].
  - destruct (rmdir_path_spec s w1) as (r & w' & -> & Hr & Hst & Hsub' & Hout').
    exists r, w'. split_and!; [done|done| |by etrans|].
    + by trans w1.
    + intros k Hk. rewrite Hout', Hout; [done|by apply Hk|].
      intros p' Hp'. rewrite (reach_same _ _ s p p' Hsub E Hp'). by apply Hk.
  - eexists _, _. split_and!; try done. intros k Hk. apply Hout. by apply Hk.
Qed.

(** One record: the body of the loop never raises; it removes nothing but
    what lies at or below the place the recorded path leads to, and adds
    one to one of the counters at most. *)
Lemma delete_recorded_spec (path_str : string) (d f : nat) (w : World) :
  ∃ d' f' w',
    delete_recorded env path_str (d, f) w = (Ok (d', f'), w')
    ∧ stays_well_formed w w' ∧ fs w' ⊆ fs w
    ∧ (∀ k, (∀ p, reach (cwd env) (fs w) path_str = inr p → ¬ p `prefix_of` k) →
         fs w' !! k = fs w !! k)
    ∧ d ≤ d' ∧ f ≤ f' ∧ d' + f' ≤ d + f + 1.
Proof.
  unfold delete_recorded.
  unfold try_except, mbind at 1, M_bind at 1, get_fs.
  destruct (path_is_dir (cwd env) (fs w) path_str).
  - unfold mbind at 1, M_bind at 1.
    destruct (rmtree_path_spec path_str w) as (r & w1 & -> & Hr & Hst & Hsub & Hout).
    destruct r as [[]|e|]; [| |done].
    + eexists _, _, _. split; [reflexivity|]. cbn. split_and!; [done|done|done|lia..].
    + eexists _, _, _. split; [reflexivity|]. cbn. split_and!; [done|done|done|lia..].
  - destruct (path_exists (cwd env) (fs w) path_str).
    + unfold mbind at 1, M_bind at 1.
      destruct (remove_path_spec path_str w) as (r & w1 & -> & Hr & Hst & Hsub & Hout).
      destruct r as [[]|e|]; [| |done].
      * eexists _, _, _. split; [reflexivity|]. cbn. split_and!; [done|done|done|lia..].
      * eexists _, _, _. split; [reflexivity|]. cbn. split_and!; [done|done|done|lia..].
    + eexists _, _, _. split; [reflexivity|].
      split_and!; [by apply stays_same|done|done|lia..].
Qed.

(** The whole loop. *)
Lemma delete_history_spec (history : list History.record) (d f : nat) (w : World) :
  ∃ d' f' w',
    delete_history env history (d, f) w = (Ok (d', f'), w')
    ∧ stays_well_formed w w' ∧ fs w' ⊆ fs w
    ∧ (∀ k, (∀ r p, r ∈ history → reach (cwd env) (fs w) r.2 = inr p →
               ¬ p `prefix_of` k) →
         fs w' !! k = fs w !! k)
    ∧ d ≤ d' ∧ f ≤ f' ∧ d' + f' ≤ d + f + length history.
Proof.
  revert d f w. induction history as [|[[status name] path_str] history IH];
    intros d f w.
  - exists d, f, w. split_and!; [done|by apply stays_same|done|done|lia..].
  - cbn [delete_history]. unfold mbind at 1, M_bind at 1.
    destruct (delete_recorded_spec path_str d f w)
      as (d1 & f1 & w1 & -> & Hst1 & Hsub1 & Hout1 & Hd1 & Hf1 & Hsum1).
    destruct (IH d1 f1 w1)
      as (d2 & f2 & w2 & -> & Hst2 & Hsub2 & Hout2 & Hd2 & Hf2 & Hsum2).
    exists d2, f2, w2.
    split_and!; [done|by trans w1|by etrans| |lia|lia|cbn; lia].
    intros k Hk. rewrite Hout2, Hout1; [done| |].
    + intros p Hp. apply (Hk (status, name, path_str)); [by left|done].
    + intros r p Hr Hp. apply (Hk r p); [by right|].
      by apply (reach_sub (cwd env) (fs w) (fs w1)).
Qed.

(** Removing the history file at the end. *)
Lemma remove_history_file (w : World) :
  ∃ r w',
    (if Os.exists_ (fs w) (EXTRACTION_LOG_FILE env)
     then os_remove env (EXTRACTION_LOG_FILE env) else mret tt) w = (r, w')
    ∧ fs w' ⊆ fs w
    ∧ (∀ k, k ≠ EXTRACTION_LOG_FILE env → fs w' !! k = fs w !! k)
    ∧ gui_queue w' = gui_queue w
    ∧ processed_torrents w' = processed_torrents w
    ∧ match r with
      | Ok _ => fs w' !! EXTRACTION_LOG_FILE env = None
      | Raise e => (∃ n, e = OSError n) ∧ fs w' = fs w
                   ∧ is_Some (fs w !! EXTRACTION_LOG_FILE env)
      | Diverge => False
      end.
Proof.
  unfold Os.exists_. rewrite log_file_node.
  destruct (fs w !! EXTRACTION_LOG_FILE env) as [n|] eqn:E.
  - rewrite bool_decide_eq_true_2 by (by eexists).
    destruct (os_remove_cases env (EXTRACTION_LOG_FILE env) w)
      as [[_ ->]|[_ [e ->]]].
    + eexists _, _. split; [done|]. cbn. split_and!; try done.
      * apply delete_subseteq.
      * intros k Hk. by apply lookup_delete_ne.
      * apply lookup_delete_eq.
    + eexists _, _. split; [done|]. cbn.
      split_and!; [done|done|done|done|by eexists|done|by eexists].
  - rewrite bool_decide_eq_false_2 by (by intros [? ?]).
    eexists _, _. split; [done|]. by split_and!.
Qed.

(** [_delete_all_data] once the word was typed. *)
Lemma delete_all_data_confirmed (app : Gui) (w : World) :
  ∃ r w' d f,
    _delete_all_data env (Some "DELETE!") app w = (r, cleared app, w')
    ∧ fs w' ⊆ fs w
    ∧ (∀ k, (∀ rec p, rec ∈ extraction_history app →
               reach (cwd env) (fs w) rec.2 = inr p → ¬ p `prefix_of` k) →
         k ≠ EXTRACTION_LOG_FILE env → fs w' !! k = fs w !! k)
    ∧ d + f ≤ length (extraction_history app)
    ∧ match r with
      | Ok msg => msg = summary_msg d f ∧ fs w' !! EXTRACTION_LOG_FILE env = None
      | Raise e => (∃ n, e = OSError n) ∧ is_Some (fs w' !! EXTRACTION_LOG_FILE env)
      | Diverge => False
      end.
Proof.
  unfold _delete_all_data. rewrite bool_decide_eq_true_2 by done.
  unfold mbind at 1, M_bind at 1, logger_info at 1, logger at 1.
  match goal with |- context [delete_history env _ _ ?W] =>
    destruct (delete_history_spec (extraction_history app) 0 0 W)
      as (d & f & w1 & -> & _ & Hsub1 & Hout1 & _ & _ & Hsum) end.
  cbn [fs] in Hsub1, Hout1.
  unfold mbind at 1, M_bind at 1, get_fs. unfold mbind at 1, M_bind at 1.
  destruct (remove_history_file w1) as (r & w2 & -> & Hsub2 & Hout2 & _ & _ & Hr).
  assert (∀ k, (∀ rec p, rec ∈ extraction_history app →
                  reach (cwd env) (fs w) rec.2 = inr p → ¬ p `prefix_of` k) →
            k ≠ EXTRACTION_LOG_FILE env → fs w2 !! k = fs w !! k) as Hout.
  { intros k Hk Hlog. by rewrite Hout2, Hout1. }
  destruct r as [[]|e|]; [| |done].
  - unfold mbind, M_bind, logger_info, logger. cbn.
    eexists _, _, d, f. split; [reflexivity|]. cbn.
    split_and!; [by etrans|done|lia|done|done].
  - destruct Hr as (Hos & Hfs & Hsome).
    eexists _, _, d, f. split; [reflexivity|].
    split_and!; [by etrans|done|lia|done|by rewrite Hfs].
Qed.

(** Anything else typed, or the dialog closed: nothing happens. *)
Lemma delete_all_data_cancelled (response : option string) (app : Gui) (w : World) :
  response ≠ Some "DELETE!" →
  _delete_all_data env response app w
  = (Ok "Deletion cancelled. No files were changed.", app, w).
Proof. intros Hr. unfold _delete_all_data. by rewrite bool_decide_eq_false_2. Qed.

End delete_facts.

(** ** Deleting everything, when nothing is in the way *)

Section delete_clean.

Context (env : Env).

Lemma last_elem (l : list string) : l ≠ [] → List.last l "" ∈ l.
Proof.
  intros Hne. rewrite (app_removelast_last "" Hne) at 2.
  apply elem_of_app. right. left.
Qed.

(** A record with an ordinary path: what it names is gone afterwards. *)
Lemma delete_recorded_gone (path_str : string) (d f : nat) (w : World) :
  well_formed (fs w) → (∀ k, refused env k = false) →
  PathText.ordinary path_str = true →
  ∃ d' f' w',
    delete_recorded env path_str (d, f) w = (Ok (d', f'), w')
    ∧ fs w' !! PathText.entry (cwd env) path_str = None.
Proof.
  intros Hwf Href Hord.
  pose proof (ordinary_parts path_str Hord) as (Hnul & Hne & Hno).
  set (p := PathText.entry (cwd env) path_str).
  assert (p ≠ []) as Hp0 by (by apply entry_nonroot).
  assert (Os.node_at (fs w) p = fs w !! p) as Hnode by (by destruct p).
  unfold delete_recorded.
  unfold try_except, mbind at 1, M_bind at 1, get_fs.
  unfold path_is_dir, path_exists.
  destruct (fs w !! p) as [[content|]|] eqn:E.
  - assert (reach (cwd env) (fs w) path_str = inr p) as Hreach.
    { apply reach_entry; [done|done|]. eexists. exact E. }
    rewrite Hreach. unfold Os.is_dir, Os.exists_. rewrite Hnode.
    rewrite bool_decide_eq_false_2 by done.
    rewrite bool_decide_eq_true_2 by (by eexists).
    unfold mbind at 1, M_bind at 1. unfold remove_path. rewrite Hreach.
    destruct (os_remove_cases env p w) as [[_ ->]|[Hrm _]].
    + eexists _, _, _. split; [reflexivity|]. cbn. apply lookup_delete_eq.
    + exfalso. unfold removable, Os.is_file in Hrm.
      by rewrite Hnode, Href in Hrm.
  - assert (reach (cwd env) (fs w) path_str = inr p) as Hreach.
    { apply reach_entry; [done|done|]. eexists. exact E. }
    rewrite Hreach. unfold Os.is_dir. rewrite Hnode.
    rewrite bool_decide_eq_true_2 by done.
    unfold mbind at 1, M_bind at 1. unfold rmtree_path. rewrite Hreach.
    unfold mbind at 1, M_bind at 1.
    destruct (empty_directory_removes env p w Hwf E Hp0) as (w1 & Hrun & Hw1).
    { intros k _. apply Href. }
    pose proof (stays_empty_directory env p w Hwf) as Hwf1.
    rewrite Hrun in Hwf1 |- *. cbn in Hwf1.
    assert (fs w1 !! p = Some Dir) as Hp1.
    { rewrite Hw1, decide_False; [done|]. by intros [_ ?]. }
    assert (Os.scandir (fs w1) p = []) as Hempty.
    { destruct (Os.scandir (fs w1) p) as [|[c n] l] eqn:Es; [done|]. exfalso.
      assert ((c, n) ∈ Os.scandir (fs w1) p) as Hin by (rewrite Es; left).
      apply scandir_lookup in Hin. rewrite Hw1, decide_True in Hin; [done|].
      split; [by apply prefix_app_r|].
      intros Heq. apply (f_equal length) in Heq. rewrite length_app in Heq.
      cbn in Heq. lia. }
    unfold rmdir_path.
    assert (reach (cwd env) (fs w1) path_str = inr p) as ->.
    { apply reach_entry; [done|done|]. eexists. exact Hp1. }
    rewrite bool_decide_eq_false_2 by done.
    rewrite bool_decide_eq_false_2.
    2:{ intros Hlast. apply Hno. rewrite <-Hlast. by apply last_elem. }
    unfold os_rmdir. destruct p as [|c0 p0] eqn:Ep; [done|].
    rewrite Hp1, Hempty, Href.
    eexists _, _, _. split; [reflexivity|]. cbn. apply lookup_delete_eq.
  - assert (Os.is_dir (fs w) p = false ∧ Os.exists_ (fs w) p = false) as [Hd He].
    { unfold Os.is_dir, Os.exists_. rewrite Hnode.
      split; apply bool_decide_eq_false_2; [done|by intros [? ?]]. }
    destruct (reach (cwd env) (fs w) path_str) as [e|q] eqn:Er.
    + eexists _, _, _. split; [reflexivity|]. done.
    + apply (reach_ordinary (cwd env) (fs w) path_str q Hord) in Er as ->.
      fold p. rewrite Hd, He.
      eexists _, _, _. split; [reflexivity|]. done.
Qed.

(** After the loop every record with an ordinary path names nothing. *)
Lemma delete_history_gone (history : list History.record) (d f : nat) (w : World) :
  well_formed (fs w) → (∀ k, refused env k = false) →
  ∃ d' f' w',
    delete_history env history (d, f) w = (Ok (d', f'), w')
    ∧ well_formed (fs w') ∧ fs w' ⊆ fs w
    ∧ (∀ r, r ∈ history → PathText.ordinary r.2 = true →
         fs w' !! PathText.entry (cwd env) r.2 = None)
    ∧ d' + f' ≤ d + f + length history.
Proof.
  intros Hwf Href. revert d f w Hwf.
  induction history as [|[[status name] path_str] history IH]; intros d f w Hwf.
  - exists d, f, w. split_and!; [done|done|done| |lia]. by intros r ?%elem_of_nil.
  - cbn [delete_history]. unfold mbind at 1, M_bind at 1.
    destruct (delete_recorded_spec env path_str d f w)
      as (d1 & f1 & w1 & Hrun1 & Hst1 & Hsub1 & _ & _ & _ & Hsum1).
    rewrite Hrun1.
    destruct (IH d1 f1 w1 (Hst1 Hwf)) as (d2 & f2 & w2 & -> & Hwf2 & Hsub2 & Hgone2 & Hsum2).
    exists d2, f2, w2. split_and!; [done|done|by etrans| |cbn; lia].
    intros r [->|Hr]%elem_of_cons Hord; [|by apply Hgone2]. cbn in Hord |- *.
    destruct (delete_recorded_gone path_str d f w Hwf Href Hord)
      as (d1' & f1' & w1' & Hrun1' & Hgone1).
    rewrite Hrun1 in Hrun1'. injection Hrun1' as <- <- <-.
    destruct (fs w2 !! PathText.entry (cwd env) path_str) as [x|] eqn:E; [|done].
    apply (lookup_weaken _ _ _ _ E) in Hsub2. congruence.
Qed.

Lemma remove_history_file_ok (w : World) :
  refused env (EXTRACTION_LOG_FILE env) = false →
  fs w !! EXTRACTION_LOG_FILE env ≠ Some Dir →
  ∃ w',
    (if Os.exists_ (fs w) (EXTRACTION_LOG_FILE env)
     then os_remove env (EXTRACTION_LOG_FILE env) else mret tt) w = (Ok tt, w')
    ∧ fs w' = delete (EXTRACTION_LOG_FILE env) (fs w)
    ∧ stays_well_formed w w'.
Proof.
  intros Href Hdir. unfold Os.exists_. rewrite log_file_node.
  destruct (fs w !! EXTRACTION_LOG_FILE env) as [[content|]|] eqn:E; [| done |].
  - rewrite bool_decide_eq_true_2 by (by eexists).
    pose proof (stays_os_remove env (EXTRACTION_LOG_FILE env) w) as Hst.
    destruct (os_remove_cases env (EXTRACTION_LOG_FILE env) w)
      as [[_ Hrun]|[Hrm _]].
    + rewrite Hrun in Hst |- *. by eexists.
    + unfold removable, Os.is_file in Hrm.
      by rewrite log_file_node, E, Href in Hrm.
  - rewrite bool_decide_eq_false_2 by (by intros [? ?]).
    eexists. split; [done|]. split; [by rewrite delete_id|by apply stays_same].
Qed.

(** In a well-formed file system nothing lies below what is not there. *)
Lemma nothing_below (m : gmap Path node) (q k : Path) :
  well_formed m → q ≠ [] → m !! q = None → q `prefix_of` k → m !! k = None.
Proof.
  intros Hwf Hq Hnone [rel ->].
  destruct rel as [|c rel]; [by rewrite app_nil_r|].
  destruct (m !! (q ++ c :: rel)) as [x|] eqn:E; [|done]. exfalso.
  assert (m !! q = Some Dir) as Hdir; [|congruence].
  apply (well_formed_above m q (c :: rel)); [done|done|done|by rewrite E].
Qed.

Lemma delete_all_data_clean (app : Gui) (w : World) :
  well_formed (fs w) → (∀ k, refused env k = false) →
  fs w !! EXTRACTION_LOG_FILE env ≠ Some Dir →
  ∃ d f w',
    _delete_all_data env (Some "DELETE!") app w
    = (Ok (summary_msg d f), cleared app, w')
    ∧ (∀ r k, r ∈ extraction_history app → PathText.ordinary r.2 = true →
         PathText.entry (cwd env) r.2 `prefix_of` k → fs w' !! k = None)
    ∧ fs w' !! EXTRACTION_LOG_FILE env = None
    ∧ fs w' ⊆ fs w
    ∧ d + f ≤ length (extraction_history app)
    ∧ well_formed (fs w').
Proof.
  intros Hwf Href Hlog.
  unfold _delete_all_data. rewrite bool_decide_eq_true_2 by done.
  unfold mbind at 1, M_bind at 1, logger_info at 1, logger at 1.
  match goal with |- context [delete_history env _ _ ?W] =>
    destruct (delete_history_gone (extraction_history app) 0 0 W)
      as (d & f & w1 & -> & Hwf1 & Hsub1 & Hgone1 & Hsum); [done|done|] end.
  cbn [fs] in Hsub1.
  unfold mbind at 1, M_bind at 1, get_fs. unfold mbind at 1, M_bind at 1.
  destruct (remove_history_file_ok w1) as (w2 & -> & Hfs2 & Hst2); [done| |].
  { intros Hdir. apply Hlog. by apply (lookup_weaken _ _ _ _ Hdir). }
  unfold mbind, M_bind, logger_info, logger. cbn.
  eexists d, f, _. split; [reflexivity|]. cbn.
  pose proof (Hst2 Hwf1) as Hwf2.
  split_and!.
  - intros r k Hin Hord Hpre.
    pose proof (ordinary_parts r.2 Hord) as (_ & Hne & _).
    apply (nothing_below (fs w2) (PathText.entry (cwd env) r.2)); try done.
    + by apply entry_nonroot.
    + rewrite Hfs2.
      destruct (delete _ _ !! _) as [x|] eqn:E; [|done].
      apply lookup_delete_Some in E as [_ E]. by rewrite Hgone1 in E.
  - rewrite Hfs2. apply lookup_delete_eq.
  - rewrite Hfs2. etrans; [apply delete_subseteq|done].
  - lia.
  - done.
Qed.

End delete_clean.

(** ** The history in the window and in the file *)

Section history_window.

Context (env : Env).

Lemma clear_history_confirmed (app : Gui) (w : World) :
  ∃ r w',
    _clear_extraction_history env true app w = (r, cleared app, w')
    ∧ (∀ k, k ≠ EXTRACTION_LOG_FILE env → fs w' !! k = fs w !! k)
    ∧ gui_queue w' = gui_queue w
    ∧ processed_torrents w' = processed_torrents w
    ∧ match r with
      | Ok _ => fs w' !! EXTRACTION_LOG_FILE env = None
      | Raise e => (∃ n, e = OSError n) ∧ fs w' = fs w
                   ∧ is_Some (fs w !! EXTRACTION_LOG_FILE env)
      | Diverge => False
      end.
Proof.
  unfold _clear_extraction_history.
  unfold mbind at 1, M_bind at 1, get_fs. unfold mbind at 1, M_bind at 1.
  destruct (remove_history_file env w) as (r & w1 & -> & _ & Hout & Hq & Hp & Hr).
  destruct r as [[]|e|]; [| |done].
  - unfold logger_info, logger. eexists _, _. split; [reflexivity|]. done.
  - eexists _, _. split; [reflexivity|]. done.
Qed.

Lemma load_missing (w : World) :
  fs w !! EXTRACTION_LOG_FILE env = None →
  _load_extraction_history env w = (Ok [], w).
Proof.
  intros Hnone. unfold _load_extraction_history, Os.exists_.
  rewrite log_file_node, Hnone. by rewrite bool_decide_eq_false_2 by (by intros [? ?]).
Qed.

Lemma load_file (w : World) (content : string) :
  fs w !! EXTRACTION_LOG_FILE env = Some (File content) →
  _load_extraction_history env w = (Ok (History.load content), w).
Proof.
  intros Hfile. unfold _load_extraction_history, Os.exists_.
  rewrite log_file_node, Hfile. by rewrite bool_decide_eq_true_2 by (by eexists).
Qed.

Lemma lines_snoc (rs : list History.record) (r : History.record) :
  String.concat "" (List.map History.line_of (rs ++ [r]))
  = String.concat "" (List.map History.line_of rs) +:+ History.line_of r.
Proof. by rewrite List.map_app, str_concat_app. Qed.

(** The five messages of an attempt, read by the window. *)
Lemma poll_attempt (app : Gui) (status_text : string) (outcome : gui_msg) :
  (∃ name path, outcome = MsgExtractionSuccess name path
                ∨ outcome = MsgExtractionFailure name path) →
  let app' := foldl handle_message app
                [MsgStatus status_text; MsgProgress "start"; outcome;
                 MsgProgress "stop"; MsgStatus "Monitoring..."] in
  extraction_history app'
  = extraction_history app
    ++ [match outcome with
        | MsgExtractionFailure name path => ("FAILURE", name, path)
        | MsgExtractionSuccess name path => ("SUCCESS", name, path)
        | _ => ("", "", "")
        end]
  ∧ progress_bar app' = false
  ∧ status_label app' = "Monitoring...".
Proof.
  intros (name & path & [-> | ->]); cbn;
    rewrite decide_False by done; rewrite decide_True by done; done.
Qed.

End history_window.

Section in_sync.

Context (env : Env).

Lemma storable_failure (name path : string) :
  History.storable ("SUCCESS", name, path) = true →
  History.storable ("FAILURE", name, path) = true.
Proof.
  unfold History.storable.
  rewrite (bool_decide_eq_true_2 ("SUCCESS" = "SUCCESS")) by done.
  rewrite (bool_decide_eq_false_2 ("FAILURE" = "SUCCESS")) by done.
  by rewrite (bool_decide_eq_true_2 ("FAILURE" = "FAILURE")) by done.
Qed.

(** An attempt and the next reading of the queue keep the window and the
    history file in step. *)
Lemma attempt_keeps_in_sync (self : Unpacker) (archive_path : Path)
    (all_parts : list Path) (out : Path) (nm : string) (app : Gui) (w : World) :
  let command := command_line self archive_path out in
  let after := fs_after_tool env command out (fs w) in
  let history := EXTRACTION_LOG_FILE env in
  gui_queue w = [] →
  Os.content_of (fs w) history
  = String.concat "" (List.map History.line_of (extraction_history app)) →
  Forall (fun r => History.storable r = true) (extraction_history app) →
  History.storable ("SUCCESS", nm, Pathlib.str out) = true →
  appendable env after history = true →
  ¬ out `prefix_of` history → history ∉ all_parts →
  ∃ w' status,
    attempt_extraction env self archive_path all_parts out nm w = (Ok tt, w')
    ∧ (status = "SUCCESS" ∧ tool_exit_of (seven_zip env command (fs w)) = Exit0
       ∨ status = "FAILURE" ∧ tool_exit_of (seven_zip env command (fs w)) ≠ Exit0)
    ∧ let app' := (_poll_gui_queue app w').1 in
      let w'' := (_poll_gui_queue app w').2 in
      extraction_history app'
      = extraction_history app ++ [(status, nm, Pathlib.str out)]
      ∧ _load_extraction_history env w'' = (Ok (extraction_history app'), w'')
      ∧ Os.content_of (fs w'') history
        = String.concat "" (List.map History.line_of (extraction_history app'))
      ∧ progress_bar app' = false ∧ status_label app' = "Monitoring..."
      ∧ gui_queue w'' = [].
Proof.
  cbn zeta. intros Hq0 Hcontent Hstor Hnew Happ Hout Hparts.
  destruct (attempt_extraction_outcome env self archive_path all_parts out nm w)
    as (r & w' & -> & _ & Hif).
  cbn zeta in Hif. rewrite Happ in Hif. destruct Hif as [-> Hif].
  assert (Os.content_of (fs_after_tool env (command_line self archive_path out) out (fs w))
            (EXTRACTION_LOG_FILE env)
          = String.concat "" (List.map History.line_of (extraction_history app)))
    as Hafter.
  { rewrite <-Hcontent. unfold Os.content_of. rewrite !log_file_node.
    rewrite fs_after_tool_lookup; [done|by left]. }
  rewrite Hafter in Hif.
  assert (∀ status outcome,
    status = "SUCCESS" ∨ status = "FAILURE" →
    outcome = (if decide (status = "SUCCESS")
               then MsgExtractionSuccess nm (Pathlib.str out)
               else MsgExtractionFailure nm (Pathlib.str out)) →
    gui_queue w' = gui_queue w
      ++ [MsgStatus ("Extracting: " +:+ Pathlib.name archive_path); MsgProgress "start"]
      ++ [outcome] ++ [MsgProgress "stop"; MsgStatus "Monitoring..."] →
    fs w' !! EXTRACTION_LOG_FILE env
    = Some (File (String.concat "" (List.map History.line_of (extraction_history app))
                  +:+ History.line_of (status, nm, Pathlib.str out))) →
    let app' := (_poll_gui_queue app w').1 in
    let w'' := (_poll_gui_queue app w').2 in
    extraction_history app'
    = extraction_history app ++ [(status, nm, Pathlib.str out)]
    ∧ _load_extraction_history env w'' = (Ok (extraction_history app'), w'')
    ∧ Os.content_of (fs w'') (EXTRACTION_LOG_FILE env)
      = String.concat "" (List.map History.line_of (extraction_history app'))
    ∧ progress_bar app' = false ∧ status_label app' = "Monitoring..."
    ∧ gui_queue w'' = []) as Hgo.
  { intros status outcome Hst -> Hq Hfile. cbn zeta.
    unfold _poll_gui_queue. cbn [fst snd fs gui_queue].
    rewrite Hq, Hq0. cbn [List.app].
    assert (History.storable (status, nm, Pathlib.str out) = true) as Hst'.
    { destruct Hst as [-> | ->]; [done|by apply storable_failure]. }
    match goal with |- context [foldl handle_message app ?q] =>
      destruct (poll_attempt app ("Extracting: " +:+ Pathlib.name archive_path)
                  (if decide (status = "SUCCESS")
                   then MsgExtractionSuccess nm (Pathlib.str out)
                   else MsgExtractionFailure nm (Pathlib.str out)))
        as (Hh & Hbar & Hlabel)
    end.
    { exists nm, (Pathlib.str out).
      destruct Hst as [-> | ->]; [left|right].
      - by rewrite decide_True.
      - by rewrite decide_False. }
    cbn zeta in Hh, Hbar, Hlabel. rewrite Hh, Hbar, Hlabel.
    assert ((match (if decide (status = "SUCCESS")
                    then MsgExtractionSuccess nm (Pathlib.str out)
                    else MsgExtractionFailure nm (Pathlib.str out))
             with
             | MsgExtractionFailure name path => ("FAILURE", name, path)
             | MsgExtractionSuccess name path => ("SUCCESS", name, path)
             | _ => ("", "", "")
             end) = (status, nm, Pathlib.str out)) as ->.
    { destruct Hst as [-> | ->].
      - by rewrite decide_True.
      - by rewrite decide_False. }
    split_and!; try done.
    - erewrite load_file by (cbn [fs]; exact Hfile).
      rewrite <-lines_snoc, load_lines; [done|].
      apply Forall_app. split; [done|]. by constructor.
    - unfold Os.content_of. rewrite log_file_node. cbn [fs]. rewrite Hfile.
      by rewrite lines_snoc. }
  destruct (tool_exit_of _) as [|stderr|e0] eqn:Hexit.
  - destruct Hif as (Hq & _ & Hfs). exists w', "SUCCESS".
    split; [done|]. split; [by left|].
    apply (Hgo "SUCCESS" (MsgExtractionSuccess nm (Pathlib.str out)));
      [by left|by rewrite decide_True|done|].
    rewrite Hfs. rewrite (bool_decide_eq_false_2 (_ ∈ all_parts)) by done.
    rewrite andb_false_r. cbn. apply lookup_insert_eq.
  - destruct Hif as (Hq & _ & Hfs). exists w', "FAILURE".
    split; [done|]. split; [by right|].
    apply (Hgo "FAILURE" (MsgExtractionFailure nm (Pathlib.str out)));
      [by right|by rewrite decide_False|done|].
    rewrite Hfs. apply lookup_insert_eq.
  - destruct Hif as (Hq & _ & Hfs). exists w', "FAILURE".
    split; [done|]. split; [by right|].
    apply (Hgo "FAILURE" (MsgExtractionFailure nm (Pathlib.str out)));
      [by right|by rewrite decide_False|done|].
    rewrite Hfs. apply lookup_insert_eq.
Qed.

End in_sync.

(** ** From the record of an extraction to its removal *)

Section recorded_deleted.

Context (env : Env).

Lemma proper_name_parts (c : string) :
  PathText.proper_name c = true →
  PathText.plain c = true ∧ c ≠ ".." ∧ Py.lacks PathText.NUL c = true.
Proof.
  unfold PathText.proper_name. intros H.
  apply andb_true_iff in H as [H H3]. apply andb_true_iff in H as [H1 H2].
  apply negb_true_iff, bool_decide_eq_false in H2. done.
Qed.

Lemma str_lacks_NUL (p : Path) :
  Forall (fun c => Py.lacks PathText.NUL c = true) p →
  Py.lacks PathText.NUL (Pathlib.str p) = true.
Proof.
  intros Hp. destruct p as [|c0 p0]; [done|]. rewrite str_nonroot by done.
  induction Hp as [|c p Hc Hp IH]; [done|].
  cbn [List.map]. rewrite str_concat_cons, !lacks_app, Hc, IH. done.
Qed.

(** The text of a path made of proper names is an ordinary path. *)
Lemma ordinary_str (p : Path) :
  Forall (fun c => PathText.proper_name c = true) p → p ≠ [] →
  PathText.ordinary (Pathlib.str p) = true.
Proof.
  intros Hp Hne. unfold PathText.ordinary.
  assert (Forall (fun c => PathText.plain c = true) p) as Hplain.
  { eapply Forall_impl; [exact Hp|]. intros c Hc.
    exact (proj1 (proper_name_parts c Hc)). }
  rewrite parts_str by done. rewrite str_lacks_NUL.
  2:{ eapply Forall_impl; [exact Hp|]. intros c Hc.
      exact (proj2 (proj2 (proper_name_parts c Hc))). }
  rewrite bool_decide_eq_false_2 by done.
  rewrite bool_decide_eq_false_2; [done|].
  intros Hin. rewrite Forall_forall in Hp. apply Hp in Hin.
  by apply proper_name_parts in Hin as (_ & ? & _).
Qed.

(** What the history records as the path of an extraction is removed,
    with all it holds, when nothing is in the way. *)
Lemma recorded_tree_deleted (app : Gui) (w : World) (out : Path)
    (status nm : string) :
  (status, nm, Pathlib.str out) ∈ extraction_history app →
  Forall (fun c => PathText.plain c = true) out → out ≠ [] →
  well_formed (fs w) → (∀ k, refused env k = false) →
  fs w !! EXTRACTION_LOG_FILE env ≠ Some Dir →
  ∃ d f w',
    _delete_all_data env (Some "DELETE!") app w
    = (Ok (summary_msg d f), cleared app, w')
    ∧ ∀ k, out `prefix_of` k → fs w' !! k = None.
Proof.
  intros Hin Hplain Hne Hwf Href Hlog.
  destruct (delete_all_data_clean env app w Hwf Href Hlog)
    as (d & f & w' & Hrun & Hgone & _ & Hsub & _ & _).
  exists d, f, w'. split; [done|]. intros k Hpre.
  destruct (decide (Forall (fun c => PathText.proper_name c = true) out))
    as [Hproper|Himproper].
  - apply (Hgone _ k Hin); cbn [snd].
    + by apply ordinary_str.
    + by rewrite entry_str.
  - destruct (fs w' !! k) as [x|] eqn:E; [|done]. exfalso. apply Himproper.
    apply (lookup_weaken _ _ _ _ E) in Hsub.
    pose proof (well_formed_names (fs w) k Hwf (mk_is_Some _ _ Hsub)) as Hnames.
    destruct Hpre as [rel ->]. by apply Forall_app in Hnames as [? _].
Qed.

(** The window learns of a successful extraction when it reads the queue. *)
Lemma extraction_recorded (self : Unpacker) (archive_path : Path)
    (all_parts : list Path) (torrent_name : string) (w w1 : World)
    (out : Path) (nm : string) (app : Gui) :
  choose_destination env self archive_path torrent_name w = (Ok (out, nm), w1) →
  let command := command_line self archive_path out in
  let after := fs_after_tool env command out (fs w1) in
  tool_exit_of (seven_zip env command (fs w1)) = Exit0 →
  appendable env after (EXTRACTION_LOG_FILE env) = true →
  ∃ w',
    extract_archive env self archive_path all_parts torrent_name w = (Ok tt, w')
    ∧ ("SUCCESS", nm, Pathlib.str out)
      ∈ extraction_history (_poll_gui_queue app w').1
    ∧ fs w' !! EXTRACTION_LOG_FILE env ≠ Some Dir.
Proof.
  cbn zeta. intros Hc Hexit Happ. rewrite extract_archive_bind, Hc.
  destruct (attempt_extraction_outcome env self archive_path all_parts out nm w1)
    as (r & w' & -> & _ & Hif).
  cbn zeta in Hif. rewrite Happ, Hexit in Hif.
  destruct Hif as (-> & Hq & _ & Hfs). exists w'. split; [done|].
  split; [|rewrite Hfs, lookup_insert_eq; by destruct (_ && _)].
  unfold _poll_gui_queue. cbn [fst]. rewrite Hq, foldl_app.
  destruct (poll_attempt (foldl handle_message app (gui_queue w1))
              ("Extracting: " +:+ Pathlib.name archive_path)
              (MsgExtractionSuccess nm (Pathlib.str out))) as (Hh & _).
  { exists nm, (Pathlib.str out). by left. }
  cbn zeta in Hh. cbn [List.app]. rewrite Hh.
  apply elem_of_app. right. left.
Qed.

End recorded_deleted.

(** * The claims *)

Section grouping_claims.

(** C6 (base-name derivation and grouping).  The key computed by the code
    is the one the specification describes: the captured prefix when the
    pattern matches the name without its final suffix; otherwise, for a file
    whose extension is exactly [.rar], the captured prefix of a match on the
    full name; otherwise the stem.  The sets are exactly the non-empty
    classes of candidates with the same key, each in encounter order, and no
    key occurs twice. *)
Theorem base_name_derivation (all_archives : list Path) :
  (∀ archive, Grouper.base_name archive = Grouper.base_name_spec archive)
  ∧ (∀ b file_list,
       (b, file_list) ∈ Grouper.archive_sets all_archives
       ↔ file_list ≠ [] ∧ file_list = Grouper.files_of b all_archives)
  ∧ NoDup (Grouper.archive_sets all_archives).*1.
Proof.
  split_and!.
  - apply base_name_refines.
  - intros b file_list. apply archive_sets_elem.
  - apply archive_sets_NoDup.
Qed.

Lemma filter_is_rar_none (l : list Path) :
  Forall (fun f => Grouper.is_rar f = false) l → List.filter Grouper.is_rar l = [].
Proof. induction 1 as [|f l Hf _ IH]; cbn; [done|]. by rewrite Hf. Qed.

(** C5 (primary part).  For every set produced by grouping a primary is
    chosen, and it is a part of the set.  If some part has the extension
    [.rar] (in any case), the primary is the first such part in encounter
    order; if none has, no part of the set is below the primary in the order
    of paths.  The choice is a function of the set. *)
Theorem primary_part_selection (all_archives : list Path) (b : string)
    (file_list : list Path) :
  (b, file_list) ∈ Grouper.archive_sets all_archives →
  ∃ primary,
    Grouper.primary_file file_list = Some primary
    ∧ primary ∈ file_list
    ∧ (∀ before rar after,
         file_list = before ++ rar :: after →
         Forall (fun f => Grouper.is_rar f = false) before →
         Grouper.is_rar rar = true → primary = rar)
    ∧ (Forall (fun f => Grouper.is_rar f = false) file_list →
       ∀ q, q ∈ file_list → Pathlib.compare primary q ≠ Gt).
Proof.
  intros [Hne _]%archive_sets_elem. unfold Grouper.primary_file.
  destruct (List.filter Grouper.is_rar file_list) as [|f rars] eqn:Ef.
  - destruct (sorted_nonempty file_list Hne) as [p Hp].
    destruct (sorted_head_min file_list p Hp) as [Hin Hmin].
    exists p. split_and!; [done|done| |].
    + intros before rar after -> _ Hrar.
      rewrite List.filter_app in Ef. cbn in Ef. rewrite Hrar in Ef.
      by destruct (List.filter Grouper.is_rar before).
    + intros _ q Hq. apply path_le_iff. by apply Hmin.
  - exists f. split_and!; [done| | |].
    + assert (In f (List.filter Grouper.is_rar file_list)) as Hin
        by (rewrite Ef; by left).
      apply List.filter_In in Hin as [Hin _]. by apply list_elem_of_In.
    + intros before rar after -> Hbefore Hrar.
      rewrite List.filter_app, (filter_is_rar_none before Hbefore) in Ef.
      cbn in Ef. rewrite Hrar in Ef. by injection Ef as <- _.
    + intros Hnone. by rewrite (filter_is_rar_none _ Hnone) in Ef.
Qed.

End grouping_claims.

Lemma primary_part_selection_witness :
  ∃ primary,
    Grouper.primary_file [["d"; "x.r01"]; ["d"; "x.RAR"]; ["d"; "x.r00"]]
    = Some primary
    ∧ primary = ["d"; "x.RAR"].
Proof.
  destruct (primary_part_selection
              [["d"; "x.r01"]; ["d"; "y.zip"]; ["d"; "x.RAR"]; ["d"; "x.r00"]]
              "x" [["d"; "x.r01"]; ["d"; "x.RAR"]; ["d"; "x.r00"]])
    as (primary & Hp & _ & Hrar & _).
  - vm_compute. left.
  - exists primary. split; [exact Hp|].
    apply (Hrar [["d"; "x.r01"]] ["d"; "x.RAR"] [["d"; "x.r00"]]).
    + reflexivity.
    + repeat constructor.
    + reflexivity.
Defined.

Section history_claims.

Context (env : Env).

Lemma log_events_content (records : list History.record) (w : World) :
  appendable env (fs w) (EXTRACTION_LOG_FILE env) = true →
  ∃ w',
    for_each records
      (fun '(status, name, path) => _log_extraction_event env status name path) w
    = (Ok tt, w')
    ∧ appendable env (fs w') (EXTRACTION_LOG_FILE env) = true
    ∧ Os.content_of (fs w') (EXTRACTION_LOG_FILE env)
      = Os.content_of (fs w) (EXTRACTION_LOG_FILE env)
        +:+ String.concat "" (List.map History.line_of records).
Proof.
  revert w. induction records as [|[[status name] path] records IH]; intros w Happ.
  - exists w. cbn. by rewrite str_app_nil_r.
  - cbn [for_each]. unfold mbind at 1, M_bind at 1.
    unfold _log_extraction_event at 1, mbind at 1, M_bind at 1.
    rewrite append_text_ok by done.
    set (line := status +:+ ":" +:+ name +:+ ":" +:+ path +:+ String Py.LF "").
    set (w1 := set_fs _ _).
    assert (∃ w2, (if decide (status = "SUCCESS")
                   then gui_put (MsgExtractionSuccess name path)
                   else if decide (status = "FAILURE")
                        then gui_put (MsgExtractionFailure name path)
                        else mret tt) w1 = (Ok tt, w2) ∧ fs w2 = fs w1)
      as (w2 & -> & Hfs2).
    { repeat case_match; by eexists. }
    assert (fs w1 !! EXTRACTION_LOG_FILE env
            = Some (File (Os.content_of (fs w) (EXTRACTION_LOG_FILE env) +:+ line)))
      as Hnode by apply lookup_insert_eq.
    assert (refused env (EXTRACTION_LOG_FILE env) = false) as Href.
    { unfold appendable in Happ. repeat case_match; try done.
      - by apply negb_true_iff.
      - by apply andb_true_iff in Happ as [_ ?%negb_true_iff]. }
    destruct (IH w2) as (w' & Hrun & Happ' & Hcontent).
    { unfold appendable. by rewrite log_file_node, Hfs2, Hnode, Href. }
    exists w'. split_and!; [done|done|].
    rewrite Hcontent. unfold Os.content_of at 1.
    rewrite log_file_node, Hfs2, Hnode.
    rewrite str_app_assoc. f_equal. cbn [List.map].
    change (History.line_of (status, name, path)) with line.
    destruct records as [|r records]; cbn [List.map String.concat].
    + by rewrite str_app_nil_r.
    + by rewrite str_app_nil_l.
Qed.

(** C7, amended (history round trip and lenient parse).  From a history
    that is missing or empty, appending N records and then loading yields
    those N records in the same order, provided each record can be stored: a
    status the program writes, a name without colon, no line break in the
    name or the path, no white space at the end of the path.  The path may
    contain colons.  A line with fewer than two colons is passed over, and
    the lines after it load as they would without it; loading never
    raises. *)
Theorem history_round_trip (records : list History.record) (w : World) :
  appendable env (fs w) (EXTRACTION_LOG_FILE env) = true →
  Os.content_of (fs w) (EXTRACTION_LOG_FILE env) = "" →
  Forall (fun r => History.storable r = true) records →
  (∃ w',
     for_each records
       (fun '(status, name, path) => _log_extraction_event env status name path) w
     = (Ok tt, w')
     ∧ _load_extraction_history env w' = (Ok records, w'))
  ∧ (∀ bad rest,
       Py.lacks Py.LF bad = true → Py.lacks Py.CR bad = true →
       Py.count ":" bad < 2 →
       History.load (bad +:+ String Py.LF rest) = History.load rest)
  ∧ (∀ status name path,
       History.storable (status, name, path) = true →
       Py.split ":" 2 (status +:+ ":" +:+ name +:+ ":" +:+ path)
       = [status; name; path]).
Proof.
  intros Happ Hempty Hrs. split_and!.
  - destruct (log_events_content records w Happ) as (w' & Hrun & Happ' & Hcontent).
    exists w'. split; [done|]. rewrite Hempty, str_app_nil_l in Hcontent.
    unfold _load_extraction_history, Os.exists_.
    unfold appendable in Happ'. unfold Os.content_of in Hcontent.
    destruct (Os.node_at (fs w') (EXTRACTION_LOG_FILE env)) as [[content|]|] eqn:E.
    + rewrite bool_decide_eq_true_2 by (by eexists).
      by rewrite Hcontent, load_lines.
    + done.
    + rewrite bool_decide_eq_false_2 by (by intros [? ?]).
      destruct records as [|r records]; [done|].
      exfalso. destruct r as [[status name] path].
      apply (f_equal String.length) in Hcontent.
      assert (String.length (History.line_of (status, name, path)) ≠ 0) as Hline.
      { unfold History.line_of. rewrite !str_length_app.
        cbn [String.length]. lia. }
      destruct records; cbn [List.map String.concat] in Hcontent;
        rewrite ?str_length_app in Hcontent; cbn [String.length] in Hcontent; lia.
  - intros bad rest. apply load_skip.
  - intros status name path Hst. apply split_record; [|].
    + unfold History.storable in Hst. andb_hyps.
      match goal with H : (_ || _) = true |- _ =>
        apply orb_true_iff in H as [->%bool_decide_eq_true | ->%bool_decide_eq_true]
      end; done.
    + unfold History.storable in Hst. by andb_hyps.
Qed.

End history_claims.

Lemma history_round_trip_witness :
  let records := [("SUCCESS", "T", "C:\downloads\T"); ("FAILURE", "x.rar (1)", "/d/x.rar (1)")] in
  ∃ w',
    for_each records
      (fun '(status, name, path) =>
         _log_extraction_event Demo.env_ok status name path)
      (Demo.world_of Demo.fs_folder) = (Ok tt, w')
    ∧ _load_extraction_history Demo.env_ok w' = (Ok records, w').
Proof.
  intros records.
  destruct (history_round_trip Demo.env_ok records (Demo.world_of Demo.fs_folder))
    as [H _].
  - vm_compute. reflexivity.
  - vm_compute. reflexivity.
  - repeat constructor.
  - exact H.
Defined.

(** C7 as stated fails: a record the program writes for the download
    [/downloads/Series: S01] does not come back as written (the name is cut at
    its colon), and a path that ends in a space comes back without it. *)
Lemma history_round_trip_breaks :
  let content_path := ["downloads"; "Series: S01"] in
  let w' := (unpack_archives Demo.env_ok Demo.unpacker_subfolder content_path
               (Demo.world_of Demo.fs_colon)).2 in
  fs w' !! ["app"; "extractions.log"]
  = Some (File (History.line_of
                  ("SUCCESS", "Series: S01", "/downloads/Series: S01/Series: S01")))
  ∧ (_load_extraction_history Demo.env_ok w').1
    = Ok [("SUCCESS", "Series", " S01:/downloads/Series: S01/Series: S01")]
  ∧ History.load (History.line_of ("SUCCESS", "T", "/downloads/T "))
    = [("SUCCESS", "T", "/downloads/T")].
Proof. cbn zeta. split_and!; vm_compute; reflexivity. Qed.

Ltac no_elem H :=
  cbn in H;
  repeat (apply elem_of_cons in H as [H|H]; [discriminate H|]);
  by apply elem_of_nil in H.

Section extraction_claims.

Context (env : Env).


(** C10, amended (what a failed attempt in subfolder mode leaves behind).
    In subfolder mode, when the run of the tool fails and the history file
    can be written: the directory created for the attempt did not exist
    before and still exists afterwards, its path is the PATH field of the
    [FAILURE] line that now ends the history file, and every entry that is
    neither below that directory nor the history file itself is as it was
    before.  (The history file is the one entry outside the directory that
    the attempt writes: it is appended to, and created when missing.) *)
Theorem failed_subfolder_frame (self : Unpacker) (archive_path : Path)
    (all_parts : list Path) (torrent_name : string) (w w1 : World)
    (out : Path) (nm : string) :
  create_subfolder self = true →
  choose_destination env self archive_path torrent_name w = (Ok (out, nm), w1) →
  let command := command_line self archive_path out in
  let after := fs_after_tool env command out (fs w1) in
  tool_exit_of (seven_zip env command (fs w1)) ≠ Exit0 →
  appendable env after (EXTRACTION_LOG_FILE env) = true →
  ∃ w',
    extract_archive env self archive_path all_parts torrent_name w = (Ok tt, w')
    ∧ Os.exists_ (fs w) out = false
    ∧ fs w' !! out = Some Dir
    ∧ (∃ before, fs w' !! EXTRACTION_LOG_FILE env
         = Some (File (before +:+ History.line_of ("FAILURE", nm, Pathlib.str out))))
    ∧ (∀ p, ¬ out `prefix_of` p → p ≠ EXTRACTION_LOG_FILE env →
         fs w' !! p = fs w !! p).
Proof.
  cbn zeta. intros Hs Hc Hfail Happ.
  rewrite extract_archive_bind, Hc.
  destruct (attempt_extraction_failure env self archive_path all_parts out nm w1
              Hfail Happ) as (w' & Hrun & Hfs & Ht & Hp).
  destruct (choose_destination_ok env _ _ _ _ _ _ _ Hc) as [_ Hch].
  rewrite Hs in Hch.
  destruct Hch as (k & Hout & Hnm & Hno & _ & _ & Hfs1 & _).
  exists w'. split; [done|]. split; [done|].
  assert (fs_after_tool env (command_line self archive_path out) out (fs w1)
            !! out = Some Dir) as Hdir.
  { rewrite fs_after_tool_lookup by (by right).
    rewrite Hfs1. apply lookup_insert_eq. }
  assert (out ≠ EXTRACTION_LOG_FILE env) as Hne.
  { intros Heq. unfold appendable in Happ. rewrite <-Heq in Happ.
    assert (Os.node_at
              (fs_after_tool env (command_line self archive_path out) out (fs w1))
              out = Some Dir) as Hn; [|by rewrite Hn in Happ].
    rewrite <-Hdir. rewrite Hout. apply candidate_node. }
  split_and!.
  - by rewrite Hfs, lookup_insert_ne.
  - eexists. rewrite Hfs. apply lookup_insert_eq.
  - intros p Hpre Hlog. rewrite Hfs, lookup_insert_ne by done.
    rewrite fs_after_tool_lookup by (by left).
    rewrite Hfs1. apply lookup_insert_ne. by intros <-.
Qed.

(** C3, amended (the directory of subfolder mode).  In subfolder mode the
    output directory is the first name that does not exist among
    [parent / name], [parent / "name (1)"], [parent / "name (2)"], ...: every
    earlier name exists and the chosen one does not.  The run cannot loop
    forever.  Creating that directory is the first thing the extraction
    does: when the creation succeeds, the attempt (which starts with the
    tool) runs in a world where the directory exists; when it fails, the
    exception leaves [extract_archive] and the tool is not started. *)
Theorem subfolder_allocation (self : Unpacker) (archive_path : Path)
    (all_parts : list Path) (torrent_name : string) (w : World) :
  create_subfolder self = true →
  let parent := Pathlib.parent archive_path in
  let tried := fun j : nat =>
    Pathlib.joinpath parent
      match j with
      | 0 => torrent_name
      | S _ => torrent_name +:+ " (" +:+ Py.str_nat j +:+ ")"
      end in
  ∃ k,
    Os.exists_ (fs w) (tried k) = false
    ∧ (∀ j, j < k → Os.exists_ (fs w) (tried j) = true)
    ∧ if mkdir_ok env (fs w) (tried k)
      then ∃ w1 ext,
        fs w1 = <[tried k := Dir]> (fs w)
        ∧ trace w1 = trace w ++ [ActMkdir (tried k)]
        ∧ extract_archive env self archive_path all_parts torrent_name w
          = attempt_extraction env self archive_path all_parts (tried k)
              (Pathlib.name (tried k)) w1
        ∧ trace (extract_archive env self archive_path all_parts torrent_name w).2
          = trace w ++ ActMkdir (tried k)
              :: ActExec (command_line self archive_path (tried k)) :: ext
      else ∃ e w1,
        extract_archive env self archive_path all_parts torrent_name w
        = (Raise e, w1)
        ∧ fs w1 = fs w
        ∧ trace w1 = trace w ++ [ActMkdir (tried k)].
Proof.
  cbn zeta. intros Hs.
  destruct (choose_destination_subfolder env self archive_path torrent_name w Hs)
    as (k & w1 & r & Hc & Hno & Hall & Ht & Hp & Hif).
  cbn zeta in *. exists k.
  change (Pathlib.joinpath (Pathlib.parent archive_path)
            match k with
            | 0 => torrent_name
            | S _ => torrent_name +:+ " (" +:+ Py.str_nat k +:+ ")"
            end)
    with (candidate (Pathlib.parent archive_path) torrent_name k).
  split; [done|]. split; [exact Hall|].
  rewrite extract_archive_bind, Hc.
  destruct (mkdir_ok env (fs w) _).
  - destruct Hif as [-> Hfs].
    destruct (attempt_extraction_starts env self archive_path all_parts
                (candidate (Pathlib.parent archive_path) torrent_name k)
                (Pathlib.name (candidate (Pathlib.parent archive_path) torrent_name k))
                w1) as (ext & Hext & _).
    exists w1, ext. split_and!; [done|done|done|].
    rewrite Hext, Ht, <-app_assoc. done.
  - destruct Hif as [[e ->] Hfs]. by exists e, w1.
Qed.

(** C4, amended (the name that is recorded).  Every line an extraction
    appends goes to the history file and has the form [STATUS:NAME:PATH]
    with one and the same NAME.  In flat mode NAME is the containing folder
    name.  In subfolder mode NAME is the name of the directory that was
    chosen: the containing folder name when that directory was free,
    otherwise that name followed by [" (k)"] for the first free [k]. *)
Theorem recorded_name (self : Unpacker) (archive_path : Path)
    (all_parts : list Path) (torrent_name : string) (w : World) :
  let parent := Pathlib.parent archive_path in
  ∃ nm ext,
    trace (extract_archive env self archive_path all_parts torrent_name w).2
    = trace w ++ ext
    ∧ (∀ file text, ActAppend file text ∈ ext →
         file = EXTRACTION_LOG_FILE env
         ∧ ∃ status path, (status = "SUCCESS" ∨ status = "FAILURE")
                          ∧ text = History.line_of (status, nm, path))
    ∧ if create_subfolder self
      then ∃ k,
        nm = match k with
             | 0 => torrent_name
             | S _ => torrent_name +:+ " (" +:+ Py.str_nat k +:+ ")"
             end
        ∧ Os.exists_ (fs w) (candidate parent torrent_name k) = false
        ∧ ∀ j, j < k → Os.exists_ (fs w) (candidate parent torrent_name j) = true
      else nm = torrent_name.
Proof.
  cbn zeta. rewrite extract_archive_bind.
  destruct (choose_destination env self archive_path torrent_name w)
    as [[[out nm]|e|] w1] eqn:Hc.
  - destruct (choose_destination_ok env _ _ _ _ _ _ _ Hc) as [_ Hch].
    set (Q := fun a => match a with
                       | ActAppend file text =>
                           file = EXTRACTION_LOG_FILE env
                           ∧ ∃ status path,
                               (status = "SUCCESS" ∨ status = "FAILURE")
                               ∧ text = History.line_of (status, nm, path)
                       | _ => True
                       end).
    destruct (step_attempt_extraction env Q self archive_path all_parts out nm)
      with (w := w1) as [_ (ext & Hext & Hall)]; [done|done| |].
    { intros status Hst. split; [done|]. by exists status, (Pathlib.str out). }
    assert (∀ pre, Forall Q pre → Forall Q ext →
              ∀ file text, ActAppend file text ∈ pre ++ ext →
                file = EXTRACTION_LOG_FILE env
                ∧ ∃ status path, (status = "SUCCESS" ∨ status = "FAILURE")
                                 ∧ text = History.line_of (status, nm, path))
      as Hq.
    { intros pre Hpre Hx file text Hin.
      assert (Forall Q (pre ++ ext)) as Hf by (by apply Forall_app).
      rewrite Forall_forall in Hf. exact (Hf _ Hin). }
    destruct (create_subfolder self).
    + destruct Hch as (k & -> & -> & Hno & Hbelow & _ & _ & Ht1).
      exists (Pathlib.name (candidate (Pathlib.parent archive_path) torrent_name k)),
        (ActMkdir (candidate (Pathlib.parent archive_path) torrent_name k) :: ext).
      split_and!.
      * rewrite Hext, Ht1, <-app_assoc. done.
      * apply (Hq [_]); [by repeat constructor|done].
      * exists k. by rewrite candidate_name.
    + destruct Hch as (-> & -> & _ & Ht1).
      exists torrent_name, ext. split_and!.
      * by rewrite Hext, Ht1.
      * apply (Hq []); [constructor|done].
      * done.
  - (* the directory could not be created: nothing is recorded *)
    destruct (create_subfolder self) eqn:Hs.
    + destruct (choose_destination_subfolder env self archive_path torrent_name w Hs)
        as (k & w1' & r & Hc' & Hno & Hbelow & Ht & _).
      cbn zeta in *. rewrite Hc in Hc'. injection Hc' as <- <-.
      eexists _, [_]. split_and!; [exact Ht| |exists k; done].
      intros file text Hin. no_elem Hin.
    + destruct (choose_destination_flat env self archive_path torrent_name w Hs)
        as (w1' & Hc' & _). by rewrite Hc in Hc'.
  - destruct (create_subfolder self) eqn:Hs.
    + destruct (choose_destination_subfolder env self archive_path torrent_name w Hs)
        as (k & w1' & r & Hc' & Hno & Hbelow & Ht & _ & Hif).
      cbn zeta in *. rewrite Hc in Hc'. injection Hc' as <- <-.
      destruct (mkdir_ok env (fs w) _); [by destruct Hif|by destruct Hif as [[? ?] _]].
    + destruct (choose_destination_flat env self archive_path torrent_name w Hs)
        as (w1' & Hc' & _). by rewrite Hc in Hc'.
Qed.

End extraction_claims.



(** C10 as stated fails: a failed attempt in subfolder mode creates the
    history file [/app/extractions.log], which is not below the directory
    [/downloads/T/T] made for the attempt. *)
Lemma failed_subfolder_creates_history :
  let archive := ["downloads"; "T"; "a.rar"] in
  let out := ["downloads"; "T"; "T"] in
  let history := ["app"; "extractions.log"] in
  let w := Demo.world_of Demo.fs_folder in
  let w' := (extract_archive Demo.env_failing Demo.unpacker_subfolder archive
               [archive] "T" w).2 in
  fs w' !! out = Some Dir
  ∧ ¬ out `prefix_of` history
  ∧ fs w !! history = None
  ∧ fs w' !! history
    = Some (File ("FAILURE:T:/downloads/T/T" +:+ String Py.LF "")).
Proof.
  cbn zeta. split_and!.
  - vm_compute. reflexivity.
  - intros [k Hk]. discriminate Hk.
  - vm_compute. reflexivity.
  - vm_compute. reflexivity.
Qed.

Lemma failed_subfolder_frame_witness :
  let archive := ["downloads"; "T"; "a.rar"] in
  ∃ w',
    extract_archive Demo.env_failing Demo.unpacker_subfolder archive [archive] "T"
      (Demo.world_of Demo.fs_folder) = (Ok tt, w')
    ∧ fs w' !! ["downloads"; "T"; "T"] = Some Dir
    ∧ fs w' !! archive = Some (File "").
Proof.
  intros archive.
  destruct (failed_subfolder_frame Demo.env_failing Demo.unpacker_subfolder
              archive [archive] "T" (Demo.world_of Demo.fs_folder)
              (choose_destination Demo.env_failing Demo.unpacker_subfolder
                 archive "T" (Demo.world_of Demo.fs_folder)).2
              ["downloads"; "T"; "T"] "T")
    as (w' & Hrun & _ & Hdir & _ & Hframe).
  - reflexivity.
  - vm_compute. reflexivity.
  - vm_compute. discriminate.
  - vm_compute. reflexivity.
  - exists w'. split_and!; [exact Hrun|exact Hdir|].
    rewrite Hframe.
    + vm_compute. reflexivity.
    + intros [k Hk]. discriminate Hk.
    + discriminate.
Defined.

(** C3 as stated fails: with [/downloads/T/T] taken, the directory made is
    [/downloads/T/T (1)], not [/downloads/T/T (2)] (which is free as well). *)
Lemma subfolder_numbering_starts_at_one :
  let archive := ["downloads"; "T"; "a.rar"] in
  let w := Demo.world_of Demo.fs_folder_taken in
  let w' := (extract_archive Demo.env_ok Demo.unpacker_subfolder archive
               [archive] "T" w).2 in
  Os.exists_ (fs w) ["downloads"; "T"; "T"] = true
  ∧ Os.exists_ (fs w) ["downloads"; "T"; "T (2)"] = false
  ∧ head (trace w') = Some (ActMkdir ["downloads"; "T"; "T (1)"])
  ∧ fs w' !! ["downloads"; "T"; "T (1)"] = Some Dir
  ∧ fs w' !! ["downloads"; "T"; "T (2)"] = None.
Proof. cbn zeta. split_and!; vm_compute; reflexivity. Qed.

Lemma subfolder_allocation_witness :
  let archive := ["downloads"; "T"; "a.rar"] in
  ∃ out : Path,
    Os.exists_ Demo.fs_folder_taken out = false
    ∧ head (trace (extract_archive Demo.env_ok Demo.unpacker_subfolder archive
                     [archive] "T" (Demo.world_of Demo.fs_folder_taken)).2)
      = Some (ActMkdir out).
Proof.
  intros archive.
  destruct (subfolder_allocation Demo.env_ok Demo.unpacker_subfolder archive
              [archive] "T" (Demo.world_of Demo.fs_folder_taken) eq_refl)
    as (k & Hfree & Hbelow & Hif).
  cbn zeta in Hfree, Hbelow, Hif.
  destruct (mkdir_ok Demo.env_ok _ _).
  - destruct Hif as (w1 & ext & _ & _ & _ & Ht).
    eexists. split; [exact Hfree|]. by rewrite Ht.
  - destruct Hif as (e & w1 & Hrun & _ & Ht).
    eexists. split; [exact Hfree|]. rewrite Hrun. cbn [snd]. by rewrite Ht.
Defined.

(** C4 as stated fails: for the single-file download [/downloads/x.rar] in
    subfolder mode the containing name is [x.rar], yet the line recorded,
    and read back, carries the NAME [x.rar (1)]. *)
Lemma recorded_name_is_directory_name :
  let content_path := ["downloads"; "x.rar"] in
  let w' := (unpack_archives Demo.env_ok Demo.unpacker_subfolder content_path
               (Demo.world_of Demo.fs_single)).2 in
  Pathlib.name content_path = "x.rar"
  ∧ fs w' !! ["app"; "extractions.log"]
    = Some (File ("SUCCESS:x.rar (1):/downloads/x.rar (1)" +:+ String Py.LF ""))
  ∧ (_load_extraction_history Demo.env_ok w').1
    = Ok [("SUCCESS", "x.rar (1)", "/downloads/x.rar (1)")].
Proof. cbn zeta. split_and!; vm_compute; reflexivity. Qed.

Section monitor_claims.

Context (env : Env) (self : Unpacker) (cfg : Config).

(** C1, amended (at-most-once processing).  Take a run of the loop in
    which every list that arrives has a completed torrent with hash [h]
    inside the monitored path, and no second entry with that hash.  Then
    every hand-over of [h] to the unpacker comes after [h] was added to the
    processed set, and [h] is handed over at most once in the whole run,
    whatever the extraction does (return, raise, or not end).  If [h] was
    processed before the run it is not handed over at all.  Otherwise it is
    handed over exactly once if and only if it is in the processed set at
    the end, and this is so as soon as one turn of the run ends without an
    exception (is followed by the normal wait). *)
Theorem at_most_once_processing (ticks : list Tick) (w : World) (h : string) :
  listed_every_tick env cfg h ticks →
  ∃ r w' ext,
    monitor_loop env self cfg ticks w = (r, w')
    ∧ trace w' = trace w ++ ext
    ∧ (∀ pre p post, ext = pre ++ ActUnpack h p :: post → ActMark h ∈ pre)
    ∧ occurrences h (dispatched ext) ≤ 1
    ∧ (h ∈ processed_torrents w → occurrences h (dispatched ext) = 0)
    ∧ (h ∉ processed_torrents w →
         (occurrences h (dispatched ext) = 1 ↔ h ∈ processed_torrents w')
         ∧ (ActWait 15 ∈ ext → occurrences h (dispatched ext) = 1)).
Proof.
  intros Hlisted.
  destruct (monitor_loop_spec env self cfg h ticks w Hlisted)
    as (r & w' & hs & ext & Hrun & (Ht & Hpt & Hset) & _ & Hocc & Hin & Hwait).
  destruct (poller_trace_marks hs ext Hpt) as [_ Hd].
  exists r, w', ext. rewrite Hd. split_and!; [done|done| |done| |].
  - intros pre p post. by apply (poller_trace_ordered hs).
  - intros Hh. by apply occurrences_zero, Hin.
  - intros Hh.
    assert (h ∈ hs ↔ occurrences h hs = 1) as Hiff.
    { split.
      - intros Hhs. destruct (occurrences h hs) as [|n] eqn:E; [|lia].
        by apply occurrences_zero in E.
      - intros E. destruct (decide (h ∈ hs)) as [|Hnot]; [done|].
        apply occurrences_zero in Hnot. lia. }
    split.
    + rewrite <-Hiff, Hset, elem_of_union, elem_of_list_to_set. naive_solver.
    + intros Hw. apply Hiff. by apply Hwait.
Qed.

Lemma monitor_loop_never_raises (ticks : list Tick) (w : World) (e : exn) :
  (monitor_loop env self cfg ticks w).1 ≠ Raise e.
Proof.
  revert w. induction ticks as [|tick later IH]; intros w; [done|].
  destruct (stop_is_set tick) eqn:Hstop.
  - by rewrite monitor_loop_stop.
  - rewrite monitor_loop_step by done.
    destruct (poll_tick env self cfg tick w) as [[[]|e'|] w1]; [apply IH..|done].
Qed.

Lemma monitor_loop_stopped (ticks : list Tick) (w w' : World) :
  monitor_loop env self cfg ticks w = (Ok Stopped, w') →
  ∃ tick, tick ∈ ticks ∧ stop_is_set tick = true.
Proof.
  revert w. induction ticks as [|tick later IH]; intros w; [done|].
  destruct (stop_is_set tick) eqn:Hstop.
  - intros _. exists tick. split; [left|done].
  - rewrite monitor_loop_step by done.
    destruct (poll_tick env self cfg tick w) as [[[]|e'|] w1]; [| |done].
    + intros (t & Ht & Hs)%IH. exists t. split; [by right|done].
    + intros (t & Ht & Hs)%IH. exists t. split; [by right|done].
Qed.

(** C9 (backoff on poll failure).  When an exception leaves the body of a
    turn, the loop logs it, waits 60 (and not 15) and goes on with the next
    test of the stop event: the run continues as the loop over the later
    turns.  A turn that ends without exception is followed by the wait of
    15.  No exception ever leaves the loop, and the loop only stops when the
    stop event is found set. *)
Theorem backoff_on_poll_failure (tick : Tick) (later : list Tick)
    (w w1 : World) (e : exn) :
  stop_is_set tick = false →
  poll_tick env self cfg tick w = (Raise e, w1) →
  monitor_loop env self cfg (tick :: later) w
  = monitor_loop env self cfg later (after_backoff e w1)
  ∧ trace (after_backoff e w1) = trace w1 ++ [ActWait 60]
  ∧ fs (after_backoff e w1) = fs w1
  ∧ processed_torrents (after_backoff e w1) = processed_torrents w1
  ∧ (∀ tick' w0 w2,
       stop_is_set tick' = false →
       poll_tick env self cfg tick' w0 = (Ok tt, w2) →
       monitor_loop env self cfg (tick' :: later) w0
       = monitor_loop env self cfg later (after_normal_wait w2)
       ∧ trace (after_normal_wait w2) = trace w2 ++ [ActWait 15])
  ∧ (∀ ticks w0 e', (monitor_loop env self cfg ticks w0).1 ≠ Raise e')
  ∧ (∀ ticks w0 w',
       monitor_loop env self cfg ticks w0 = (Ok Stopped, w') →
       ∃ t, t ∈ ticks ∧ stop_is_set t = true).
Proof.
  intros Hstop Hpoll. split_and!.
  - by rewrite monitor_loop_step, Hpoll.
  - done.
  - done.
  - done.
  - intros tick' w0 w2 Hstop' Hpoll'. split; [|done].
    by rewrite monitor_loop_step, Hpoll'.
  - intros ticks w0 e'. apply monitor_loop_never_raises.
  - intros ticks w0 w'. apply monitor_loop_stopped.
Qed.

End monitor_claims.

Lemma at_most_once_processing_witness :
  let X := DemoMonitor.completed "downloads" "X" in
  let A := DemoMonitor.completed "downloads" "A" in
  let ticks := [DemoMonitor.tick_listing [A; X]; DemoMonitor.tick_listing [X; A]] in
  occurrences "X"
    (dispatched
       (trace (monitor_loop Demo.env_ok DemoMonitor.unpacker DemoMonitor.config
                 ticks (Demo.world_of Demo.fs_three)).2)) = 1.
Proof.
  intros X A ticks.
  destruct (at_most_once_processing Demo.env_ok DemoMonitor.unpacker
              DemoMonitor.config ticks (Demo.world_of Demo.fs_three) "X")
    as (r & w' & ext & Hrun & Ht & _ & _ & _ & Hnew).
  - intros tick all Htick Hreply.
    assert (all = [A; X] ∨ all = [X; A]) as Hall.
    { apply elem_of_cons in Htick as [->|Htick].
      - left. by injection Hreply as <-.
      - apply elem_of_cons in Htick as [->|Htick].
        + right. by injection Hreply as <-.
        + by apply elem_of_nil in Htick. }
    split.
    + destruct Hall as [-> | ->]; vm_compute; lia.
    + exists X. destruct Hall as [-> | ->];
        (split_and!;
         [first [by left|right; by left]
         |reflexivity|reflexivity|vm_compute; reflexivity]).
  - rewrite Hrun. cbn [snd]. rewrite Ht. cbn [trace Demo.world_of app].
    apply Hnew.
    + apply not_elem_of_empty.
    + assert (ext = trace w') as -> by (by rewrite Ht).
      replace w' with (monitor_loop Demo.env_ok DemoMonitor.unpacker
                         DemoMonitor.config ticks (Demo.world_of Demo.fs_three)).2
        by (by rewrite Hrun).
      apply (bool_decide_unpack _). vm_compute. exact I.
Defined.

(** C1 as stated fails: [X] is listed in both turns, completed and inside
    the monitored path, yet it is never handed over, because in each turn
    the extraction of the torrent listed before it raises (the output
    directory cannot be created) and the turn is abandoned. *)
Lemma listed_every_tick_never_dispatched :
  let X := DemoMonitor.completed "downloads" "X" in
  let A := DemoMonitor.completed "downloads" "A" in
  let B := DemoMonitor.completed "downloads" "B" in
  let ticks := [DemoMonitor.tick_listing [A; X]; DemoMonitor.tick_listing [B; X]] in
  let r := monitor_loop Demo.env_refusing DemoMonitor.unpacker DemoMonitor.config
             ticks (Demo.world_of Demo.fs_three) in
  selected Demo.env_refusing DemoMonitor.config ∅ X = true
  ∧ r.1 = Ok Polling
  ∧ dispatched (trace r.2) = ["A"; "B"]
  ∧ occurrences "X" (dispatched (trace r.2)) = 0.
Proof. cbn zeta. split_and!; vm_compute; reflexivity. Qed.

Lemma backoff_on_poll_failure_witness :
  let A := DemoMonitor.completed "downloads" "A" in
  let tick := DemoMonitor.tick_listing [A] in
  let w := Demo.world_of Demo.fs_three in
  ∃ w1 e,
    monitor_loop Demo.env_refusing DemoMonitor.unpacker DemoMonitor.config [tick] w
    = (Ok Polling, after_backoff e w1)
    ∧ trace (after_backoff e w1) = trace w1 ++ [ActWait 60].
Proof.
  intros A tick w.
  destruct (backoff_on_poll_failure Demo.env_refusing DemoMonitor.unpacker
              DemoMonitor.config tick [] w
              (poll_tick Demo.env_refusing DemoMonitor.unpacker
                 DemoMonitor.config tick w).2
              (OSError EACCES))
    as (Hloop & Ht & _).
  - reflexivity.
  - vm_compute. reflexivity.
  - eexists _, _. split; [exact Hloop|exact Ht].
Defined.

(** C2 fails on the code: with the monitored root [/downloads], a completed,
    unprocessed torrent stored in the sibling directory [/downloads2] is not
    inside the root, yet the test of the loop selects it and the turn hands
    it over to the unpacker. *)
Lemma sibling_directory_selected :
  let torrent := DemoMonitor.completed "downloads2" "x" in
  let tick := DemoMonitor.tick_listing [torrent] in
  let w := Demo.world_of Demo.fs_three in
  monitor_path DemoMonitor.config = ["downloads"]
  ∧ is_within (monitor_path DemoMonitor.config) (torrent_content_path torrent) = false
  ∧ selected Demo.env_ok DemoMonitor.config ∅ torrent = true
  ∧ dispatched (trace (poll_tick Demo.env_ok DemoMonitor.unpacker
                         DemoMonitor.config tick w).2) = ["x"].
Proof. cbn zeta. split_and!; vm_compute; reflexivity. Qed.

(** * Further properties of the code *)

(** ** The pattern and the keys *)

Section pattern_extras.

(** X1.  [PART_REGEX.match(s)] succeeds with [group(1) = g] exactly when [g]
    is not empty and has no line feed, and [s] is [g], a dot and a part
    token that ends the text (or is followed by one last line feed).  So
    the captured prefix is all of the text before its last dot. *)
Theorem part_pattern_matches (s g : string) :
  Regex.PART_REGEX_match s = Some g
  ↔ Pathlib.nonempty g = true ∧ Py.lacks Py.LF g = true
    ∧ ∃ t, s = g +:+ String "." t ∧ Regex.token_end t = true.
Proof.
  split.
  - destruct s as [|c r]; [done|]. cbn.
    destruct (Py.eqb_char c Py.LF) eqn:Ec; [done|]. intros H.
    apply lazy_prefix_lacks_LF in H as (mid & t & -> & Ht & -> & Hlf).
    split_and!; [done| |by exists t].
    rewrite str_app_cons, str_app_nil_l. cbn. by rewrite Ec.
  - intros (Hne & Hlf & t & -> & Ht). by apply part_pattern_complete.
Qed.

(** X2.  The key of a file depends on its stem alone: it is the prefix the
    pattern captures in the stem, or the stem itself.  The second use of
    the pattern, on the full name of a [.rar] file, never matches.  Hence
    two files with the same stem, such as [x.rar], [x.r00] and [x.r01],
    always get the same key. *)
Theorem key_depends_on_stem (archive other : Path) :
  Grouper.base_name archive
  = match Regex.PART_REGEX_match (Pathlib.stem archive) with
    | Some captured => captured
    | None => Pathlib.stem archive
    end
  ∧ (Grouper.is_rar archive = true →
     Regex.PART_REGEX_match (Pathlib.name archive) = None)
  ∧ (Pathlib.stem archive = Pathlib.stem other →
     Grouper.base_name archive = Grouper.base_name other).
Proof.
  split_and!.
  - apply base_name_by_stem.
  - unfold Grouper.is_rar. intros Hrar%bool_decide_eq_true.
    by apply rar_name_no_match.
  - intros Hstem. by rewrite !base_name_by_stem, Hstem.
Qed.

(** X3.  A volume named [<g>.<token>.<ext>], such as [movie.part1.rar] or
    [movie.part2.rar], is filed under [<g>], whatever the token and the
    extension are: all the volumes of such a set get one key. *)
Theorem volume_key (dir : Path) (g t ext : string) :
  Pathlib.nonempty g = true → Py.lacks Py.LF g = true →
  Regex.token t = true →
  Pathlib.nonempty ext = true → Py.lacks "." ext = true →
  Grouper.base_name (dir ++ [g +:+ "." +:+ t +:+ "." +:+ ext]) = g.
Proof.
  intros Hg Hlf Ht He Hdot.
  assert (Regex.PART_REGEX_match (g +:+ String "." t) = Some g) as Hm.
  { apply part_pattern_complete; [done|done|].
    unfold Regex.token_end. by rewrite Ht. }
  assert (Pathlib.stem (dir ++ [g +:+ "." +:+ t +:+ "." +:+ ext])
          = g +:+ String "." t) as Hstem.
  { unfold Pathlib.stem, Pathlib.name. rewrite last_last.
    unfold Pathlib.stem_of_name.
    replace (g +:+ "." +:+ t +:+ "." +:+ ext)
      with ((g +:+ String "." t) +:+ String "." ext).
    2:{ by rewrite ?str_app_assoc, ?str_app_cons, ?str_app_nil_l. }
    rewrite rsplit_dot_app by done. rewrite He.
    destruct g; [done|]. by rewrite str_app_cons. }
  by rewrite base_name_by_stem, Hstem, Hm.
Qed.

End pattern_extras.

Lemma volume_key_witness :
  Grouper.base_name (["downloads"; "T"] ++ ["movie" +:+ "." +:+ "part2" +:+ "." +:+ "rar"])
  = "movie".
Proof. apply volume_key; reflexivity. Defined.

(** ** Looking for archives *)

Section search_extras.

Context (env : Env).

(** X4.  What enters [all_archives]: when the path is a regular file, that
    file if it passes the test; when it is a directory, the regular files
    that pass the test and are reached from it through directories, at any
    depth; nothing in any other case.  The search changes nothing. *)
Theorem archives_found (path : Path) (w : World) :
  ∃ found,
    find_archives path w = (Ok found, w)
    ∧ ∀ p, p ∈ found
           ↔ Grouper.is_candidate p = true
             ∧ ((Os.is_file (fs w) path = true ∧ p = path)
                ∨ (Os.is_dir (fs w) path = true
                   ∧ ∃ rel, rel ≠ [] ∧ p = path ++ rel
                            ∧ (∃ content, fs w !! p = Some (File content))
                            ∧ dirs_between (fs w) path rel)).
Proof. apply find_archives_elem. Qed.

(** X5.  When no regular file at or below the path passes the test (for
    instance because the path does not exist), [unpack_archives] returns
    after one line in the log: no directory is made, the tool is not run,
    nothing goes to the queue or to the history file. *)
Theorem nothing_to_unpack (self : Unpacker) (path : Path) (w : World) :
  (∀ p content, path `prefix_of` p → fs w !! p = Some (File content) →
     Grouper.is_candidate p = false) →
  ∃ w',
    unpack_archives env self path w = (Ok tt, w')
    ∧ fs w' = fs w ∧ trace w' = trace w ∧ gui_queue w' = gui_queue w
    ∧ processed_torrents w' = processed_torrents w
    ∧ log w' = log w ++ [(INFO, "No supported archives found in '"
                                +:+ Pathlib.str path +:+ "'.")].
Proof.
  intros Hnone.
  destruct (find_archives_elem path w) as (found & Hrun & Hfound).
  assert (found = []) as ->.
  { destruct found as [|p found]; [done|]. exfalso.
    destruct (proj1 (Hfound p)) as [Hc Hp]; [by left|].
    destruct Hp as [[Hf ->]|[_ (rel & _ & -> & [content Hfile] & _)]].
    - unfold Os.is_file in Hf. destruct path as [|c q]; [done|]. cbn in Hf.
      destruct (fs w !! (c :: q)) as [[content|]|] eqn:E; try done.
      by rewrite (Hnone (c :: q) content) in Hc.
    - rewrite (Hnone _ content) in Hc; [done| |done]. by apply prefix_app_r. }
  unfold unpack_archives, mbind, M_bind. rewrite Hrun.
  eexists. split; [reflexivity|]. done.
Qed.

End search_extras.

Lemma nothing_to_unpack_witness :
  ∃ w',
    unpack_archives Demo.env_ok Demo.unpacker_subfolder ["downloads"; "gone"]
      (Demo.world_of Demo.fs_folder) = (Ok tt, w')
    ∧ fs w' = Demo.fs_folder ∧ trace w' = [].
Proof.
  destruct (nothing_to_unpack Demo.env_ok Demo.unpacker_subfolder
              ["downloads"; "gone"] (Demo.world_of Demo.fs_folder))
    as (w' & Hrun & Hfs & Ht & _).
  - intros p content [k ->] Hl. cbn [fs Demo.world_of] in Hl.
    unfold Demo.fs_folder in Hl. apply elem_of_list_to_map_2 in Hl.
    repeat (apply elem_of_cons in Hl as [Hl|Hl]; [discriminate Hl|]).
    by apply elem_of_nil in Hl.
  - exists w'. by split_and!.
Defined.

(** ** How an extraction ends *)

Section outcome_extras.

Context (env : Env).

(** X6.  An extraction whose tool run ends with status 0, with a history
    file that can be written, returns normally.  The history file gets the
    [SUCCESS] line and the queue gets, in this order, the status and the
    start of the progress bar, the success, the stop of the progress bar
    and the status [Monitoring...].  With [delete_on_success] every part is
    tried once, in order, after the line was written: the parts that can
    be removed are gone, a part that cannot be removed stays and changes
    nothing else.  Without [delete_on_success] nothing is removed. *)
Theorem successful_extraction (self : Unpacker) (archive_path : Path)
    (all_parts : list Path) (torrent_name : string) (w w1 : World)
    (out : Path) (nm : string) :
  choose_destination env self archive_path torrent_name w = (Ok (out, nm), w1) →
  let command := command_line self archive_path out in
  let after := fs_after_tool env command out (fs w1) in
  let history := EXTRACTION_LOG_FILE env in
  let line := History.line_of ("SUCCESS", nm, Pathlib.str out) in
  let logged := <[history := File (Os.content_of after history +:+ line)]> after in
  tool_exit_of (seven_zip env command (fs w1)) = Exit0 →
  appendable env after history = true →
  ∃ w',
    extract_archive env self archive_path all_parts torrent_name w = (Ok tt, w')
    ∧ trace w' = trace w1 ++ ActExec command :: ActAppend history line
        :: (if delete_on_success self then ActRemove <$> all_parts else [])
    ∧ gui_queue w' = gui_queue w1
        ++ [MsgStatus ("Extracting: " +:+ Pathlib.name archive_path);
            MsgProgress "start";
            MsgExtractionSuccess nm (Pathlib.str out);
            MsgProgress "stop"; MsgStatus "Monitoring..."]
    ∧ ∀ p, fs w' !! p
           = if delete_on_success self && bool_decide (p ∈ all_parts)
                && removable env logged p
             then None else logged !! p.
Proof.
  cbn zeta. intros Hc Hexit Happ. rewrite extract_archive_bind, Hc.
  destruct (attempt_extraction_outcome env self archive_path all_parts out nm w1)
    as (r & w' & -> & _ & Hif).
  cbn zeta in Hif. rewrite Happ, Hexit in Hif.
  destruct Hif as (-> & Hq & Ht & Hfs). exists w'. done.
Qed.

(** X7.  When the history file cannot be written, an extraction whose
    destination was chosen ends with an [OSError], whether the tool
    succeeded or not: the queue gets no outcome (only the status, the start
    and stop of the progress bar and [Monitoring...]), and no part is
    removed, whatever [delete_on_success] says. *)
Theorem unwritable_history (self : Unpacker) (archive_path : Path)
    (all_parts : list Path) (torrent_name : string) (w w1 : World)
    (out : Path) (nm : string) :
  choose_destination env self archive_path torrent_name w = (Ok (out, nm), w1) →
  let command := command_line self archive_path out in
  let after := fs_after_tool env command out (fs w1) in
  appendable env after (EXTRACTION_LOG_FILE env) = false →
  ∃ e w',
    extract_archive env self archive_path all_parts torrent_name w
    = (Raise (OSError e), w')
    ∧ fs w' = after
    ∧ gui_queue w' = gui_queue w1
        ++ [MsgStatus ("Extracting: " +:+ Pathlib.name archive_path);
            MsgProgress "start"; MsgProgress "stop"; MsgStatus "Monitoring..."]
    ∧ ∃ ext, trace w' = trace w1 ++ ActExec command :: ext
             ∧ (∀ a, a ∈ ext → ∃ text, a = ActAppend (EXTRACTION_LOG_FILE env) text).
Proof.
  cbn zeta. intros Hc Happ. rewrite extract_archive_bind, Hc.
  destruct (attempt_extraction_outcome env self archive_path all_parts out nm w1)
    as (r & w' & -> & _ & Hif).
  cbn zeta in Hif. rewrite Happ in Hif.
  destruct Hif as ([e ->] & Hq & Hfs & Ht). exists e, w'.
  split_and!; [done|done|done|].
  eexists. split; [exact Ht|].
  intros a Ha. destruct (tool_exit_of _);
    repeat (apply elem_of_cons in Ha as [->|Ha]; [by eexists|]);
    by apply elem_of_nil in Ha.
Qed.

(** X8.  One report for each attempt.  Once the run of the tool has ended
    (the tool of the model always answers), the attempt ends as well and
    its [finally] clause has run: the queue gets the status and the start
    of the progress bar first, the stop of the progress bar and
    [Monitoring...] last.  Between them there is exactly one outcome when
    the attempt returns normally (success if the tool ended with status 0,
    failure otherwise), and none when an exception leaves the attempt. *)
Theorem one_report_per_attempt (self : Unpacker) (archive_path : Path)
    (all_parts : list Path) (out : Path) (nm : string) (w : World) :
  ∃ r w' report,
    attempt_extraction env self archive_path all_parts out nm w = (r, w')
    ∧ gui_queue w' = gui_queue w
        ++ [MsgStatus ("Extracting: " +:+ Pathlib.name archive_path);
            MsgProgress "start"]
        ++ report ++ [MsgProgress "stop"; MsgStatus "Monitoring..."]
    ∧ match r with
      | Ok _ =>
          report = [match tool_exit_of
                            (seven_zip env (command_line self archive_path out) (fs w))
                    with
                    | Exit0 => MsgExtractionSuccess nm (Pathlib.str out)
                    | _ => MsgExtractionFailure nm (Pathlib.str out)
                    end]
      | Raise _ => report = []
      | Diverge => False
      end.
Proof.
  destruct (attempt_extraction_outcome env self archive_path all_parts out nm w)
    as (r & w' & Hrun & _ & Hif).
  cbn zeta in Hif. exists r, w'.
  destruct (appendable env _ _).
  - destruct Hif as [-> Hif].
    destruct (tool_exit_of _); destruct Hif as (Hq & _); eexists; done.
  - destruct Hif as ([e ->] & Hq & _). by exists [].
Qed.

End outcome_extras.

Lemma successful_extraction_witness :
  let archive := ["downloads"; "T"; "a.rar"] in
  ∃ w',
    extract_archive Demo.env_ok Demo.unpacker_subfolder archive [archive] "T"
      (Demo.world_of Demo.fs_folder) = (Ok tt, w')
    ∧ fs w' !! archive = None.
Proof.
  intros archive.
  destruct (successful_extraction Demo.env_ok Demo.unpacker_subfolder archive
              [archive] "T" (Demo.world_of Demo.fs_folder)
              (choose_destination Demo.env_ok Demo.unpacker_subfolder
                 archive "T" (Demo.world_of Demo.fs_folder)).2
              ["downloads"; "T"; "T"] "T")
    as (w' & Hrun & _ & _ & Hfs).
  - vm_compute. reflexivity.
  - vm_compute. reflexivity.
  - vm_compute. reflexivity.
  - exists w'. split; [exact Hrun|]. rewrite Hfs. vm_compute. reflexivity.
Defined.

Lemma unwritable_history_witness :
  let archive := ["downloads"; "T"; "a.rar"] in
  let env := Demo.env_with Exit0
               (fun p => bool_decide (p = ["app"; "extractions.log"])) in
  ∃ e w',
    extract_archive env Demo.unpacker_subfolder archive [archive] "T"
      (Demo.world_of Demo.fs_folder) = (Raise (OSError e), w')
    ∧ fs w' !! archive = Some (File "").
Proof.
  intros archive env.
  destruct (unwritable_history env Demo.unpacker_subfolder archive
              [archive] "T" (Demo.world_of Demo.fs_folder)
              (choose_destination env Demo.unpacker_subfolder
                 archive "T" (Demo.world_of Demo.fs_folder)).2
              ["downloads"; "T"; "T"] "T")
    as (e & w' & Hrun & Hfs & _).
  - vm_compute. reflexivity.
  - vm_compute. reflexivity.
  - exists e, w'. split; [exact Hrun|]. rewrite Hfs. vm_compute. reflexivity.
Defined.

(** ** The monitor thread *)

Section thread_extras.

Context (env : Env) (cfg : Config).

(** X9.  What can end [run].  An exception leaves [run] only from the
    statements before the loop that stand outside every [try]: building
    the client, and reading the settings after the login.  In these two
    cases, and when the login fails (which [run] answers by logging the
    error, putting [Error: Connection Failed] on the queue and returning),
    [run] has done nothing to its surroundings: no action, the file system
    and the processed set as they were.  Once the loop is reached no
    exception leaves [run], whatever the service, the tool and the file
    system answer, and [run] then returns only when the stop event was
    found set. *)
Theorem run_ends_only_at_startup (startup : option startup_failure)
    (ticks : list Tick) (w : World) :
  ∃ r w' ext,
    run env cfg startup ticks w = (r, w')
    ∧ trace w' = trace w ++ ext
    ∧ (∀ e, r = Raise e
            ↔ startup = Some (ClientFailed e) ∨ startup = Some (SettingsFailed e))
    ∧ (is_Some startup →
         ext = [] ∧ fs w' = fs w
         ∧ processed_torrents w' = processed_torrents w)
    ∧ (∀ e, startup = Some (LoginFailed e) →
         r = Ok Stopped
         ∧ gui_queue w' = gui_queue w ++ [MsgStatus "Error: Connection Failed"])
    ∧ (r = Ok Stopped →
         (∃ e, startup = Some (LoginFailed e))
         ∨ ∃ tick, tick ∈ ticks ∧ stop_is_set tick = true).
Proof.
  destruct startup as [[e|e|e]|].
  - exists (Raise e), w, []. rewrite app_nil_r. split_and!; try done.
    intros e'. split; [intros [= ->]; by left|]. by intros [[= ->]|[=]].
  - eexists _, _, []. split; [reflexivity|]. cbn. rewrite app_nil_r.
    split_and!; try done.
    + intros e'. split; [done|]. by intros [[=]|[=]].
    + intros _. left. by exists e.
  - eexists (Raise e), _, []. split; [reflexivity|]. cbn. rewrite app_nil_r.
    split_and!; try done.
    intros e'. split; [intros [= ->]; by right|]. by intros [[=]|[= ->]].
  - destruct (run_as_loop env cfg ticks w)
      as (w0 & r & w1 & w' & Hfs0 & Ht0 & Hp0 & _ & Hloop & Hrun & Hfs & Ht & Hp & _).
    match type of Hloop with monitor_loop env ?u _ _ _ = _ =>
      destruct (monitor_loop_handles env u cfg ticks w0)
        as (r' & w1' & hs & ext & Hloop' & (Hext & _) & _);
      pose proof (monitor_loop_total env cfg u ticks w0) as Htotal;
      pose proof (monitor_loop_stops env cfg u ticks w0 w1) as Hstops
    end.
    rewrite Hloop in Hloop'. injection Hloop' as <- <-.
    exists r, w', ext. split_and!.
    + done.
    + by rewrite Ht, Hext, Ht0.
    + intros e. split; [|by intros [[=]|[=]]].
      intros ->. exfalso. apply (Htotal e). by rewrite Hloop.
    + by intros [? [=]].
    + by intros e [=].
    + intros ->. right. by apply Hstops.
Qed.

(** X10.  In a run where no list names a hash twice, no hash is handed to
    the unpacker twice, nothing that was processed before the run is handed
    over, every hand-over goes with a mark, and at the end the processed
    set is the one at the start plus the hashes handed over. *)
Theorem no_redispatch (ticks : list Tick) (w : World) :
  (∀ tick all, tick ∈ ticks → torrents_reply tick = inr all →
     NoDup (torrent_hash <$> all)) →
  ∃ r w' ext,
    run env cfg None ticks w = (r, w')
    ∧ trace w' = trace w ++ ext
    ∧ NoDup (dispatched ext)
    ∧ (∀ h, h ∈ dispatched ext → h ∉ processed_torrents w)
    ∧ marks ext = dispatched ext
    ∧ processed_torrents w' = list_to_set (dispatched ext) ∪ processed_torrents w.
Proof.
  intros Hnd.
  destruct (run_as_loop env cfg ticks w)
    as (w0 & r & w1 & w' & Hfs0 & Ht0 & Hp0 & _ & Hloop & Hrun & Hfs & Ht & Hp & _).
  match type of Hloop with monitor_loop env ?u _ _ _ = _ =>
    destruct (monitor_loop_handles env u cfg ticks w0)
      as (r' & w1' & hs & ext & Hloop' & (Hext & Hpt & Hset) & Hin & Hno)
  end.
  rewrite Hloop in Hloop'. injection Hloop' as <- <-.
  destruct (poller_trace_marks hs ext Hpt) as [Hm Hd].
  exists r, w', ext. rewrite Hm, Hd. split_and!.
  - done.
  - by rewrite Ht, Hext, Ht0.
  - by apply Hno.
  - intros h Hh. rewrite <-Hp0. by apply Hin.
  - done.
  - by rewrite Hp, Hset, Hp0.
Qed.

(** X11.  Whatever is handed to the unpacker was listed by the service, in
    some turn of the run, as a torrent whose progress is 1 and whose
    content path passes the test of the monitored path. *)
Theorem only_completed_dispatched (ticks : list Tick) (w : World) :
  ∃ r w' ext,
    run env cfg None ticks w = (r, w')
    ∧ trace w' = trace w ++ ext
    ∧ ∀ h, h ∈ dispatched ext →
        ∃ tick all t, tick ∈ ticks ∧ torrents_reply tick = inr all ∧ t ∈ all
                      ∧ torrent_hash t = h ∧ torrent_progress t = 1%Qc
                      ∧ in_monitored_path env cfg (torrent_content_path t) = true.
Proof.
  destruct (run_as_loop env cfg ticks w)
    as (w0 & r & w1 & w' & Hfs0 & Ht0 & Hp0 & _ & Hloop & Hrun & Hfs & Ht & Hp & _).
  match type of Hloop with monitor_loop env ?u _ _ _ = _ =>
    destruct (monitor_loop_handles env u cfg ticks w0)
      as (r' & w1' & hs & ext & Hloop' & (Hext & Hpt & Hset) & Hin & _)
  end.
  rewrite Hloop in Hloop'. injection Hloop' as <- <-.
  destruct (poller_trace_marks hs ext Hpt) as [_ Hd].
  exists r, w', ext. rewrite Hd. split_and!.
  - done.
  - by rewrite Ht, Hext, Ht0.
  - intros h Hh. by apply Hin.
Qed.

End thread_extras.

Lemma no_redispatch_witness :
  let X := DemoMonitor.completed "downloads" "X" in
  let A := DemoMonitor.completed "downloads" "A" in
  let ticks := [DemoMonitor.tick_listing [A; X]; DemoMonitor.tick_listing [X; A]] in
  ∃ w' ext,
    (run Demo.env_ok DemoMonitor.config None ticks (Demo.world_of Demo.fs_three)).2 = w'
    ∧ trace w' = ext ∧ NoDup (dispatched ext).
Proof.
  intros X A ticks.
  destruct (no_redispatch Demo.env_ok DemoMonitor.config ticks
              (Demo.world_of Demo.fs_three))
    as (r & w' & ext & Hrun & Ht & Hnd & _).
  - intros tick all Htick Hreply.
    apply elem_of_cons in Htick as [->|Htick].
    { injection Hreply as <-. apply (bool_decide_unpack _). vm_compute. exact I. }
    apply elem_of_cons in Htick as [->|Htick].
    { injection Hreply as <-. apply (bool_decide_unpack _). vm_compute. exact I. }
    by apply elem_of_nil in Htick.
  - exists w', ext. rewrite Hrun. split_and!; [done|by rewrite Ht|done].
Defined.

(** ** The whole of [unpack_archives] *)

Section unpack_extras.

Context (env : Env).

(** X13.  The tool is run at most once for each archive set.  When
    [unpack_archives] returns normally it was run exactly once for each
    set, in the order of the sets, each time on the primary file of the
    set. *)
Theorem one_run_per_set (self : Unpacker) (path : Path) (w : World) :
  ∃ found r w' ext,
    find_archives path w = (Ok found, w)
    ∧ unpack_archives env self path w = (r, w')
    ∧ trace w' = trace w ++ ext
    ∧ length (execs ext) ≤ length (Grouper.archive_sets found)
    ∧ (r = Ok tt →
       Forall2 (fun command set =>
                  ∃ primary out, Grouper.primary_file set.2 = Some primary
                                 ∧ command = command_line self primary out)
               (execs ext) (Grouper.archive_sets found)).
Proof.
  destruct (unpack_archives_runs env self path w)
    as (found & r & w' & ext & Hfound & Hrun & Ht & _ & Hr).
  exists found, r, w', ext. split_and!; [done|done|done| |].
  - destruct r as [[]|e|]; [|by destruct Hr|done].
    by apply Forall2_length in Hr as ->.
  - by intros ->.
Qed.

(** X14.  Without [delete_on_success], [unpack_archives] never calls
    [os.remove], and every entry of the file system that was there before
    is there afterwards. *)
Theorem removal_needs_consent (self : Unpacker) (path : Path) (w : World) :
  delete_on_success self = false →
  ∃ r w' ext,
    unpack_archives env self path w = (r, w')
    ∧ trace w' = trace w ++ ext
    ∧ (∀ p, ActRemove p ∉ ext)
    ∧ (∀ p, is_Some (fs w !! p) → is_Some (fs w' !! p)).
Proof.
  intros Hdel.
  destruct (unpack_archives_runs env self path w)
    as (found & r & w' & ext & _ & Hrun & Ht & Hrm & _).
  exists r, w', ext. split_and!; [done|done|by apply Hrm|].
  pose proof (keeps_unpack_archives env self path Hdel w) as Hkeeps.
  by rewrite Hrun in Hkeeps.
Qed.

End unpack_extras.

Lemma removal_needs_consent_witness :
  ∃ w',
    (unpack_archives Demo.env_ok DemoMonitor.unpacker ["downloads"; "T"]
       (Demo.world_of Demo.fs_folder)).2 = w'
    ∧ is_Some (fs w' !! ["downloads"; "T"; "a.rar"]).
Proof.
  destruct (removal_needs_consent Demo.env_ok DemoMonitor.unpacker
              ["downloads"; "T"] (Demo.world_of Demo.fs_folder))
    as (r & w' & ext & Hrun & _ & _ & Hkeeps).
  - reflexivity.
  - exists w'. rewrite Hrun. split; [done|]. apply Hkeeps.
    vm_compute. by eexists.
Defined.

(** ** The history window ([class MainApp]) *)

Section window_extras.

Context (env : Env).

(** X15.  [_delete_all_data] always ends.  Unless [DELETE!] was typed it
    changes nothing at all.  When it was typed, the history in the window
    is emptied; the loop over the records never raises, whatever the
    records hold; the message at the end reports two counters that add up
    to at most the number of records; an exception only arises when the
    history file cannot be removed, it is an [OSError], and the file is
    still there.  In every case nothing is created, and nothing is removed
    but the history file and what lies at or below a place that the path
    of a record leads to, as the system walks that path in the file system
    found at the start ([..] leading to the parent). *)
Theorem delete_all_data_frame (response : option string) (app : Gui) (w : World) :
  ∃ r app' w',
    _delete_all_data env response app w = (r, app', w')
    ∧ fs w' ⊆ fs w
    ∧ (∀ k, (∀ rec p, rec ∈ extraction_history app →
               reach (cwd env) (fs w) rec.2 = inr p → ¬ p `prefix_of` k) →
         k ≠ EXTRACTION_LOG_FILE env → fs w' !! k = fs w !! k)
    ∧ if bool_decide (response = Some "DELETE!") then
        app' = cleared app
        ∧ match r with
          | Ok msg =>
              ∃ deleted_count failed_count,
                msg = summary_msg deleted_count failed_count
                ∧ deleted_count + failed_count ≤ length (extraction_history app)
                ∧ fs w' !! EXTRACTION_LOG_FILE env = None
          | Raise e => (∃ n, e = OSError n)
                       ∧ is_Some (fs w' !! EXTRACTION_LOG_FILE env)
          | Diverge => False
          end
      else r = Ok "Deletion cancelled. No files were changed."
           ∧ app' = app ∧ w' = w.
Proof.
  case_bool_decide as Hresp.
  - subst response.
    destruct (delete_all_data_confirmed env app w)
      as (r & w' & d & f & Hrun & Hsub & Hout & Hsum & Hr).
    exists r, (cleared app), w'. split_and!; [done|done|done|done|].
    destruct r as [msg|e|]; [|done|done].
    destruct Hr as [-> Hgone]. by exists d, f.
  - rewrite delete_all_data_cancelled by done.
    eexists _, _, _. split; [reflexivity|]. done.
Qed.

(** X16.  On a well-formed file system (every entry in a directory, under
    a name an entry can have), with nothing refused and a history file
    that is not a directory: once [DELETE!] is typed, [_delete_all_data]
    returns normally; every record whose path is ordinary (no null
    character, at least one component, no component [..]) names nothing
    afterwards, the entry being gone with everything below it; the
    history file is gone; the file system is well formed as before; and
    whatever neither lies at or below a place the path of a record leads
    to, nor is the history file, is as it was. *)
Theorem delete_all_data_removes (app : Gui) (w : World) :
  well_formed (fs w) → (∀ k, refused env k = false) →
  fs w !! EXTRACTION_LOG_FILE env ≠ Some Dir →
  ∃ deleted_count failed_count w',
    _delete_all_data env (Some "DELETE!") app w
    = (Ok (summary_msg deleted_count failed_count), cleared app, w')
    ∧ deleted_count + failed_count ≤ length (extraction_history app)
    ∧ (∀ r k, r ∈ extraction_history app → PathText.ordinary r.2 = true →
         PathText.entry (cwd env) r.2 `prefix_of` k → fs w' !! k = None)
    ∧ fs w' !! EXTRACTION_LOG_FILE env = None
    ∧ well_formed (fs w')
    ∧ (∀ k, (∀ r p, r ∈ extraction_history app →
               reach (cwd env) (fs w) r.2 = inr p → ¬ p `prefix_of` k) →
         k ≠ EXTRACTION_LOG_FILE env → fs w' !! k = fs w !! k).
Proof.
  intros Hwf Href Hlog.
  destruct (delete_all_data_clean env app w Hwf Href Hlog)
    as (d & f & w' & Hrun & Hgone & Hnolog & _ & Hsum & Hwf').
  destruct (delete_all_data_confirmed env app w)
    as (r0 & w0 & _ & _ & Hrun0 & _ & Hout & _).
  rewrite Hrun in Hrun0. injection Hrun0 as <- <-.
  exists d, f, w'. by split_and!.
Qed.

(** X17.  [_clear_extraction_history]: when the question is answered with
    no, nothing changes.  When it is answered with yes, the history in the
    window is emptied and nothing but the history file is touched; if the
    file was missing or could be removed the call returns normally and
    [_load_extraction_history] then finds no record; if the file cannot be
    removed an [OSError] leaves the call, the window being emptied all the
    same while the file stays as it was. *)
Theorem clear_history (confirmed : bool) (app : Gui) (w : World) :
  ∃ r app' w',
    _clear_extraction_history env confirmed app w = (r, app', w')
    ∧ (∀ k, k ≠ EXTRACTION_LOG_FILE env → fs w' !! k = fs w !! k)
    ∧ if confirmed then
        app' = cleared app
        ∧ match r with
          | Ok _ => _load_extraction_history env w' = (Ok [], w')
          | Raise e => (∃ n, e = OSError n) ∧ fs w' = fs w
                       ∧ is_Some (fs w !! EXTRACTION_LOG_FILE env)
          | Diverge => False
          end
      else r = Ok tt ∧ app' = app ∧ w' = w.
Proof.
  destruct confirmed.
  - destruct (clear_history_confirmed env app w)
      as (r & w' & Hrun & Hout & _ & _ & Hr).
    exists r, (cleared app), w'. split_and!; [done|done|done|].
    destruct r as [[]|e|]; [|done|done]. by apply load_missing.
  - eexists _, _, _. split; [reflexivity|]. done.
Qed.

(** X18.  From an extraction to its deletion.  After an extraction that
    succeeded, the window, once it has read the queue, holds the record of
    it; if [DELETE!] is then typed (the file system being one in which
    every entry lies in a directory, nothing refused, no record naming the
    root), the output directory of that extraction is gone with everything
    below it.  In flat mode the output directory is the folder of the
    archive itself. *)
Theorem extracted_then_deleted (self : Unpacker) (archive_path : Path)
    (all_parts : list Path) (torrent_name : string) (w w1 : World)
    (out : Path) (nm : string) (app : Gui) :
  choose_destination env self archive_path torrent_name w = (Ok (out, nm), w1) →
  let command := command_line self archive_path out in
  let after := fs_after_tool env command out (fs w1) in
  tool_exit_of (seven_zip env command (fs w1)) = Exit0 →
  appendable env after (EXTRACTION_LOG_FILE env) = true →
  Forall (fun c => PathText.plain c = true) out → out ≠ [] →
  (∀ k, refused env k = false) →
  ∃ w',
    extract_archive env self archive_path all_parts torrent_name w = (Ok tt, w')
    ∧ let app' := (_poll_gui_queue app w').1 in
      let w'' := (_poll_gui_queue app w').2 in
      ("SUCCESS", nm, Pathlib.str out) ∈ extraction_history app'
      ∧ (create_subfolder self = false → out = Pathlib.parent archive_path)
      ∧ (well_formed (fs w') →
         (∀ r, r ∈ extraction_history app' → PathText.entry (cwd env) r.2 ≠ []) →
         ∃ msg w3,
           _delete_all_data env (Some "DELETE!") app' w'' = (Ok msg, cleared app', w3)
           ∧ ∀ k, out `prefix_of` k → fs w3 !! k = None).
Proof.
  cbn zeta. intros Hc Hexit Happ Hplain Hne Href.
  destruct (extraction_recorded env self archive_path all_parts torrent_name
              w w1 out nm app Hc Hexit Happ) as (w' & Hrun & Hin & Hlog).
  exists w'. split; [done|]. split; [done|]. split.
  - intros Hflat. destruct (choose_destination_ok env _ _ _ _ _ _ _ Hc) as [_ Hch].
    rewrite Hflat in Hch. by destruct Hch as (-> & _).
  - intros Hwf Hroot.
    destruct (recorded_tree_deleted env (_poll_gui_queue app w').1
                (_poll_gui_queue app w').2 out "SUCCESS" nm)
      as (d & f & w3 & Hdel & Hgone); try done.
    by exists (summary_msg d f), w3.
Qed.

(** X19.  The window and the file stay in step.  Suppose the queue is
    empty, the history file holds exactly the lines of the records in the
    window, these records and the new one can be stored, the file can be
    written, the tool does not write over it and it is not among the parts.
    Then the attempt returns normally, and once the window has read the
    queue it has one more record, [SUCCESS] if the tool ended with status 0
    and [FAILURE] otherwise; the file is again exactly the lines of the
    records in the window, so a restart would load what the window shows;
    the progress bar is stopped and the status reads [Monitoring...]. *)
Theorem window_matches_file (self : Unpacker) (archive_path : Path)
    (all_parts : list Path) (out : Path) (nm : string) (app : Gui) (w : World) :
  let command := command_line self archive_path out in
  let after := fs_after_tool env command out (fs w) in
  let history := EXTRACTION_LOG_FILE env in
  gui_queue w = [] →
  Os.content_of (fs w) history
  = String.concat "" (List.map History.line_of (extraction_history app)) →
  Forall (fun r => History.storable r = true) (extraction_history app) →
  History.storable ("SUCCESS", nm, Pathlib.str out) = true →
  appendable env after history = true →
  ¬ out `prefix_of` history → history ∉ all_parts →
  ∃ w' status,
    attempt_extraction env self archive_path all_parts out nm w = (Ok tt, w')
    ∧ (status = "SUCCESS" ∧ tool_exit_of (seven_zip env command (fs w)) = Exit0
       ∨ status = "FAILURE" ∧ tool_exit_of (seven_zip env command (fs w)) ≠ Exit0)
    ∧ let app' := (_poll_gui_queue app w').1 in
      let w'' := (_poll_gui_queue app w').2 in
      extraction_history app'
      = extraction_history app ++ [(status, nm, Pathlib.str out)]
      ∧ _load_extraction_history env w'' = (Ok (extraction_history app'), w'')
      ∧ Os.content_of (fs w'') history
        = String.concat "" (List.map History.line_of (extraction_history app'))
      ∧ progress_bar app' = false ∧ status_label app' = "Monitoring..."
      ∧ gui_queue w'' = [].
Proof. apply attempt_keeps_in_sync. Qed.

(** X20.  A path written as text and read back is the same path:
    [Path(str(p)) = p] for every path whose components are not empty, are
    not [.] and have no slash.  This is the way from the path an extraction
    records to the path [_delete_all_data] deletes. *)
Theorem path_text_round_trip (cwd0 p : Path) :
  Forall (fun c => PathText.plain c = true) p →
  PathText.entry cwd0 (Pathlib.str p) = p
  ∧ PathText.parts (Pathlib.str p) = p
  ∧ PathText.root (Pathlib.str p) = "/".
Proof.
  intros Hp. split_and!; [by apply entry_str|by apply parts_str|by apply root_str].
Qed.

(** X21.  Reading the queue keeps the list box in step with the history:
    if row [i] shows the name of record [i] before, it does so afterwards,
    whatever the queue holds; the queue is then empty and nothing else has
    changed.  Emptying the history keeps them in step as well. *)
Theorem listbox_mirrors_history (app : Gui) (w : World) :
  mirrors app →
  mirrors (_poll_gui_queue app w).1
  ∧ mirrors (cleared app)
  ∧ gui_queue (_poll_gui_queue app w).2 = []
  ∧ fs (_poll_gui_queue app w).2 = fs w
  ∧ trace (_poll_gui_queue app w).2 = trace w
  ∧ length (extraction_history app) ≤ length (extraction_history (_poll_gui_queue app w).1).
Proof.
  intros Hm. split_and!; [by apply mirrors_foldl|done|done|done|done|].
  unfold _poll_gui_queue. cbn [fst]. generalize (gui_queue w). intros queue.
  revert app Hm. induction queue as [|msg queue IH]; intros app Hm; [done|].
  cbn [foldl]. etrans; [|apply IH; by apply mirrors_handle_message].
  destruct msg; cbn; rewrite ?length_app; lia.
Qed.

End window_extras.

Lemma delete_all_data_removes_witness :
  ∃ deleted_count failed_count w',
    _delete_all_data Demo.env_ok (Some "DELETE!") (DemoApp.app_of DemoApp.history)
      (Demo.world_of DemoApp.fs_extracted)
    = (Ok (summary_msg deleted_count failed_count),
       cleared (DemoApp.app_of DemoApp.history), w')
    ∧ fs w' !! ["downloads"; "T"; "T"; "sub"; "b.txt"] = None
    ∧ fs w' !! ["downloads"; "T"; "a.rar"] = Some (File "").
Proof.
  destruct (delete_all_data_removes Demo.env_ok (DemoApp.app_of DemoApp.history)
              (Demo.world_of DemoApp.fs_extracted))
    as (d & f & w' & Hrun & _ & Hgone & _ & _ & Hframe).
  - apply (bool_decide_unpack _). vm_compute. exact I.
  - intros k. reflexivity.
  - vm_compute. discriminate.
  - exists d, f, w'. split_and!; [exact Hrun| |].
    + apply (Hgone ("SUCCESS", "T", "/downloads/T/T")); [by left|reflexivity|].
      exists ["sub"; "b.txt"]. vm_compute. reflexivity.
    + rewrite Hframe; [vm_compute; reflexivity| |discriminate].
      intros r p Hr. apply list_elem_of_singleton in Hr as ->.
      vm_compute. intros [= <-] [k Hk]. discriminate Hk.
Defined.

Lemma extracted_then_deleted_witness :
  let archive := ["downloads"; "T"; "a.rar"] in
  ∃ w' msg w3,
    extract_archive Demo.env_ok Demo.unpacker_subfolder archive [archive] "T"
      (Demo.world_of Demo.fs_folder) = (Ok tt, w')
    ∧ fs w' !! ["downloads"; "T"; "T"] = Some Dir
    ∧ _delete_all_data Demo.env_ok (Some "DELETE!")
        (_poll_gui_queue (DemoApp.app_of []) w').1 (_poll_gui_queue (DemoApp.app_of []) w').2
      = (Ok msg, cleared (_poll_gui_queue (DemoApp.app_of []) w').1, w3)
    ∧ fs w3 !! ["downloads"; "T"; "T"] = None.
Proof.
  intros archive.
  destruct (extracted_then_deleted Demo.env_ok Demo.unpacker_subfolder archive
              [archive] "T" (Demo.world_of Demo.fs_folder)
              (choose_destination Demo.env_ok Demo.unpacker_subfolder
                 archive "T" (Demo.world_of Demo.fs_folder)).2
              ["downloads"; "T"; "T"] "T" (DemoApp.app_of []))
    as (w' & Hrun & _ & _ & Hdel).
  - vm_compute. reflexivity.
  - vm_compute. reflexivity.
  - vm_compute. reflexivity.
  - repeat constructor.
  - discriminate.
  - intros k. reflexivity.
  - assert (w' = (extract_archive Demo.env_ok Demo.unpacker_subfolder archive
                    [archive] "T" (Demo.world_of Demo.fs_folder)).2) as Hw'
      by (by rewrite Hrun).
    destruct Hdel as (msg & w3 & Hdel & Hgone).
    + rewrite Hw'. apply (bool_decide_unpack _). vm_compute. exact I.
    + rewrite Hw'. intros r Hr. vm_compute in Hr.
      apply list_elem_of_singleton in Hr as ->. vm_compute. discriminate.
    + exists w', msg, w3. split_and!; [exact Hrun| |exact Hdel|by apply Hgone].
      rewrite Hw'. vm_compute. reflexivity.
Defined.

Lemma window_matches_file_witness :
  let archive := ["downloads"; "T"; "a.rar"] in
  let out := ["downloads"; "T"; "T"] in
  ∃ w',
    attempt_extraction Demo.env_ok Demo.unpacker_subfolder archive [archive] out "T"
      (Demo.world_of Demo.fs_folder_taken) = (Ok tt, w')
    ∧ (_load_extraction_history Demo.env_ok (_poll_gui_queue (DemoApp.app_of []) w').2).1
      = Ok (extraction_history (_poll_gui_queue (DemoApp.app_of []) w').1).
Proof.
  intros archive out.
  destruct (window_matches_file Demo.env_ok Demo.unpacker_subfolder archive
              [archive] out "T" (DemoApp.app_of [])
              (Demo.world_of Demo.fs_folder_taken))
    as (w' & status & Hrun & _ & _ & Hload & _).
  - reflexivity.
  - vm_compute. reflexivity.
  - constructor.
  - vm_compute. reflexivity.
  - vm_compute. reflexivity.
  - intros [k Hk]. discriminate Hk.
  - intros Hin. apply list_elem_of_singleton in Hin. discriminate Hin.
  - exists w'. split; [exact Hrun|]. by rewrite Hload.
Defined.

Lemma path_text_round_trip_witness :
  PathText.entry ["app"] (Pathlib.str ["downloads"; "T"; "T (1)"])
  = ["downloads"; "T"; "T (1)"].
Proof.
  destruct (path_text_round_trip ["app"] ["downloads"; "T"; "T (1)"]) as [H _].
  - repeat constructor.
  - exact H.
Defined.

Lemma listbox_mirrors_history_witness :
  let w := (unpack_archives Demo.env_ok Demo.unpacker_subfolder ["downloads"; "T"]
              (Demo.world_of Demo.fs_folder)).2 in
  mirrors (_poll_gui_queue (DemoApp.app_of []) w).1.
Proof.
  intros w. destruct (listbox_mirrors_history (DemoApp.app_of []) w) as [H _].
  - reflexivity.
  - exact H.
Defined.
